(** * VoiceForge AI

    A shallow embedding of the parts of the VoiceForge AI front end that
    carry behaviour worth stating: the two WAV encoders
    ([PiperEngine.pcmToWav], [AudioEngine.bufferToWave]), the synthesis
    fallback chain ([PiperEngine], [AudioEngine], [VoiceForgeEngine],
    [PiperIntegration]), the translation lookup [I18n.t], the service
    worker's fetch handler, and the history list with its persistence in
    local storage.

    Conventions.  JavaScript numbers that the code computes with are
    integers or dyadic rationals well inside the range in which double
    arithmetic is exact; they are modelled by [Z] and [Q], and the
    conversions the platform applies when a number is stored in a typed
    field ([ToUint16], [ToUint32], [ToInt32], [ToIndex]) are written out.
    A [Float32Array] element is its 32-bit pattern.  A thrown exception is
    a value of [exn]; code that can throw returns a [result]. *)

From Stdlib Require Import ZArith QArith List String Ascii Bool Lia.
From stdpp Require Import gmap strings list pretty.

Set Warnings "-register-all".

Local Open Scope Z_scope.

(** ** Exceptions and results *)

Inductive exn : Type :=
| RangeError
| TypeError
| SyntaxError
| NotSupportedError
| QuotaExceededError
| NetworkError
| Error (msg : string).

Inductive result (A : Type) : Type :=
| Ok (a : A)
| Throw (e : exn).

Arguments Ok {A} a.
Arguments Throw {A} e.

#[global] Instance result_ret : MRet result := fun A a => Ok a.

#[global] Instance result_bind : MBind result := fun A B f m =>
  match m with
  | Ok a => f a
  | Throw e => Throw e
  end.

Definition is_ok {A} (r : result A) : bool :=
  match r with Ok _ => true | Throw _ => false end.

(** ** JavaScript numbers *)

Inductive jsnum : Type :=
| JNaN
| JPosInf
| JNegInf
| JFin (q : Q).

(** Truncation toward zero (the integer part taken by [ToIntegerOrInfinity]). *)
Definition Qtrunc (q : Q) : Z := Z.quot (Qnum q) (Z.pos (Qden q)).

Definition Qltb (a b : Q) : bool := negb (Qle_bool b a).

(** [a < b]; false as soon as one side is NaN. *)
Definition js_lt (a b : jsnum) : bool :=
  match a, b with
  | JNaN, _ => false
  | _, JNaN => false
  | JPosInf, _ => false
  | _, JNegInf => false
  | JNegInf, _ => true
  | _, JPosInf => true
  | JFin x, JFin y => Qltb x y
  end.

Definition is_nan (a : jsnum) : bool :=
  match a with JNaN => true | _ => false end.

Definition Math_min (a b : jsnum) : jsnum :=
  if is_nan a || is_nan b then JNaN else if js_lt b a then b else a.

Definition Math_max (a b : jsnum) : jsnum :=
  if is_nan a || is_nan b then JNaN else if js_lt a b then b else a.

Definition Qsgn (q : Q) : Z := Z.sgn (Qnum q).

Definition inf_of_sign (s : Z) : jsnum :=
  if s =? 0 then JNaN else if s <? 0 then JNegInf else JPosInf.

Definition js_sign (a : jsnum) : Z :=
  match a with
  | JNaN => 0
  | JPosInf => 1
  | JNegInf => -1
  | JFin q => Qsgn q
  end.

Definition js_mul (a b : jsnum) : jsnum :=
  match a, b with
  | JNaN, _ => JNaN
  | _, JNaN => JNaN
  | JFin x, JFin y => JFin (x * y)
  | _, _ => inf_of_sign (js_sign a * js_sign b)
  end.

Definition wrap_unsigned (w : Z) (z : Z) : Z := z mod 2 ^ w.

Definition wrap_signed (w : Z) (z : Z) : Z :=
  let m := z mod 2 ^ w in
  if m <? 2 ^ (w - 1) then m else m - 2 ^ w.

(** [x | 0]: NaN and the infinities give 0, a finite number is truncated
    and wrapped to a signed 32-bit integer. *)
Definition ToInt32 (x : jsnum) : Z :=
  match x with
  | JFin q => wrap_signed 32 (Qtrunc q)
  | _ => 0
  end.

Definition ToUint (w : Z) (q : Q) : Z := wrap_unsigned w (Qtrunc q).

(** ** Float32 elements

    An element of a [Float32Array] is kept as its IEEE-754 binary32 bit
    pattern; reading it yields the number it denotes. *)

Definition f32 : Type := Z.

Definition f32_value (bits : f32) : jsnum :=
  let b := bits mod 2 ^ 32 in
  let s := Z.testbit b 31 in
  let e := Z.land (Z.shiftr b 23) 255 in
  let m := Z.land b (2 ^ 23 - 1) in
  if e =? 255 then
    (if m =? 0 then (if s then JNegInf else JPosInf) else JNaN)
  else
    let mant := if e =? 0 then m else m + 2 ^ 23 in
    let ex := (if e =? 0 then 1 else e) - 150 in
    let smant := if s then - mant else mant in
    JFin (if 0 <=? ex then inject_Z (smant * 2 ^ ex)
          else Qmake smant (Z.to_pos (2 ^ (- ex)))).

(** The pattern stored for a NaN (what [undefined] becomes in a
    [Float32Array]). *)
Definition f32_nan : f32 := 0x7fc00000.

(** An element read as a Number and stored as a float again
    ([data[k] = channel[i]], [view.setFloat32(index, data[i])]).  Every
    value but a NaN gets its own pattern back.  Which NaN is stored for a
    NaN is the engine's choice; the conversion to double and back keeps
    sign and payload and sets the quiet bit (bit 22), and that is the
    pattern stored here: 0x7F800001 comes back as 0x7FC00001. *)
Definition f32_stored (x : f32) : Z :=
  let b := x mod 2 ^ 32 in
  match f32_value x with
  | JNaN => Z.lor b 0x400000
  | _ => b
  end.

(** ** ArrayBuffer and DataView *)

Definition bytes : Type := list Z.

(** [new ArrayBuffer(len)]: [ToIndex] truncates, and rejects a negative
    length or one above 2^53 - 1.  An engine also throws a [RangeError]
    when it cannot provide the memory, at a length that is its own; the
    allocator here is the most generous the language allows, and what is
    stated about every buffer an encoder returns is stated for the calls
    that return one. *)
Definition ArrayBuffer_new (len : Q) : result bytes :=
  let n := Qtrunc len in
  if (n <? 0) || (2 ^ 53 - 1 <? n) then Throw RangeError
  else Ok (repeat 0 (Z.to_nat n)).

Fixpoint le_bytes (n : nat) (v : Z) : list Z :=
  match n with
  | O => []
  | S k => Z.land v 255 :: le_bytes k (Z.shiftr v 8)
  end.

Definition write_at (off : nat) (bs : list Z) (buf : bytes) : bytes :=
  firstn off buf ++ bs ++ skipn (off + length bs) buf.

(** Every [DataView] setter checks [byteOffset + size <= byteLength]
    first and throws a [RangeError] otherwise. *)
Definition store (view : bytes) (off : Z) (bs : list Z) : result bytes :=
  if (off <? 0) || (Z.of_nat (length view) <? off + Z.of_nat (length bs))
  then Throw RangeError
  else Ok (write_at (Z.to_nat off) bs view).

Definition setUint8 (view : bytes) (off : Z) (v : Z) : result bytes :=
  store view off (le_bytes 1 (wrap_unsigned 8 v)).

Definition setInt8 (view : bytes) (off : Z) (v : Z) : result bytes :=
  store view off (le_bytes 1 (wrap_signed 8 v)).

(** The setters below are the little-endian ones (third argument [true]). *)
Definition setUint16 (view : bytes) (off : Z) (v : Q) : result bytes :=
  store view off (le_bytes 2 (ToUint 16 v)).

Definition setUint32 (view : bytes) (off : Z) (v : Q) : result bytes :=
  store view off (le_bytes 4 (ToUint 32 v)).

Definition setInt16 (view : bytes) (off : Z) (v : Z) : result bytes :=
  store view off (le_bytes 2 (wrap_signed 16 v)).

(** [setFloat32] is handed the Number read from the element [x] and
    stores it as a float. *)
Definition setFloat32 (view : bytes) (off : Z) (x : f32) : result bytes :=
  store view off (le_bytes 4 (f32_stored x)).

Definition byte_at (view : bytes) (off : nat) : Z := nth off view 0.

Definition getUint16 (view : bytes) (off : nat) : Z :=
  byte_at view off + 2 ^ 8 * byte_at view (off + 1).

Definition getUint32 (view : bytes) (off : nat) : Z :=
  byte_at view off + 2 ^ 8 * byte_at view (off + 1)
  + 2 ^ 16 * byte_at view (off + 2) + 2 ^ 24 * byte_at view (off + 3).

Definition getInt16 (view : bytes) (off : nat) : Z :=
  wrap_signed 16 (getUint16 view off).

Definition getInt24 (view : bytes) (off : nat) : Z :=
  wrap_signed 24 (byte_at view off + 2 ^ 8 * byte_at view (off + 1)
                  + 2 ^ 16 * byte_at view (off + 2)).

Definition slice (view : bytes) (off len : nat) : list Z :=
  firstn len (skipn off view).

Definition char_codes (s : string) : list Z :=
  map (fun c => Z.of_nat (nat_of_ascii c)) (list_ascii_of_string s).

(** [writeString]: one [setUint8] per character, left to right. *)
Fixpoint writeCodes (view : bytes) (off : Z) (cs : list Z) : result bytes :=
  match cs with
  | [] => Ok view
  | c :: cs' => view' ← setUint8 view off c; writeCodes view' (off + 1) cs'
  end.

Definition writeString (view : bytes) (off : Z) (s : string) : result bytes :=
  writeCodes view off (char_codes s).

(** ** Sample quantisation shared by both encoders *)

Definition clamp_sample (x : f32) : jsnum :=
  Math_max (JFin (-1)) (Math_min (JFin 1) (f32_value x)).

(** [sample < 0 ? sample * neg : sample * pos], then [| 0]. *)
Definition quantize (neg pos : Z) (x : f32) : Z :=
  let sample := clamp_sample x in
  let pcm := if js_lt sample (JFin 0)
             then js_mul sample (JFin (inject_Z neg))
             else js_mul sample (JFin (inject_Z pos)) in
  ToInt32 pcm.

(** ** PiperEngine.pcmToWav (piper-engine.js) *)

Fixpoint pcm16_loop (view : bytes) (index : Z) (data : list f32) : result bytes :=
  match data with
  | [] => Ok view
  | x :: rest =>
      view' ← setInt16 view index (quantize 0x8000 0x7fff x);
      pcm16_loop view' (index + 2) rest
  end.

(** The header writes common to both encoders; [format] is the audio
    format tag at offset 20.  The products and sums are those of the
    rationals.  The code computes them in double precision, which gives
    the same numbers as long as every operand and result is an integer
    of magnitude at most 2^53 or an eighth of one ([exact_header]
    below); beyond that range a double rounds. *)
Definition writeHeader (buffer : bytes) (dataLength : Q) (format channels
    sampleRate : Z) (blockAlign : Q) (bitDepth : Z) : result bytes :=
  view ← writeString buffer 0 "RIFF";
  view ← setUint32 view 4 (36 + dataLength)%Q;
  view ← writeString view 8 "WAVE";
  view ← writeString view 12 "fmt ";
  view ← setUint32 view 16 16%Q;
  view ← setUint16 view 20 (inject_Z format);
  view ← setUint16 view 22 (inject_Z channels);
  view ← setUint32 view 24 (inject_Z sampleRate);
  view ← setUint32 view 28 (inject_Z sampleRate * blockAlign)%Q;
  view ← setUint16 view 32 blockAlign;
  view ← setUint16 view 34 (inject_Z bitDepth);
  view ← writeString view 36 "data";
  setUint32 view 40 dataLength.

Definition pcmToWav (pcmData : list f32) (sampleRate channels bitDepth : Z)
  : result bytes :=
  let bytesPerSample : Q := (inject_Z bitDepth / 8)%Q in
  let blockAlign : Q := (inject_Z channels * bytesPerSample)%Q in
  let dataLength : Q :=
    (inject_Z (Z.of_nat (length pcmData)) * bytesPerSample)%Q in
  buffer ← ArrayBuffer_new (44 + dataLength)%Q;
  view ← writeHeader buffer dataLength 1 channels sampleRate blockAlign bitDepth;
  pcm16_loop view 44 pcmData.

(** The defaults of the signature: 22050 Hz, mono, 16 bit. *)
Definition pcmToWav_default (pcmData : list f32) : result bytes :=
  pcmToWav pcmData 22050 1 16.


(** ** AudioEngine.bufferToWave (audio-engine.js) *)

(** An [AudioBuffer]: its channels are [Float32Array]s of [ab_length]
    frames each. *)
Record AudioBuffer : Type := mkAudioBuffer {
  ab_sampleRate : Z;
  ab_length : nat;
  ab_channels : list (list f32)
}.

Definition numberOfChannels (ab : AudioBuffer) : Z :=
  Z.of_nat (length (ab_channels ab)).

Definition AudioBuffer_wf (ab : AudioBuffer) : Prop :=
  Forall (fun ch => length ch = ab_length ab) (ab_channels ab).

(** Frame by frame, one sample of every channel:
    [data[offset++] = channels[channel][i]]. *)
Definition interleave (ab : AudioBuffer) : list f32 :=
  flat_map (fun i => map (fun ch => nth i ch f32_nan) (ab_channels ab))
           (seq 0 (ab_length ab)).

Fixpoint pcm24_loop (view : bytes) (index : Z) (data : list f32) : result bytes :=
  match data with
  | [] => Ok view
  | x :: rest =>
      let val := quantize 0x800000 0x7fffff x in
      view ← setInt8 view index (Z.land val 0xff);
      view ← setInt8 view (index + 1) (Z.land (Z.shiftr val 8) 0xff);
      view ← setInt8 view (index + 2) (Z.land (Z.shiftr val 16) 0xff);
      pcm24_loop view (index + 3) rest
  end.

Fixpoint float32_loop (view : bytes) (index : Z) (data : list f32) : result bytes :=
  match data with
  | [] => Ok view
  | x :: rest =>
      view ← setFloat32 view index x;
      float32_loop view (index + 4) rest
  end.

Definition valid_bitDepth (bitDepth : Z) : bool :=
  existsb (Z.eqb bitDepth) [16; 24; 32].

Definition bufferToWave (audioBuffer : AudioBuffer) (bitDepth : Z)
  : result bytes :=
  let sampleRate := ab_sampleRate audioBuffer in
  let format := if bitDepth =? 32 then 3 else 1 in
  let bitDepth := if valid_bitDepth bitDepth then bitDepth else 16 in
  let bytesPerSample : Q := (inject_Z bitDepth / 8)%Q in
  let blockAlign : Q :=
    (inject_Z (numberOfChannels audioBuffer) * bytesPerSample)%Q in
  let data := interleave audioBuffer in
  let dataLength : Q := (inject_Z (Z.of_nat (length data)) * bytesPerSample)%Q in
  buffer ← ArrayBuffer_new (44 + dataLength)%Q;
  view ← writeHeader buffer dataLength format (numberOfChannels audioBuffer)
           sampleRate blockAlign bitDepth;
  if bitDepth =? 16 then pcm16_loop view 44 data
  else if bitDepth =? 24 then pcm24_loop view 44 data
  else if bitDepth =? 32 then float32_loop view 44 data
  else Ok view.

(** ** The WAV layout in the words of the specification

    The 44 header bytes, field by field, and the bytes of one sample at a
    given bit depth. *)

Definition riff_header (dataLength : Q) (format channels sampleRate : Z)
    (blockAlign : Q) (bitDepth : Z) : list Z :=
  char_codes "RIFF" ++ le_bytes 4 (ToUint 32 (36 + dataLength)%Q)
  ++ char_codes "WAVE" ++ char_codes "fmt "
  ++ le_bytes 4 (ToUint 32 16%Q)
  ++ le_bytes 2 (ToUint 16 (inject_Z format))
  ++ le_bytes 2 (ToUint 16 (inject_Z channels))
  ++ le_bytes 4 (ToUint 32 (inject_Z sampleRate))
  ++ le_bytes 4 (ToUint 32 (inject_Z sampleRate * blockAlign)%Q)
  ++ le_bytes 2 (ToUint 16 blockAlign)
  ++ le_bytes 2 (ToUint 16 (inject_Z bitDepth))
  ++ char_codes "data" ++ le_bytes 4 (ToUint 32 dataLength).

Definition sample_bytes (bitDepth : Z) (x : f32) : list Z :=
  if bitDepth =? 16 then le_bytes 2 (quantize (2 ^ 15) (2 ^ 15 - 1) x)
  else if bitDepth =? 24 then le_bytes 3 (quantize (2 ^ 23) (2 ^ 23 - 1) x)
  else le_bytes 4 (f32_stored x).

(** The quantisation in the words of the specification: clamp to
    [-1, 1], scale by [neg] below zero and by [pos] otherwise, truncate
    toward zero. *)
Definition quantize_spec (neg pos : Z) (q : Q) : Z :=
  if Qle_bool q (-1) then - neg
  else if Qle_bool 1 q then pos
  else if Qltb q 0 then Qtrunc (q * inject_Z neg)
  else Qtrunc (q * inject_Z pos).

(** The clamped sample, branch for branch as [Math.max(-1, Math.min(1, x))]
    computes it. *)
Definition clampQ (q : Q) : Q :=
  if Qltb q 1 then (if Qltb (-1) q then q else -1) else 1.

(** What reading the header back must give; a numeric field holds its
    value truncated toward zero and reduced modulo the width of the field. *)
Definition header_fields (buf : bytes) (dataLength : Q)
    (channels sampleRate bitDepth : Z) : Prop :=
  slice buf 0 4 = char_codes "RIFF"
  /\ getUint32 buf 4 = ToUint 32 (36 + dataLength)%Q
  /\ slice buf 8 4 = char_codes "WAVE"
  /\ slice buf 12 4 = char_codes "fmt "
  /\ getUint32 buf 16 = 16
  /\ getUint16 buf 22 = ToUint 16 (inject_Z channels)
  /\ getUint32 buf 24 = ToUint 32 (inject_Z sampleRate)
  /\ getUint32 buf 28
     = ToUint 32 (inject_Z sampleRate * (inject_Z channels * (inject_Z bitDepth / 8)))%Q
  /\ getUint16 buf 32 = ToUint 16 (inject_Z channels * (inject_Z bitDepth / 8))%Q
  /\ getUint16 buf 34 = ToUint 16 (inject_Z bitDepth)
  /\ slice buf 36 4 = char_codes "data"
  /\ getUint32 buf 40 = ToUint 32 dataLength.



(** A buffer split into the part already laid out and the rest;
    kept folded while the header stores are replayed. *)
Definition join (pre rest : list Z) : list Z := pre ++ rest.
Arguments join : simpl never.


(** ** Strings and the emptiness test on the text argument

    A JavaScript string is its sequence of UTF-16 code units.  Identifiers
    the code compares or concatenates (voice ids, URLs, storage keys,
    error messages) are ASCII and kept as [string]. *)

Definition jsstring : Type := list N.

Definition js (s : string) : jsstring :=
  map N_of_ascii (list_ascii_of_string s).

(** WhiteSpace and LineTerminator code points, the ones
    [String.prototype.trim] strips. *)
Definition is_whitespace (c : N) : bool :=
  existsb (N.eqb c)
    [0x9; 0xA; 0xB; 0xC; 0xD; 0x20; 0xA0; 0x1680; 0x2028; 0x2029; 0x202F;
     0x205F; 0x3000; 0xFEFF]%N
  || ((0x2000 <=? c)%N && (c <=? 0x200A)%N).

Fixpoint drop_ws (s : jsstring) : jsstring :=
  match s with
  | [] => []
  | c :: r => if is_whitespace c then drop_ws r else s
  end.

Definition trim (s : jsstring) : jsstring :=
  rev (drop_ws (rev (drop_ws s))).

Inductive text_arg : Type :=
| TextUndefined
| TextNull
| TextString (s : jsstring).

(** [!text || text.trim().length === 0] *)
Definition text_is_empty (text : text_arg) : bool :=
  match text with
  | TextUndefined => true
  | TextNull => true
  | TextString s => Nat.eqb (length s) 0 || Nat.eqb (length (trim s)) 0
  end.

(** The texts the specification calls empty: null, undefined, and the
    strings made of white space only (the empty string among them). *)
Definition is_blank (text : text_arg) : bool :=
  match text with
  | TextUndefined => true
  | TextNull => true
  | TextString s => forallb is_whitespace s
  end.

Definition text_string (text : text_arg) : jsstring :=
  match text with
  | TextString s => s
  | _ => []
  end.

(** ** JavaScript values (what [JSON.parse] and [response.json()] yield,
    plus the built-ins reachable through a prototype chain) *)

Inductive jsval : Type :=
| VUndefined
| VNull
| VBool (b : bool)
| VNum (n : jsnum)
| VStr (s : jsstring)
| VArr (elems : list jsval)
| VObj (fields : list (jsstring * jsval))
| VFun (name : string).

(** ** Effects

    Calls that leave the program are recorded, in order, in a trace. *)

Inductive event : Type :=
| EvFetch (url : string)
| EvPiper (method : string) (text : jsstring)
| EvSpeak (text : jsstring)
| EvCreateBuffer (frames : Z).

(** A computation over an object of type [S]: it may update the object,
    extend the trace, and either return or throw.  The object and the
    trace survive a throw (JavaScript does not roll back). *)
Definition M (S A : Type) : Type :=
  S -> list event -> result A * S * list event.

Definition m_ret {S A} (a : A) : M S A := fun s t => (Ok a, s, t).

Definition m_bind {S A B} (m : M S A) (f : A -> M S B) : M S B :=
  fun s t =>
    match m s t with
    | (Ok a, s', t') => f a s' t'
    | (Throw e, s', t') => (Throw e, s', t')
    end.

#[global] Instance M_ret S : MRet (M S) := fun A a => m_ret a.
#[global] Instance M_bind S : MBind (M S) := fun A B f m => m_bind m f.

Definition throw {S A} (e : exn) : M S A := fun s t => (Throw e, s, t).
Definition get {S} : M S S := fun s t => (Ok s, s, t).
Definition put {S} (s : S) : M S unit := fun _ t => (Ok tt, s, t).
Definition emit {S} (ev : event) : M S unit := fun s t => (Ok tt, s, t ++ [ev]).
Definition lift_result {S A} (r : result A) : M S A := fun s t => (r, s, t).

Definition try_catch {S A} (m : M S A) (handler : exn -> M S A) : M S A :=
  fun s t =>
    match m s t with
    | (Ok a, s', t') => (Ok a, s', t')
    | (Throw e, s', t') => handler e s' t'
    end.

(** Run a method of a member object inside its owner. *)
Definition zoom {S T A} (proj : S -> T) (upd : T -> S -> S) (m : M T A) : M S A :=
  fun s t =>
    match m (proj s) t with
    | (r, x, t') => (r, upd x s, t')
    end.

Definition outcome {S A} (x : result A * S * list event) : result A := x.1.1.
Definition final {S A} (x : result A * S * list event) : S := x.1.2.
Definition effects {S A} (x : result A * S * list event) : list event := x.2.

(** ** The platform and the Piper library, as seen by the engines *)

Record Response : Type := mkResponse {
  resp_ok : bool;
  resp_status : Z;
  resp_arrayBuffer : result bytes;   (* outcome of [response.arrayBuffer()] *)
  resp_json : result jsval           (* outcome of [response.json()] *)
}.

Record ModelData : Type := mkModelData {
  md_voiceId : string;
  md_modelData : bytes;
  md_configData : jsval
}.

(** The options object built for [piper.generate]; its [model]/[onnx] and
    [config]/[json] entries all come from the cached model data. *)
Record GenOptions : Type := mkGenOptions {
  go_voice : string;
  go_lengthScale : Q;
  go_modelData : option ModelData
}.

(** The shapes [generate] may return, as the code tells them apart. *)
Inductive gen_value : Type :=
| GVAudio (audio : list f32) (sampleRate : option Z)
| GVFloat32Array (a : list f32)
| GVBuffer (buffer : bytes)
| GVRaw (raw : list f32) (sampleRate : option Z)
| GVUnknown.

(** What [synthesize]/[synthesizeToSpeech] of the library return: an
    object with an [audio] array, or something without one. *)
Inductive synth_value : Type :=
| SVAudio (audio : list f32) (sampleRate : option Z)
| SVNoAudio.

(** The library instance: which methods it has and what a call yields. *)
Record PiperLib : Type := mkPiperLib {
  lib_generate : option (jsstring -> GenOptions -> result gen_value);
  lib_synthesize : option (jsstring -> string -> Q -> result synth_value);
  lib_synthesizeToSpeech : option (jsstring -> string -> result synth_value);
  lib_Settings : option (result unit)  (* outcome of [new Settings(...)] *)
}.

Record Env : Type := mkEnv {
  env_fetch : string -> result Response;
  env_import : result PiperLib;             (* [import(piper-tts-web.js)] *)
  env_newAudioContext : option (result unit);
  env_speechSupported : bool;               (* [isSpeechSupported()] *)
  env_speak : jsstring -> result unit;      (* the utterance ends or errors *)
  env_speechSynthesis : bool                (* [window.speechSynthesis] exists *)
}.

(** ** PiperEngine (piper-engine.js) *)

Record Voice : Type := mkVoice {
  v_id : string;
  v_name : string;
  v_modelPath : string
}.

Record PiperEngine : Type := mkPiperEngine {
  piper : option PiperLib;
  isInitialized : bool;
  voices : list Voice;
  selectedVoice : option string;
  audioContext : bool;
  currentModelData : option ModelData
}.

Definition set_piper (x : option PiperLib) (p : PiperEngine) : PiperEngine :=
  mkPiperEngine x (isInitialized p) (voices p) (selectedVoice p)
                (audioContext p) (currentModelData p).

Definition set_isInitialized (x : bool) (p : PiperEngine) : PiperEngine :=
  mkPiperEngine (piper p) x (voices p) (selectedVoice p)
                (audioContext p) (currentModelData p).

Definition set_voices (x : list Voice) (p : PiperEngine) : PiperEngine :=
  mkPiperEngine (piper p) (isInitialized p) x (selectedVoice p)
                (audioContext p) (currentModelData p).

Definition set_selectedVoice (x : option string) (p : PiperEngine) : PiperEngine :=
  mkPiperEngine (piper p) (isInitialized p) (voices p) x
                (audioContext p) (currentModelData p).

Definition set_audioContext (x : bool) (p : PiperEngine) : PiperEngine :=
  mkPiperEngine (piper p) (isInitialized p) (voices p) (selectedVoice p)
                x (currentModelData p).

Definition set_currentModelData (x : option ModelData) (p : PiperEngine) : PiperEngine :=
  mkPiperEngine (piper p) (isInitialized p) (voices p) (selectedVoice p)
                (audioContext p) x.

Definition modelsPath : string := "/public/tts-web/onnx/".

Definition voiceList : list string :=
  ["en_US-lessac-high"; "en_US-john-medium"; "en_US-amy-medium";
   "en_GB-alan-medium"; "en_GB-northern_english_male-medium";
   "sw_CD-lanfrica-medium"]%string.

Definition upper_ascii (c : ascii) : ascii :=
  let n := nat_of_ascii c in
  if (Nat.leb 97 n && Nat.leb n 122)%bool then ascii_of_nat (n - 32) else c.

(** [voiceId.replace(/_/g, " ").toUpperCase()] on an ASCII id. *)
Fixpoint display_name (s : string) : string :=
  match s with
  | EmptyString => EmptyString
  | String c r =>
      String (if Ascii.eqb c "_" then " "%char else upper_ascii c) (display_name r)
  end.

Definition voice_of_id (voiceId : string) : Voice :=
  mkVoice voiceId (display_name voiceId) (modelsPath ++ voiceId ++ ".onnx").

Definition find_voice (voiceId : string) (vs : list Voice) : option Voice :=
  find (fun v => String.eqb (v_id v) voiceId) vs.

(** What [loadVoiceModel] returns: the voice record, or the bare
    [{ id: voiceId }] of the cached shortcut. *)
Inductive loaded_voice : Type :=
| LoadedVoice (v : Voice)
| LoadedId (id : string).

(** The result object of [PiperEngine.synthesizeToSpeech]. *)
Record PiperResult : Type := mkPiperResult {
  pr_success : bool;
  pr_pcm : list f32;
  pr_audioBuffer : AudioBuffer;
  pr_sampleRate : Z;
  pr_duration : Q;
  pr_text : jsstring;
  pr_voiceId : string
}.

Record SynthOptions : Type := mkSynthOptions {
  opt_voiceId : option string;
  opt_lengthScale : option Q;
  opt_rate : option Q;
  opt_pitch : option Q;
  opt_forcePiper : bool
}.

Definition no_options : SynthOptions := mkSynthOptions None None None None false.

(** [x || d] on an optional string: absent and empty are both falsy. *)
Definition or_string (x : option string) (d : option string) : option string :=
  match x with
  | Some s => if String.eqb s EmptyString then d else Some s
  | None => d
  end.

Definition or_Q (x : option Q) (d : Q) : Q :=
  match x with
  | Some q => if Qeq_bool q 0 then d else q
  | None => d
  end.

Definition or_Z (x : option Z) (d : Z) : Z :=
  match x with
  | Some z => if z =? 0 then d else z
  | None => d
  end.

Definition truthy_string (x : option string) : bool :=
  match x with
  | Some s => negb (String.eqb s EmptyString)
  | None => false
  end.

Definition same_voice (sel : option string) (voiceId : string) : bool :=
  match sel with
  | Some s => String.eqb s voiceId
  | None => false
  end.

(** [new Float32Array(arrayBuffer)]: the length must be a multiple of 4;
    elements are read little-endian. *)
Fixpoint f32_of_bytes (fuel : nat) (b : bytes) : list f32 :=
  match fuel with
  | O => []
  | S k =>
      match b with
      | b0 :: b1 :: b2 :: b3 :: r =>
          (b0 + 2 ^ 8 * b1 + 2 ^ 16 * b2 + 2 ^ 24 * b3) :: f32_of_bytes k r
      | _ => []
      end
  end.

Definition Float32Array_of_buffer (b : bytes) : result (list f32) :=
  if Nat.eqb (length b mod 4) 0 then Ok (f32_of_bytes (length b) b)
  else Throw RangeError.

Section Engines.

Context (env : Env).

Definition Piper_initAudioContext : M PiperEngine bool :=
  match env_newAudioContext env with
  | Some (Ok _) => self ← get; put (set_audioContext true self);; mret true
  | Some (Throw _) => mret false
  | None => mret false
  end.

(** [new PiperEngine()] *)
Definition Piper_new : result bool * PiperEngine * list event :=
  Piper_initAudioContext (mkPiperEngine None false [] None false None) [].

Definition Piper_getAudioContext : M PiperEngine bool :=
  self ← get;
  (if audioContext self then mret true else Piper_initAudioContext);;
  self ← get;
  mret (audioContext self).

Definition Piper_loadAvailableVoices : M PiperEngine (list Voice) :=
  let vs := map voice_of_id voiceList in
  self ← get;
  put (set_voices vs self);;
  match vs with
  | v :: _ => self ← get; put (set_selectedVoice (Some (v_id v)) self)
  | [] => mret tt
  end;;
  mret vs.

Definition cached_for (voiceId : string) (md : option ModelData) : bool :=
  match md with
  | Some d => String.eqb (md_voiceId d) voiceId
  | None => false
  end.

Definition Piper_loadVoiceModel (voiceId : string) : M PiperEngine loaded_voice :=
  self ← get;
  match piper self with
  | None => throw (Error "Piper not initialized. Call initialize() first.")
  | Some _ =>
      if cached_for voiceId (currentModelData self) then
        mret (match find_voice voiceId (voices self) with
              | Some v => LoadedVoice v
              | None => LoadedId voiceId
              end)
      else
        match find_voice voiceId (voices self) with
        | None => throw (Error ("Voice not found: " ++ voiceId))
        | Some voice =>
            let modelPath := v_modelPath voice in
            let configPath := (modelPath ++ ".json")%string in
            (* Promise.all([fetch(modelPath), fetch(configPath)]) *)
            emit (EvFetch modelPath);;
            emit (EvFetch configPath);;
            modelResponse ← lift_result (env_fetch env modelPath);
            configResponse ← lift_result (env_fetch env configPath);
            if negb (resp_ok modelResponse) then
              throw (Error ("Failed to fetch model file: " ++ modelPath ++ " ("
                            ++ pretty (resp_status modelResponse) ++ ")"))
            else if negb (resp_ok configResponse) then
              throw (Error ("Failed to fetch config file: " ++ configPath ++ " ("
                            ++ pretty (resp_status configResponse)
                            ++ ") - JSON config is required!"))
            else
              modelData ← lift_result (resp_arrayBuffer modelResponse);
              configData ← lift_result (resp_json configResponse);
              self ← get;
              put (set_currentModelData
                     (Some (mkModelData voiceId modelData configData))
                     (set_selectedVoice (Some voiceId) self));;
              mret (LoadedVoice voice)
        end
  end.

Definition Piper_initialize : M PiperEngine unit :=
  self ← get;
  if isInitialized self then mret tt
  else
    piperInstance ← lift_result (env_import env);
    self ← get;
    put (set_piper (Some piperInstance) self);;
    Piper_loadAvailableVoices;;
    self ← get;
    match selectedVoice self with
    | Some v =>
        if String.eqb v EmptyString then mret tt
        else try_catch (Piper_loadVoiceModel v;; mret tt) (fun _ => mret tt)
    | None => mret tt
    end;;
    self ← get;
    put (set_isInitialized true self).

(** [new Float32Array(22050)] *)
Definition silence : list f32 := repeat 0 (Z.to_nat 22050).

(** The inner [try] of [synthesizeToSpeech]: pick the first synthesis
    entry point the library offers and normalise what it returns. *)
Definition Piper_callLibrary (text : jsstring) (voiceId : string)
    (lengthScale : Q) : M PiperEngine synth_value :=
  self ← get;
  match piper self with
  | None => throw TypeError
  | Some lib =>
      match lib_generate lib with
      | Some generate =>
          let genOptions := mkGenOptions voiceId lengthScale (currentModelData self) in
          emit (EvPiper "generate" text);;
          genResult ← lift_result (generate text genOptions);
          match genResult with
          | GVAudio audio sr => mret (SVAudio audio (Some (or_Z sr 22050)))
          | GVFloat32Array a => mret (SVAudio a (Some 22050))
          | GVBuffer b =>
              a ← lift_result (Float32Array_of_buffer b);
              mret (SVAudio a (Some 22050))
          | GVRaw raw sr => mret (SVAudio raw (Some (or_Z sr 22050)))
          | GVUnknown => throw (Error "Unknown Piper generate() result format")
          end
      | None =>
          match lib_synthesize lib with
          | Some synthesize =>
              emit (EvPiper "synthesize" text);;
              lift_result (synthesize text voiceId lengthScale)
          | None =>
              match lib_synthesizeToSpeech lib with
              | Some synthesizeToSpeech =>
                  emit (EvPiper "synthesizeToSpeech" text);;
                  lift_result (synthesizeToSpeech text voiceId)
              | None =>
                  match lib_Settings lib with
                  | Some construct =>
                      (* [new Settings(...)], then [this.piper.synthesize],
                         which is not a function on this branch *)
                      lift_result construct;;
                      throw TypeError
                  | None =>
                      throw (Error "Cannot find synthesis method on Piper instance")
                  end
              end
          end
      end
  end.

(** "Every synthesis method attempted throws, or there is none": the
    entry point the code would pick throws.  With neither [generate],
    [synthesize] nor [synthesizeToSpeech] the code has nothing it can
    call. *)
Definition methods_fail (lib : PiperLib) (text : jsstring) (voiceId : string)
    (lengthScale : Q) (md : option ModelData) : Prop :=
  match lib_generate lib with
  | Some generate =>
      exists e, generate text (mkGenOptions voiceId lengthScale md) = Throw e
  | None =>
      match lib_synthesize lib with
      | Some synthesize => exists e, synthesize text voiceId lengthScale = Throw e
      | None =>
          match lib_synthesizeToSpeech lib with
          | Some synthesizeToSpeech =>
              exists e, synthesizeToSpeech text voiceId = Throw e
          | None => True
          end
      end
  end.

Definition Piper_pcmToAudioBuffer (pcmData : list f32) : M PiperEngine AudioBuffer :=
  audioCtx ← Piper_getAudioContext;
  if negb audioCtx then throw TypeError
  else
    emit (EvCreateBuffer (Z.of_nat (length pcmData)));;
    if Nat.eqb (length pcmData) 0 then throw NotSupportedError
    else mret (mkAudioBuffer 22050 (length pcmData) [pcmData]).

Definition Piper_synthesizeToSpeech (text : text_arg) (options : SynthOptions)
  : M PiperEngine PiperResult :=
  self ← get;
  if negb (isInitialized self) then
    throw (Error "Piper not initialized. Call initialize() first.")
  else if text_is_empty text then
    throw (Error "Text cannot be empty")
  else
    let text := text_string text in
    let voiceId := or_string (opt_voiceId options) (selectedVoice self) in
    let lengthScale := or_Q (opt_lengthScale options) 1 in
    match voiceId with
    | None => throw (Error "No voice selected")
    | Some voiceId =>
        if String.eqb voiceId EmptyString then throw (Error "No voice selected")
        else
          (if same_voice (selectedVoice self) voiceId then mret tt
           else Piper_loadVoiceModel voiceId;; mret tt);;
          result ← try_catch (Piper_callLibrary text voiceId lengthScale)
                     (fun methodError => mret (SVAudio silence (Some 22050)));
          match result with
          | SVNoAudio => throw TypeError   (* [result.audio.length] *)
          | SVAudio audio sampleRate =>
              audioBuffer ← Piper_pcmToAudioBuffer audio;
              mret (mkPiperResult true audio audioBuffer (or_Z sampleRate 22050)
                      (inject_Z (Z.of_nat (ab_length audioBuffer)) / 22050)%Q
                      text voiceId)
          end
    end.

Definition Piper_dispose : M PiperEngine unit :=
  self ← get;
  put (set_isInitialized false (set_piper None self)).

(** ** AudioEngine (audio-engine.js): the Web Speech API backend *)

Record AudioEngine : Type := mkAudioEngine {
  currentUtterance : option jsstring
}.

(** The result object handed to the UI by [VoiceForgeEngine]. *)
Record SpeechResult : Type := mkSpeechResult {
  sr_success : bool;
  sr_blob : bytes;
  sr_duration : Q;
  sr_text : jsstring;
  sr_voiceId : string;
  sr_isPiper : bool;
  sr_rawAudio : AudioBuffer
}.

Definition Audio_previewVoiceSample (text : jsstring) : M AudioEngine unit :=
  if negb (env_speechSupported env) then
    throw (Error "Speech synthesis is not available on this device.")
  else
    put (mkAudioEngine (Some text));;
    emit (EvSpeak text);;
    lift_result (env_speak env text).

Definition Audio_synthesizeWithFallback (text : jsstring) : M AudioEngine SpeechResult :=
  try_catch
    (Audio_previewVoiceSample text;;
     mret (Error "System voices cannot be exported to file. Please wait for the Neural Engine to initialize or check your connection."))
    (fun err => mret (Error "Speech synthesis failed and export is not supported for system voices."))
  ≫= throw.

Definition Audio_synthesizeToSpeech (text : text_arg) (options : SynthOptions)
  : M AudioEngine SpeechResult :=
  if negb (env_speechSupported env) then
    throw (Error "Speech synthesis is not available in this browser/device.")
  else if text_is_empty text then
    throw (Error "Text cannot be empty")
  else Audio_synthesizeWithFallback (text_string text).

(** ** VoiceForgeEngine (voiceforge-engine.js) *)

Record VoiceForgeEngine : Type := mkVoiceForgeEngine {
  audioEngine : AudioEngine;
  piperEngine : PiperEngine;
  usePiper : bool;
  piperReady : bool
}.

Definition set_audioEngine (x : AudioEngine) (v : VoiceForgeEngine) : VoiceForgeEngine :=
  mkVoiceForgeEngine x (piperEngine v) (usePiper v) (piperReady v).

Definition set_piperEngine (x : PiperEngine) (v : VoiceForgeEngine) : VoiceForgeEngine :=
  mkVoiceForgeEngine (audioEngine v) x (usePiper v) (piperReady v).

Definition set_usePiper (x : bool) (v : VoiceForgeEngine) : VoiceForgeEngine :=
  mkVoiceForgeEngine (audioEngine v) (piperEngine v) x (piperReady v).

Definition set_piperReady (x : bool) (v : VoiceForgeEngine) : VoiceForgeEngine :=
  mkVoiceForgeEngine (audioEngine v) (piperEngine v) (usePiper v) x.

Definition VoiceForge_initializePiper : M VoiceForgeEngine bool :=
  self ← get;
  if piperReady self then mret true
  else
    try_catch
      (zoom piperEngine set_piperEngine Piper_initialize;;
       self ← get;
       put (set_usePiper true (set_piperReady true self));;
       mret true)
      (fun error =>
         self ← get;
         put (set_piperReady false (set_usePiper false self));;
         mret false).

Definition VoiceForge_synthesizeToSpeech (text : text_arg) (options : SynthOptions)
  : M VoiceForgeEngine SpeechResult :=
  if text_is_empty text then throw (Error "Text cannot be empty")
  else
    self ← get;
    viaPiper ←
      (if piperReady self && usePiper self then
         try_catch
           (result ← zoom piperEngine set_piperEngine
                        (Piper_synthesizeToSpeech text options);
            blob ← lift_result (pcmToWav_default (pr_pcm result));
            mret (Some (mkSpeechResult true blob (pr_duration result)
                          (text_string text) (pr_voiceId result) true
                          (pr_audioBuffer result))))
           (fun piperError =>
              self ← get;
              put (set_usePiper false self);;
              mret None)
       else mret None);
    match viaPiper with
    | Some result => mret result
    | None =>
        zoom audioEngine set_audioEngine (Audio_synthesizeToSpeech text options)
    end.

Definition VoiceForge_setPiperEnabled (enabled : bool) : M VoiceForgeEngine bool :=
  self ← get;
  if enabled && negb (piperReady self) then mret false
  else put (set_usePiper enabled self);; mret true.

(** ** PiperIntegration (piper-integration.js) *)

Record PiperIntegration : Type := mkPiperIntegration {
  engine : VoiceForgeEngine;
  initialized : bool
}.

Definition set_engine (x : VoiceForgeEngine) (p : PiperIntegration) : PiperIntegration :=
  mkPiperIntegration x (initialized p).

Definition set_initialized (x : bool) (p : PiperIntegration) : PiperIntegration :=
  mkPiperIntegration (engine p) x.

Definition Integration_initialize : M PiperIntegration bool :=
  ok ← zoom engine set_engine VoiceForge_initializePiper;
  if negb ok then throw (Error "Piper failed to initialize")
  else
    self ← get;
    put (set_initialized true self);;
    mret true.

(** The wait loop of the [forcePiper] branch only sleeps; in this
    sequential model nothing else runs meanwhile, so it leaves
    [piperReady] as it found it. *)
Definition Integration_generateSpeech (text : text_arg) (options : SynthOptions)
  : M PiperIntegration SpeechResult :=
  self ← get;
  if negb (initialized self) then
    throw (Error "TTS Engine not initialized. Call initialize() first.")
  else if text_is_empty text then
    throw (Error "Text cannot be empty")
  else
    (if opt_forcePiper options then
       if negb (piperReady (engine self)) then
         throw (Error "Piper TTS engine failed to initialize")
       else zoom engine set_engine (VoiceForge_setPiperEnabled true);; mret tt
     else mret tt);;
    zoom engine set_engine (VoiceForge_synthesizeToSpeech text options).

End Engines.

(** ** I18n.t (i18n.js) *)

Definition jsstring_eqb (a b : jsstring) : bool :=
  bool_decide (a = b).

Fixpoint assoc (k : jsstring) (fields : list (jsstring * jsval)) : option jsval :=
  match fields with
  | [] => None
  | (k', v) :: rest => if jsstring_eqb k' k then Some v else assoc k rest
  end.

(** The element of an array whose index prints as [k]. *)
Fixpoint index_property (k : jsstring) (i : nat) (elems : list jsval) : option jsval :=
  match elems with
  | [] => None
  | v :: rest =>
      if jsstring_eqb (js (pretty i)) k then Some v
      else index_property k (S i) rest
  end.

Definition own_property (v : jsval) (k : jsstring) : option jsval :=
  match v with
  | VObj fields => assoc k fields
  | VArr elems =>
      if jsstring_eqb k (js "length")
      then Some (VNum (JFin (inject_Z (Z.of_nat (length elems)))))
      else index_property k 0 elems
  | _ => None
  end.

Definition truthy (v : jsval) : bool :=
  match v with
  | VUndefined => false
  | VNull => false
  | VBool b => b
  | VNum JNaN => false
  | VNum (JFin q) => negb (Qeq_bool q 0)
  | VNum _ => true
  | VStr s => negb (Nat.eqb (length s) 0)
  | VArr _ => true
  | VObj _ => true
  | VFun _ => true
  end.

(** [typeof v === "object"] *)
Definition typeof_object (v : jsval) : bool :=
  match v with
  | VNull => true
  | VArr _ => true
  | VObj _ => true
  | _ => false
  end.

(** [key.split(".")] *)
Fixpoint split_dot (s : jsstring) : list jsstring :=
  match s with
  | [] => [[]]
  | c :: r =>
      if N.eqb c 46 then [] :: split_dot r
      else match split_dot r with
           | p :: ps => (c :: p) :: ps
           | [] => [[c]]
           end
  end.

(** The inverse of splitting: the segments with a dot between them. *)
Fixpoint join_dot (parts : list jsstring) : jsstring :=
  match parts with
  | [] => []
  | [p] => p
  | p :: rest => p ++ 46%N :: join_dot rest
  end.

(** Names every object created by [JSON.parse] inherits from
    [Object.prototype] as functions. *)
Definition Object_prototype_methods : list string :=
  ["constructor"; "hasOwnProperty"; "isPrototypeOf"; "propertyIsEnumerable";
   "toLocaleString"; "toString"; "valueOf"]%string.

(** A description of the prototype chain that knows these methods only. *)
Definition inherited_methods (v : jsval) (k : jsstring) : option jsval :=
  match v with
  | VObj _ | VArr _ =>
      match find (fun name => jsstring_eqb (js name) k) Object_prototype_methods with
      | Some name => Some (VFun name)
      | None => None
      end
  | _ => None
  end.

Section Lookup.

(** What the prototype chain of an object contributes under a name. *)
Variable inherited : jsval -> jsstring -> option jsval.

(** [k in v] is [is_Some (get_property v k)]; then [v[k]] is that value. *)
Definition get_property (v : jsval) (k : jsstring) : option jsval :=
  match own_property v k with
  | Some x => Some x
  | None => inherited v k
  end.

Record I18n : Type := mkI18n {
  currentLanguage : jsstring;
  translations : list (jsstring * jsval)
}.

(** The [for] loop of [t] with its early return, then [value || defaultValue]. *)
Fixpoint t_loop (value : jsval) (parts : list jsstring) (defaultValue : jsval) : jsval :=
  match parts with
  | [] => if truthy value then value else defaultValue
  | part :: rest =>
      if truthy value && typeof_object value then
        match get_property value part with
        | Some v => t_loop v rest defaultValue
        | None => defaultValue
        end
      else defaultValue
  end.

(** [t(key, defaultValue = key)]: an omitted (undefined) second argument
    is replaced by the key. *)
Definition t (self : I18n) (key : jsstring) (defaultValue : jsval) : jsval :=
  let defaultValue :=
    match defaultValue with VUndefined => VStr key | d => d end in
  let parts := split_dot key in
  let value :=
    match get_property (VObj (translations self)) (currentLanguage self) with
    | Some v => v
    | None => VUndefined
    end in
  t_loop value parts defaultValue.

(** The lookup as the specification words it: follow the path one
    segment at a time; a segment can be followed only in an object that
    has it. *)
Fixpoint resolve (value : jsval) (parts : list jsstring) : option jsval :=
  match parts with
  | [] => Some value
  | part :: rest =>
      match value with
      | VObj _ | VArr _ =>
          match get_property value part with
          | Some v => resolve v rest
          | None => None
          end
      | _ => None
      end
  end.

End Lookup.

(** ** The service worker's fetch handler (sw.js) *)

Module SW.

Record Request : Type := mkRequest {
  method : string;
  url : string
}.

Record Response : Type := mkResponse {
  status : Z;
  type : string;
  body : bytes
}.

Definition CACHE_NAME : string := "voiceforge-v1".

(** [CacheStorage]: the named caches in creation order, each a map from
    request URL to response. *)
Definition CacheStorage : Type := list (string * gmap string Response).

(** [caches.match]: the first cache, in creation order, that has an entry. *)
Fixpoint caches_match (caches : CacheStorage) (u : string) : option Response :=
  match caches with
  | [] => None
  | (_, cache) :: rest =>
      match cache !! u with
      | Some r => Some r
      | None => caches_match rest u
      end
  end.

(** [caches.open(name).then(cache => cache.put(request, response))];
    [open] creates the cache when there is none of that name. *)
Fixpoint caches_put (caches : CacheStorage) (name u : string) (r : Response)
  : CacheStorage :=
  match caches with
  | [] => [(name, {[ u := r ]})]
  | (n, cache) :: rest =>
      if String.eqb n name then (n, <[ u := r ]> cache) :: rest
      else (n, cache) :: caches_put rest name u r
  end.

(** What the page gets: the browser's own handling when the handler
    returns without [respondWith], otherwise the value the promise
    resolves to ([None] for [undefined]). *)
Inductive handled : Type :=
| NotIntercepted
| RespondWith (r : option Response).

Record FetchOutcome : Type := mkFetchOutcome {
  reply : handled;
  caches_after : CacheStorage;
  network_requests : list Request
}.

Definition cacheable (r : Response) : bool :=
  (status r =? 200) && negb (String.eqb (type r) "error").

(** The listener.  [network] is [fetch]: [None] when the promise rejects. *)
Definition onFetch (network : Request -> option Response)
    (caches : CacheStorage) (request : Request) : FetchOutcome :=
  if negb (String.eqb (method request) "GET") then
    mkFetchOutcome NotIntercepted caches []
  else
    match caches_match caches (url request) with
    | Some response => mkFetchOutcome (RespondWith (Some response)) caches []
    | None =>
        match network request with
        | Some response =>
            if negb (cacheable response) then
              mkFetchOutcome (RespondWith (Some response)) caches [request]
            else
              mkFetchOutcome (RespondWith (Some response))
                (caches_put caches CACHE_NAME (url request) response) [request]
        | None =>
            mkFetchOutcome (RespondWith (caches_match caches "/index.html"))
              caches [request]
        end
    end.

(** Whether a cache named [CACHE_NAME] holds [r] under [u]. *)
Definition stored (caches : CacheStorage) (u : string) (r : Response) : Prop :=
  exists cache, In (CACHE_NAME, cache) caches /\ cache !! u = Some r.

End SW.

(** ** Local storage helpers (utils.js) and the history list
    (ui-controller.js) *)

Definition HISTORY_STORAGE_KEY : string := "voiceforge-history".

(** [VOICES]: id and display name of each entry. *)
Definition voice_entry (i : string) (name : jsstring) : string * jsstring :=
  (i, name).

Definition VOICES : list (string * jsstring) :=
  [voice_entry "en_US-lessac-high" (js "Lessac");
   voice_entry "en_US-hfc_female-medium" (js "HFC Female");
   voice_entry "en_US-john-medium" (js "John");
   voice_entry "en_US-libritts_r-medium" (js "LibriTTS");
   voice_entry "en_US-sam-medium" (js "Sam");
   voice_entry "en_GB-cori-high" (js "Cori (UK)");
   voice_entry "en_GB-alan-medium" (js "Alan");
   voice_entry "en_GB-alba-medium" (js "Alba");
   voice_entry "en_GB-aru-medium" (js "Aru");
   voice_entry "en_GB-jenny_dioco-medium" (js "Jenny");
   voice_entry "de_DE-mls-medium" (js "Deutsch");
   voice_entry "es_ES-davefx-medium" (js "Espa" ++ [241%N] ++ js "ol");
   voice_entry "fr_FR-gilles-low" (js "Fran" ++ [231%N] ++ js "ais");
   voice_entry "sw_CD-lanfrica-medium" (js "Swahili");
   voice_entry "zh_CN-huayan-medium" ([20013%N; 25991%N] ++ js " (Chinese)")].

Record HistoryItem : Type := mkHistoryItem {
  id : jsstring;
  text : jsstring;
  voiceName : jsstring;
  duration : jsnum;
  timestamp : jsstring
}.

Definition item_value (h : HistoryItem) : jsval :=
  VObj [(js "id", VStr (id h)); (js "text", VStr (text h));
        (js "voiceName", VStr (voiceName h)); (js "duration", VNum (duration h));
        (js "timestamp", VStr (timestamp h))].

Definition history_value (hs : list HistoryItem) : jsval :=
  VArr (map item_value hs).



Record UIController : Type := mkUIController {
  history : list HistoryItem;
  historyHidden : bool      (* the "hidden" class of the history section *)
}.

Section Storage.

(** [JSON.stringify], [JSON.parse] and the storage quota belong to the
    platform. *)
Variable JSON_stringify : jsval -> result jsstring.
Variable JSON_parse : jsstring -> result jsval.
Variable quota : gmap string jsstring -> string -> jsstring -> bool.

Definition localStorage_setItem (ls : gmap string jsstring) (key : string)
    (value : jsstring) : result (gmap string jsstring) :=
  if quota ls key value then Ok (<[ key := value ]> ls)
  else Throw QuotaExceededError.

(** [value ? JSON.parse(value) : defaultValue] inside [try]/[catch]. *)
Definition getFromStorage (ls : gmap string jsstring) (key : string)
    (defaultValue : jsval) : jsval :=
  match ls !! key with
  | Some value =>
      if Nat.eqb (length value) 0 then defaultValue
      else match JSON_parse value with
           | Ok v => v
           | Throw _ => defaultValue
           end
  | None => defaultValue
  end.

Definition saveToStorage (ls : gmap string jsstring) (key : string)
    (value : jsval) : bool * gmap string jsstring :=
  match JSON_stringify value ≫= localStorage_setItem ls key with
  | Ok ls' => (true, ls')
  | Throw _ => (false, ls)
  end.

(** [renderHistory] rebuilds the list and hides the section when the
    history is empty. *)
Definition renderHistory (ui : UIController) : UIController :=
  if Nat.eqb (length (history ui)) 0 then mkUIController (history ui) true
  else ui.


Definition voice_name (voiceId : string) : jsstring :=
  match find (fun v => String.eqb (fst v) voiceId) VOICES with
  | Some v => if Nat.eqb (length (snd v)) 0 then js "Unknown" else snd v
  | None => js "Unknown"
  end.

(** [history.unshift(item); if (history.length > 10) history.pop();] *)
Definition unshift_capped (item : HistoryItem) (hs : list HistoryItem)
  : list HistoryItem :=
  let hs' := item :: hs in
  if Nat.ltb 10 (length hs') then removelast hs' else hs'.

(** [addToHistory]; [now] is [Date.now()] and [clock] is
    [new Date().toLocaleTimeString()]. *)
Definition addToHistory (now : Z) (clock : jsstring) (text : jsstring)
    (voiceId : string) (duration : jsnum)
    (ui : UIController) (ls : gmap string jsstring)
  : UIController * gmap string jsstring :=
  let item := mkHistoryItem (js (pretty now)) (firstn 100 text)
                (voice_name voiceId) duration clock in
  let hs := unshift_capped item (history ui) in
  let ui' := if Nat.ltb 0 (length hs)
             then renderHistory (mkUIController hs false)
             else mkUIController hs (historyHidden ui) in
  (ui', (saveToStorage ls HISTORY_STORAGE_KEY (history_value hs)).2).

(** The click handler of a rendered item's delete button. *)
Definition deleteHistoryItem (itemId : jsstring)
    (ui : UIController) (ls : gmap string jsstring)
  : UIController * gmap string jsstring :=
  let hs := List.filter (fun h => negb (jsstring_eqb (id h) itemId)) (history ui) in
  let ui' := renderHistory (mkUIController hs (historyHidden ui)) in
  (ui', (saveToStorage ls HISTORY_STORAGE_KEY (history_value hs)).2).

(** A value is JSON-serializable when [JSON.stringify] gives a text
    that [JSON.parse] reads back as the same value; it can be stored
    when, besides, [setItem] accepts the text.  (The text of an array
    is never the empty string.) *)
Definition serializable (v : jsval) : Prop :=
  exists s, JSON_stringify v = Ok s /\ s <> [] /\ JSON_parse s = Ok v.


Inductive history_op : Type :=
| OpAdd (now : Z) (clock : jsstring) (text : jsstring) (voiceId : string)
        (duration : jsnum)
| OpDelete (itemId : jsstring).

Definition step (op : history_op) (s : UIController * gmap string jsstring)
  : UIController * gmap string jsstring :=
  match op with
  | OpAdd now clock text voiceId duration =>
      addToHistory now clock text voiceId duration s.1 s.2
  | OpDelete itemId => deleteHistoryItem itemId s.1 s.2
  end.

Definition run (ops : list history_op) (s : UIController * gmap string jsstring)
  : UIController * gmap string jsstring :=
  fold_left (fun s op => step op s) ops s.

End Storage.

(** ** A small JSON writer and reader

    They stand for [JSON.stringify] and [JSON.parse] where an example
    needs a concrete platform.  Covered: null, booleans, integers,
    strings (with the quote and the backslash escaped), arrays and
    objects, written without white space. *)

Fixpoint json_escape (s : jsstring) : jsstring :=
  match s with
  | [] => []
  | c :: r =>
      if (N.eqb c 34 || N.eqb c 92)%bool then 92%N :: c :: json_escape r
      else c :: json_escape r
  end.

Definition json_quote (s : jsstring) : jsstring :=
  34%N :: json_escape s ++ [34%N].

Fixpoint json_write (v : jsval) : jsstring :=
  match v with
  | VNull => js "null"
  | VBool true => js "true"
  | VBool false => js "false"
  | VNum (JFin q) => js (pretty (Qtrunc q))
  | VNum _ => js "null"
  | VStr s => json_quote s
  | VArr elems =>
      js "["
      ++ (fix items (l : list jsval) : jsstring :=
            match l with
            | [] => []
            | [x] => json_write x
            | x :: r => json_write x ++ js "," ++ items r
            end) elems
      ++ js "]"
  | VObj fields =>
      js "{"
      ++ (fix members (l : list (jsstring * jsval)) : jsstring :=
            match l with
            | [] => []
            | [(k, x)] => json_quote k ++ js ":" ++ json_write x
            | (k, x) :: r => json_quote k ++ js ":" ++ json_write x ++ js "," ++ members r
            end) fields
      ++ js "}"
  | VUndefined => js "null"
  | VFun _ => js "null"
  end.

(** The characters after an opening quote, up to the closing one. *)
Fixpoint json_read_string (s : jsstring) (acc : jsstring) : option (jsstring * jsstring) :=
  match s with
  | [] => None
  | c :: r =>
      if N.eqb c 34 then Some (rev acc, r)
      else if N.eqb c 92 then
        match r with
        | d :: r' => json_read_string r' (d :: acc)
        | [] => None
        end
      else json_read_string r (c :: acc)
  end.

Definition is_digit (c : N) : bool := (48 <=? c)%N && (c <=? 57)%N.

Fixpoint json_read_digits (s : jsstring) (acc : Z) : Z * jsstring :=
  match s with
  | c :: r =>
      if is_digit c then json_read_digits r (10 * acc + Z.of_N (c - 48))
      else (acc, s)
  | [] => (acc, [])
  end.

Fixpoint strip_prefix (p s : jsstring) : option jsstring :=
  match p, s with
  | [], _ => Some s
  | a :: p', b :: s' => if N.eqb a b then strip_prefix p' s' else None
  | _ :: _, [] => None
  end.

Definition num_value (z : Z) : jsval := VNum (JFin (inject_Z z)).

Fixpoint json_read (fuel : nat) (s : jsstring) : option (jsval * jsstring) :=
  match fuel with
  | O => None
  | S k =>
      match s with
      | [] => None
      | c :: r =>
          if N.eqb c 34 then
            match json_read_string r [] with
            | Some (x, r') => Some (VStr x, r')
            | None => None
            end
          else if N.eqb c 91 then
            match r with
            | d :: r' => if N.eqb d 93 then Some (VArr [], r')
                         else json_read_items k r []
            | [] => None
            end
          else if N.eqb c 123 then
            match r with
            | d :: r' => if N.eqb d 125 then Some (VObj [], r')
                         else json_read_members k r []
            | [] => None
            end
          else if N.eqb c 45 then
            match r with
            | d :: _ =>
                if is_digit d then
                  let (z, r') := json_read_digits r 0 in Some (num_value (- z), r')
                else None
            | [] => None
            end
          else if is_digit c then
            let (z, r') := json_read_digits s 0 in Some (num_value z, r')
          else
            match strip_prefix (js "null") s with
            | Some r' => Some (VNull, r')
            | None =>
                match strip_prefix (js "true") s with
                | Some r' => Some (VBool true, r')
                | None =>
                    match strip_prefix (js "false") s with
                    | Some r' => Some (VBool false, r')
                    | None => None
                    end
                end
            end
      end
  end
with json_read_items (fuel : nat) (s : jsstring) (acc : list jsval)
  : option (jsval * jsstring) :=
  match fuel with
  | O => None
  | S k =>
      match json_read k s with
      | Some (x, c :: r) =>
          if N.eqb c 44 then json_read_items k r (x :: acc)
          else if N.eqb c 93 then Some (VArr (rev (x :: acc)), r)
          else None
      | _ => None
      end
  end
with json_read_members (fuel : nat) (s : jsstring) (acc : list (jsstring * jsval))
  : option (jsval * jsstring) :=
  match fuel with
  | O => None
  | S k =>
      match s with
      | q :: r =>
          if N.eqb q 34 then
            match json_read_string r [] with
            | Some (key, c :: r') =>
                if N.eqb c 58 then
                  match json_read k r' with
                  | Some (x, d :: r'') =>
                      if N.eqb d 44 then json_read_members k r'' ((key, x) :: acc)
                      else if N.eqb d 125 then Some (VObj (rev ((key, x) :: acc)), r'')
                      else None
                  | _ => None
                  end
                else None
            | _ => None
            end
          else None
      | [] => None
      end
  end.

Definition demo_stringify (v : jsval) : result jsstring := Ok (json_write v).

Definition demo_parse (s : jsstring) : result jsval :=
  match json_read (S (length s)) s with
  | Some (v, []) => Ok v
  | _ => Throw SyntaxError
  end.

(** [0; 1; ...; n - 1] *)
Definition seq_Z (n : nat) : list Z := map Z.of_nat (seq 0 n).

Definition quota_unlimited (ls : gmap string jsstring) (key : string)
    (value : jsstring) : bool := true.

(** ** Example platforms and objects

    Concrete environments and states on which the statements below are
    exercised. *)

Definition response_ok : Response :=
  mkResponse true 200 (Ok [79; 78; 78; 88]) (Ok (VObj [])).

(** A library instance that offers no synthesis method. *)
Definition lib_without_methods : PiperLib := mkPiperLib None None None None.

(** A browser with network, Web Audio and speech synthesis. *)
Definition env_online : Env :=
  mkEnv (fun _ => Ok response_ok) (Ok lib_without_methods) (Some (Ok tt)) true
        (fun _ => Ok tt) true.

(** A browser without the Web Audio API. *)
Definition env_no_audio : Env :=
  mkEnv (fun _ => Ok response_ok) (Ok lib_without_methods) None true
        (fun _ => Ok tt) true.

(** A browser that is offline. *)
Definition env_quiet : Env :=
  mkEnv (fun _ => Throw NetworkError) (Throw NetworkError) None true
        (fun _ => Ok tt) true.

Definition engine_fresh : PiperEngine :=
  mkPiperEngine None false [] None false None.

(** The engine after [initialize] in [env_online]: the first voice is
    selected and its model cached. *)
Definition engine_ready : PiperEngine :=
  mkPiperEngine (Some lib_without_methods) true (map voice_of_id voiceList)
    (Some "en_US-lessac-high"%string) true
    (Some (mkModelData "en_US-lessac-high" [79; 78; 78; 88] (VObj []))).

(** The engine after [initialize] in [env_no_audio]. *)
Definition engine_no_audio : PiperEngine := set_audioContext false engine_ready.

Definition voiceforge_no_audio : VoiceForgeEngine :=
  mkVoiceForgeEngine (mkAudioEngine None) engine_no_audio true true.

(** The engine state a successful [loadVoiceModel] leaves. *)
Definition loaded_state (voiceId : string) (modelData : bytes) (configData : jsval)
    (pe : PiperEngine) : PiperEngine :=
  set_currentModelData (Some (mkModelData voiceId modelData configData))
    (set_selectedVoice (Some voiceId) pe).

Definition translations_demo : list (jsstring * jsval) :=
  [(js "en", VObj [(js "app", VObj [(js "title", VStr (js "VoiceForge AI"));
                                     (js "subtitle", VStr [])])])].

Definition i18n_demo : I18n := mkI18n (js "en") translations_demo.

Definition history_item_demo (n : Z) : HistoryItem :=
  mkHistoryItem (js (pretty n)) (js "hi") (js "Lessac") (JFin 2) (js "10:00:00 AM").

(** A network that serves one style sheet and fails otherwise. *)
Definition network_demo (rq : SW.Request) : option SW.Response :=
  if String.eqb (SW.url rq) "/a.css" then Some (SW.mkResponse 200 "basic" [1; 2])
  else None.


(** ** The remaining methods of the engines

    [PiperEngine.setVoice], [preloadConfiguredVoices] and the two fields
    only [initialize] reads (piper-engine.js); [dispose] and
    [getEngineStatus] of [VoiceForgeEngine] (voiceforge-engine.js); the
    small methods of [PiperIntegration] (piper-integration.js); the
    validation helpers of the integration example (piper-examples). *)

(** [config.preloadVoices] *)
Definition preloadVoices : list string :=
  ["en_US-lessac-high"; "en_GB-cori-high"; "en_US-hfc_female-medium";
   "en_US-john-medium"; "en_US-libritts_r-medium"; "en_US-sam-medium";
   "en_GB-alan-medium"; "en_GB-alba-medium"; "en_GB-aru-medium";
   "en_GB-jenny_dioco-medium"; "de_DE-mls-medium"; "es_ES-davefx-medium";
   "fr_FR-gilles-low"; "sw_CD-lanfrica-medium"; "zh_CN-huayan-medium"]%string.

Definition Piper_setVoice (voiceId : string) : M PiperEngine unit :=
  self ← get;
  match find_voice voiceId (voices self) with
  | None => throw (Error ("Voice not found: " ++ voiceId))
  | Some _ => put (set_selectedVoice (Some voiceId) self)
  end.

(** [getVoices] returns a copy of the list. *)
Definition Piper_getVoices (self : PiperEngine) : list Voice := voices self.

(** A [PiperEngine] with the two fields that guard [initialize] against
    running twice: [isInitializing] and the promise of the run. *)
Record PiperObject : Type := mkPiperObject {
  core : PiperEngine;
  isInitializing : bool;
  initPromise : option (result (option PiperLib))
}.

Definition set_core (x : PiperEngine) (p : PiperObject) : PiperObject :=
  mkPiperObject x (isInitializing p) (initPromise p).

Definition set_isInitializing (x : bool) (p : PiperObject) : PiperObject :=
  mkPiperObject (core p) x (initPromise p).

Definition set_initPromise (x : option (result (option PiperLib))) (p : PiperObject)
  : PiperObject :=
  mkPiperObject (core p) (isInitializing p) x.

(** Two engine states that differ at most in the audio context. *)
Definition same_engine (pe pe' : PiperEngine) : Prop :=
  piper pe' = piper pe /\ isInitialized pe' = isInitialized pe
  /\ voices pe' = voices pe /\ selectedVoice pe' = selectedVoice pe
  /\ currentModelData pe' = currentModelData pe.

(** Events that reach the network or the speech synthesiser. *)
Definition is_fetch (ev : event) : bool :=
  match ev with EvFetch _ => true | _ => false end.

Definition is_speak (ev : event) : bool :=
  match ev with EvSpeak _ => true | _ => false end.

(** What a request made while preloading can be: the model file or the
    config file of a voice of [vs] that is configured for preloading. *)
Definition preload_fetch (vs : list Voice) (ev : event) : Prop :=
  exists v, In v vs /\ In (v_id v) preloadVoices
            /\ (ev = EvFetch (v_modelPath v) \/ ev = EvFetch (v_modelPath v ++ ".json")).

(** The operations a page performs on a [VoiceForgeEngine] and on a
    [PiperIntegration]. *)
Inductive engine_op : Type :=
| EInitializePiper
| ESynthesizeToSpeech (text : text_arg) (options : SynthOptions)
| ESetPiperEnabled (enabled : bool)
| EDispose.

Inductive integration_op : Type :=
| IInitialize
| IGenerateSpeech (text : text_arg) (options : SynthOptions)
| IUsePiper
| IUseWebSpeechAPI
| IDispose.

Record EngineStatus : Type := mkEngineStatus {
  piperInitialized : bool;
  piperActive : bool;
  webSpeechAvailable : bool;
  activeEngine : string
}.

Section EnginesMore.

Context (env : Env).

(** The body of the [for] loop of [preloadConfiguredVoices]: one
    [try]/[catch] per configured voice. *)
Fixpoint preload_loop (vids : list string) : M PiperEngine unit :=
  match vids with
  | [] => mret tt
  | vid :: rest =>
      try_catch
        (self ← get;
         if cached_for vid (currentModelData self) then mret tt
         else if negb (existsb (fun v => String.eqb (v_id v) vid) (voices self))
         then mret tt
         else Piper_loadVoiceModel env vid;; mret tt)
        (fun err => mret tt);;
      preload_loop rest
  end.

Definition Piper_preloadConfiguredVoices : M PiperEngine unit :=
  if Nat.eqb (length preloadVoices) 0 then mret tt
  else preload_loop preloadVoices.

(** [initialize] with its guards.  A call made while [isInitializing]
    is set gets the promise of the earlier run; the flag is cleared when
    the run fails and stays set when it succeeds. *)
Definition Piper_initialize_guarded : M PiperObject (option PiperLib) :=
  self ← get;
  if isInitializing self then
    match initPromise self with
    | Some p => lift_result p
    | None => mret None
    end
  else if isInitialized (core self) then mret (piper (core self))
  else
    put (set_isInitializing true self);;
    try_catch
      (zoom core set_core (Piper_initialize env);;
       self ← get;
       put (set_initPromise (Some (Ok (piper (core self)))) self);;
       mret (piper (core self)))
      (fun error =>
         self ← get;
         put (set_initPromise (Some (Throw error))
                (set_isInitializing false self));;
         throw error).

(** [stopAudio] reads [window.speechSynthesis.speaking] without
    checking that [window.speechSynthesis] exists: where it does not,
    the read throws a [TypeError].  Every utterance of this sequential
    model has ended when the next call starts, so there is none to
    cancel. *)
Definition Audio_stopAudio : M AudioEngine unit :=
  if env_speechSynthesis env then mret tt else throw TypeError.

(** [AudioEngine.dispose]: [stopAudio], then the audio context is
    closed; the utterance last handed to the speech synthesiser stays
    recorded. *)
Definition Audio_dispose : M AudioEngine unit := Audio_stopAudio.

(** [VoiceForgeEngine.dispose]: when the audio engine's [dispose]
    throws, the Piper engine is not disposed. *)
Definition VoiceForge_dispose : M VoiceForgeEngine unit :=
  zoom audioEngine set_audioEngine Audio_dispose;;
  zoom piperEngine set_piperEngine Piper_dispose.

Definition VoiceForge_getEngineStatus (self : VoiceForgeEngine) : EngineStatus :=
  mkEngineStatus (piperReady self) (usePiper self) (env_speechSupported env)
    (if usePiper self && piperReady self then "Piper" else "Web Speech API").

(** [getVoices().piper] *)
Definition VoiceForge_getPiperVoices (self : VoiceForgeEngine) : list Voice :=
  if piperReady self then Piper_getVoices (piperEngine self) else [].

(** One operation on the engine; an exception it throws is the
    caller's to handle, the engine and the trace are as the operation
    left them. *)
Definition engine_step (op : engine_op) (s : VoiceForgeEngine * list event)
  : VoiceForgeEngine * list event :=
  match op with
  | EInitializePiper =>
      let r := VoiceForge_initializePiper env s.1 s.2 in (final r, effects r)
  | ESynthesizeToSpeech text options =>
      let r := VoiceForge_synthesizeToSpeech env text options s.1 s.2 in
      (final r, effects r)
  | ESetPiperEnabled enabled =>
      let r := VoiceForge_setPiperEnabled enabled s.1 s.2 in (final r, effects r)
  | EDispose =>
      let r := VoiceForge_dispose s.1 s.2 in (final r, effects r)
  end.

Definition engine_run (ops : list engine_op) (s : VoiceForgeEngine * list event)
  : VoiceForgeEngine * list event :=
  fold_left (fun s op => engine_step op s) ops s.

Definition Integration_usePiper : M PiperIntegration bool :=
  zoom engine set_engine (VoiceForge_setPiperEnabled true).

Definition Integration_useWebSpeechAPI : M PiperIntegration bool :=
  zoom engine set_engine (VoiceForge_setPiperEnabled false).

Definition Integration_dispose : M PiperIntegration unit :=
  zoom engine set_engine VoiceForge_dispose;;
  self ← get;
  put (set_initialized false self).

Definition integration_step (op : integration_op)
    (s : PiperIntegration * list event) : PiperIntegration * list event :=
  match op with
  | IInitialize =>
      let r := Integration_initialize env s.1 s.2 in (final r, effects r)
  | IGenerateSpeech text options =>
      let r := Integration_generateSpeech env text options s.1 s.2 in
      (final r, effects r)
  | IUsePiper => let r := Integration_usePiper s.1 s.2 in (final r, effects r)
  | IUseWebSpeechAPI =>
      let r := Integration_useWebSpeechAPI s.1 s.2 in (final r, effects r)
  | IDispose => let r := Integration_dispose s.1 s.2 in (final r, effects r)
  end.

Definition integration_run (ops : list integration_op)
    (s : PiperIntegration * list event) : PiperIntegration * list event :=
  fold_left (fun s op => integration_step op s) ops s.

(** *** The validation helpers of the integration example *)

(** [rms < threshold] for the samples of a channel: the root mean square
    is floating-point arithmetic of the platform. *)
Variable rms_below : list f32 -> Q -> bool.

(** [error.message] of an exception the platform raises. *)
Variable native_message : exn -> string.

Definition error_message (e : exn) : string :=
  match e with
  | Error msg => msg
  | _ => native_message e
  end.

(** The [audioBuffer] property of a result object: the object
    [VoiceForgeEngine.synthesizeToSpeech] builds has the properties
    [success], [blob], [duration], [text], [voiceId], [isPiper] and
    [rawAudio], and no [audioBuffer]. *)
Definition result_audioBuffer (result : SpeechResult) : option AudioBuffer := None.

(** [isSilent(result, threshold = 0.001)]; an exception inside counts as
    silence. *)
Definition isSilent (result : option SpeechResult) (threshold : Q) : bool :=
  match result with
  | None => true
  | Some result =>
      match result_audioBuffer result with
      | None => true
      | Some audioBuffer =>
          match ab_channels audioBuffer with
          | channelData :: _ => rms_below channelData threshold
          | [] => true     (* [getChannelData(0)] throws *)
          end
      end
  end.

(** The [while] loop of [generateWithValidation].  [remaining] is
    [maxRetries - attempt], the number of iterations the condition
    [attempt < maxRetries] still allows. *)
Fixpoint validation_loop (remaining : nat) (text : text_arg)
    (options : SynthOptions) (maxRetries attempt : Z)
  : M PiperIntegration SpeechResult :=
  match remaining with
  | O => throw (Error "Failed to generate valid audio (all attempts produced silence)")
  | S remaining' =>
      r ← try_catch
            (result ← Integration_generateSpeech env text options;
             if isSilent (Some result) (1 # 1000) then mret None
             else mret (Some result))
            (fun error =>
               if attempt + 1 >=? maxRetries then
                 throw (Error ("Failed to generate valid audio after "
                               ++ pretty maxRetries ++ " attempts: "
                               ++ error_message error))
               else mret None);
      match r with
      | Some result => mret result
      | None => validation_loop remaining' text options maxRetries (attempt + 1)
      end
  end.

Definition generateWithValidation (text : text_arg) (options : SynthOptions)
    (maxRetries : Z) : M PiperIntegration SpeechResult :=
  validation_loop (Z.to_nat maxRetries) text options maxRetries 0.

End EnginesMore.

(** A library whose [generate] returns two samples, 0.5 and -1.0, and
    reports 16 kHz. *)
Definition lib_talking : PiperLib :=
  mkPiperLib (Some (fun _ _ => Ok (GVAudio [0x3F000000; 0xBF800000] (Some 16000))))
             None None None.

Definition env_talking : Env :=
  mkEnv (fun _ => Ok response_ok) (Ok lib_talking) (Some (Ok tt)) true
        (fun _ => Ok tt) true.

(** A page without the Web Speech API: no [window.speechSynthesis]. *)
Definition env_no_speech : Env :=
  mkEnv (fun _ => Ok response_ok) (Ok lib_without_methods) (Some (Ok tt)) false
        (fun _ => Ok tt) false.

Definition engine_talking : PiperEngine :=
  mkPiperEngine (Some lib_talking) true (map voice_of_id voiceList)
    (Some "en_US-lessac-high"%string) true
    (Some (mkModelData "en_US-lessac-high" [79; 78; 78; 88] (VObj []))).

Definition voiceforge_fresh : VoiceForgeEngine :=
  mkVoiceForgeEngine (mkAudioEngine None) engine_fresh false false.

Definition voiceforge_ready : VoiceForgeEngine :=
  mkVoiceForgeEngine (mkAudioEngine None) engine_ready true true.

Definition voiceforge_talking : VoiceForgeEngine :=
  mkVoiceForgeEngine (mkAudioEngine None) engine_talking true true.

Definition integration_fresh : PiperIntegration :=
  mkPiperIntegration voiceforge_fresh false.

Definition integration_ready : PiperIntegration :=
  mkPiperIntegration voiceforge_ready true.

Definition piper_object_fresh : PiperObject :=
  mkPiperObject engine_fresh false None.

(** ** More of utils.js *)

(** [clamp(value, min, max)]: [Math.max(min, Math.min(max, value))] *)
Definition clamp (value min max : jsnum) : jsnum :=
  Math_max min (Math_min max value).

(** [a <= b] on numbers that are not NaN. *)
Definition js_le (a b : jsnum) : bool := negb (js_lt b a).

(** The same number: [a <= b] and [b <= a]. *)
Definition js_same (a b : jsnum) : bool := js_le a b && js_le b a.

Record Validation : Type := mkValidation {
  valid : bool;
  error : option string
}.

Definition validateTextInput (text : text_arg) : Validation :=
  if text_is_empty text then
    mkValidation false (Some "Please enter some text to convert to speech."%string)
  else if Nat.ltb 2000 (length (text_string text)) then
    mkValidation false (Some "Text is too long. Maximum 2000 characters allowed."%string)
  else mkValidation true None.

(** [removeFromStorage]: [localStorage.removeItem] and [true]. *)
Definition removeFromStorage (ls : gmap string jsstring) (key : string)
  : bool * gmap string jsstring :=
  (true, delete key ls).

(** ** I18n: the stored language (i18n.js) *)

Definition LANGUAGE_KEY : string := "voiceforge-language".

Definition getStoredLanguage (ls : gmap string jsstring) : option jsstring :=
  ls !! LANGUAGE_KEY.

(** [new I18n()]: [getStoredLanguage() || "en"], no translations yet. *)
Definition I18n_new (ls : gmap string jsstring) : I18n :=
  mkI18n (match getStoredLanguage ls with
          | Some l => if Nat.eqb (length l) 0 then js "en" else l
          | None => js "en"
          end) [].

Definition getLanguage (self : I18n) : jsstring := currentLanguage self.

Section Language.

Variable inherited : jsval -> jsstring -> option jsval.
Variable quota : gmap string jsstring -> string -> jsstring -> bool.

(** [this.translations[lang]] *)
Definition translations_of (self : I18n) (lang : jsstring) : jsval :=
  match get_property inherited (VObj (translations self)) lang with
  | Some v => v
  | None => VUndefined
  end.

(** [setLanguage]: the language is switched before it is stored, and
    [setItem] is not guarded. *)
Definition setLanguage (self : I18n) (ls : gmap string jsstring) (lang : jsstring)
  : result bool * I18n * gmap string jsstring :=
  if negb (truthy (translations_of self lang)) then (Ok false, self, ls)
  else
    let self' := mkI18n lang (translations self) in
    match localStorage_setItem quota ls LANGUAGE_KEY lang with
    | Ok ls' => (Ok true, self', ls')
    | Throw e => (Throw e, self', ls)
    end.

End Language.

(** ** The service worker's install and activate handlers (sw.js) *)

Module SWLife.

Import SW.


(** [caches.open(name)]: the cache of that name, created at the end of
    the list when there is none. *)
Fixpoint caches_open (caches : CacheStorage) (name : string) : CacheStorage :=
  match caches with
  | [] => [(name, ∅)]
  | (n, cache) :: rest =>
      if String.eqb n name then (n, cache) :: rest
      else (n, cache) :: caches_open rest name
  end.

Section Install.

(** Which responses [Cache.addAll] accepts is the platform's rule. *)
Variable addAll_accepts : Response -> bool.

Variable network : Request -> option Response.





End Install.

(** The activate listener: every cache with another name is deleted. *)
Definition onActivate (caches : CacheStorage) : CacheStorage :=
  List.filter (fun c => String.eqb (fst c) CACHE_NAME) caches.

(** A sequence of fetch events, each with the network as it answers at
    that moment. *)
Definition fetch_run (events : list ((Request -> option Response) * Request))
    (caches : CacheStorage) : CacheStorage :=
  fold_left (fun c ev => caches_after (onFetch (fst ev) c (snd ev))) events caches.

Definition offline (rq : Request) : option Response := None.

(** *** The fetch listener and its cache write

    The listener answers without waiting for
    [caches.open(CACHE_NAME).then((cache) => { cache.put(...) })] and
    keeps no reference to that promise.  Whether the entry is in the
    cache afterwards is the platform's doing: [Cache.put] rejects a
    request whose scheme is not http or https and a response that varies
    on "*", and the worker may be stopped before the write has run.
    Neither is reported to anyone.  [cache_put] says how the write of
    an event ends, and [caches_after] is the storage once it has ended;
    [SW.onFetch] is the listener on a platform where every write goes
    through. *)
Inductive put_outcome : Type :=
| Stored      (* the entry is in the cache *)
| Rejected    (* the cache was opened, [cache.put] rejected *)
| NotRun.     (* the worker was stopped first *)

Definition onFetch_put (cache_put : Request -> Response -> put_outcome)
    (network : Request -> option Response) (caches : CacheStorage)
    (request : Request) : FetchOutcome :=
  if negb (String.eqb (method request) "GET") then
    mkFetchOutcome NotIntercepted caches []
  else
    match caches_match caches (url request) with
    | Some response => mkFetchOutcome (RespondWith (Some response)) caches []
    | None =>
        match network request with
        | Some response =>
            if negb (cacheable response) then
              mkFetchOutcome (RespondWith (Some response)) caches [request]
            else
              mkFetchOutcome (RespondWith (Some response))
                (match cache_put request response with
                 | Stored => caches_put caches CACHE_NAME (url request) response
                 | Rejected => caches_open caches CACHE_NAME
                 | NotRun => caches
                 end) [request]
        | None =>
            mkFetchOutcome (RespondWith (caches_match caches "/index.html"))
              caches [request]
        end
    end.

(** A sequence of fetch events, each with the platform and the network
    as they are at that moment. *)
Definition fetch_run_put
    (events : list ((Request -> Response -> put_outcome)
                    * (Request -> option Response) * Request))
    (caches : CacheStorage) : CacheStorage :=
  fold_left (fun c ev => caches_after (onFetch_put ev.1.1 ev.1.2 c ev.2)) events caches.

(** A platform on which every write goes through, and one on which
    [cache.put] rejects every request. *)
Definition put_always (rq : Request) (r : Response) : put_outcome := Stored.

Definition put_never (rq : Request) (r : Response) : put_outcome := Rejected.

End SWLife.

(** ** UIController: the voice panel and the generate button
    (ui-controller.js), and how the application feeds them (app.js) *)

Record VoicePanel : Type := mkVoicePanel {
  panel_voiceList : list (string * jsstring);
  selectedVoiceId : string
}.

(** The constructor: [[...VOICES]] and its first id. *)
Definition VoicePanel_new : VoicePanel :=
  mkVoicePanel VOICES
    (match VOICES with
     | v :: _ => if String.eqb (fst v) EmptyString then "en_US-lessac-high"%string
                 else fst v
     | [] => "en_US-lessac-high"%string
     end).

Definition setVoices (voiceEntries : list (string * jsstring)) (ui : VoicePanel)
  : VoicePanel :=
  let shown := if Nat.ltb 0 (length voiceEntries) then voiceEntries else VOICES in
  let selected :=
    if negb (existsb (fun v => String.eqb (fst v) (selectedVoiceId ui)) shown) then
      match shown with
      | v :: _ => fst v
      | [] => selectedVoiceId ui
      end
    else selectedVoiceId ui in
  mkVoicePanel shown selected.

Definition selectVoice (voiceId : string) (ui : VoicePanel) : VoicePanel :=
  mkVoicePanel (panel_voiceList ui) voiceId.

(** [buildVoiceList(voices)] on the [piper] part of what [getVoices]
    returns: the id of each Piper voice with
    [preset?.name || voice.name || voice.id]. *)
Definition buildVoiceList (piperList : list Voice) : list (string * jsstring) :=
  let piperVoices :=
    map (fun voice =>
           let preset := find (fun v => String.eqb (fst v) (v_id voice)) VOICES in
           let name :=
             match preset with
             | Some p =>
                 if negb (Nat.eqb (length (snd p)) 0) then snd p
                 else if negb (String.eqb (v_name voice) EmptyString)
                      then js (v_name voice) else js (v_id voice)
             | None =>
                 if negb (String.eqb (v_name voice) EmptyString)
                 then js (v_name voice) else js (v_id voice)
             end in
           (v_id voice, name)) piperList in
  if Nat.ltb 0 (length piperVoices) then piperVoices else VOICES.

Record GenerateDetail : Type := mkGenerateDetail {
  gd_text : jsstring;
  gd_voiceId : string;
  gd_speed : Q;
  gd_pitch : Q
}.

Inductive click_outcome : Type :=
| Warned (message : string)
| Dispatched (detail : GenerateDetail).

(** [onGenerateClick]; [value] is the content of the text area, [speed]
    and [pitch] the positions of the sliders. *)
Definition onGenerateClick (value : jsstring) (speed pitch : Q) (ui : VoicePanel)
  : click_outcome :=
  let text := trim value in
  if Nat.eqb (length text) 0 then Warned "Please enter some text to generate voice"
  else if Nat.ltb (length text) 2 then Warned "Text must be at least 2 characters"
  else Dispatched (mkGenerateDetail text (selectedVoiceId ui) speed pitch).

(** The options [VoiceForgeApp.generateAudio] passes on. *)
Definition generateAudio_options (detail : GenerateDetail) : SynthOptions :=
  mkSynthOptions (Some (gd_voiceId detail)) None (Some (gd_speed detail))
    (Some (gd_pitch detail)) true.

(** ** AudioEngine.getVoiceIndex (audio-engine.js) *)

(** A [SpeechSynthesisVoice]. *)
Record SpeechVoice : Type := mkSpeechVoice {
  voiceURI : jsstring;
  sv_name : jsstring;
  sv_lang : jsstring
}.

(** The index of the first element that satisfies [p]. *)
Fixpoint find_index {A} (p : A -> bool) (l : list A) : option nat :=
  match l with
  | [] => None
  | x :: rest => if p x then Some 0%nat else option_map S (find_index p rest)
  end.

(** [s.split("-")[0]] *)
Fixpoint before_dash (s : jsstring) : jsstring :=
  match s with
  | [] => []
  | c :: r => if N.eqb c 45 then [] else c :: before_dash r
  end.

Fixpoint startsWith (s p : jsstring) : bool :=
  match p, s with
  | [], _ => true
  | a :: p', b :: s' => N.eqb a b && startsWith s' p'
  | _ :: _, [] => false
  end.

(** [getVoiceIndex(voiceId, totalVoices)]; [systemVoices] is what
    [speechSynthesis.getVoices()] returns. *)
Definition getVoiceIndex (systemVoices : list SpeechVoice) (voiceId : option jsstring)
    (totalVoices : Z) : nat :=
  match voiceId with
  | None => 0%nat
  | Some voiceId =>
      if Nat.eqb (length voiceId) 0 || (totalVoices =? 0) then 0%nat
      else
        match find_index (fun v => jsstring_eqb (voiceURI v) voiceId
                                   || jsstring_eqb (sv_name v) voiceId) systemVoices with
        | Some i => i
        | None =>
            if existsb (N.eqb 45) voiceId then
              let langCode := before_dash voiceId in
              match find_index (fun v => negb (Nat.eqb (length (sv_lang v)) 0)
                                         && startsWith (sv_lang v) langCode)
                      systemVoices with
              | Some i => i
              | None => 0%nat
              end
            else 0%nat
        end
  end.

(** ** More example objects *)

Definition voices_demo : list SpeechVoice :=
  [mkSpeechVoice (js "Google US English") (js "Google US English") (js "en-US");
   mkSpeechVoice (js "Google Deutsch") (js "Google Deutsch") (js "de-DE")].

(** A network on which every request succeeds with one and the same
    response. *)
Definition network_up (rq : SW.Request) : option SW.Response :=
  Some (SW.mkResponse 200 "basic" [60; 33; 62]).

(** Unfolding the engine monad. *)
Ltac run_m :=
  cbv [mbind mret M_bind M_ret m_bind m_ret get put throw emit lift_result
       try_catch zoom] in *.

(** *** Buffers *)

Lemma le_bytes_length n v : length (le_bytes n v) = n.
Proof. revert v. induction n as [|n IH]; intros v; simpl; [reflexivity|]. now rewrite IH. Qed.

Lemma write_at_here (pre bs z : list Z) :
  (length bs <= length z)%nat ->
  write_at (length pre) bs (pre ++ z) = pre ++ bs ++ skipn (length bs) z.
Proof.
  intros H. unfold write_at.
  rewrite firstn_app, firstn_all, Nat.sub_diag, firstn_O, app_nil_r.
  rewrite skipn_app, (skipn_all2 pre) by lia.
  replace (length pre + length bs - length pre)%nat with (length bs) by lia.
  reflexivity.
Qed.

Lemma write_at_prefix (off : nat) (bs pre rest : list Z) :
  (off + length bs <= length pre)%nat ->
  write_at off bs (pre ++ rest) = write_at off bs pre ++ rest.
Proof.
  intros H. unfold write_at.
  rewrite firstn_app, skipn_app.
  replace (off - length pre)%nat with 0%nat by lia.
  replace (off + length bs - length pre)%nat with 0%nat by lia.
  rewrite firstn_O, app_nil_r, skipn_O, <- !app_assoc. reflexivity.
Qed.

Lemma store_here (pre bs z : list Z) :
  (length bs <= length z)%nat ->
  store (pre ++ z) (Z.of_nat (length pre)) bs = Ok (pre ++ bs ++ skipn (length bs) z).
Proof.
  intros H. unfold store.
  rewrite length_app.
  destruct (Z.ltb_spec (Z.of_nat (length pre)) 0); [lia|].
  destruct (Z.ltb_spec (Z.of_nat (length pre + length z))
              (Z.of_nat (length pre) + Z.of_nat (length bs))); [lia|].
  cbn [orb]. rewrite Nat2Z.id. now rewrite write_at_here.
Qed.

Lemma store_prefix (off : Z) (bs pre rest : list Z) :
  0 <= off -> (Z.to_nat off + length bs <= length pre)%nat ->
  store (pre ++ rest) off bs = Ok (write_at (Z.to_nat off) bs pre ++ rest).
Proof.
  intros H0 H. unfold store. rewrite length_app.
  destruct (Z.ltb_spec off 0); [lia|].
  destruct (Z.ltb_spec (Z.of_nat (length pre + length rest))
              (off + Z.of_nat (length bs))); [lia|].
  cbn [orb]. now rewrite write_at_prefix.
Qed.

Lemma store_overflow (view bs : list Z) (off : Z) :
  Z.of_nat (length view) < off + Z.of_nat (length bs) ->
  store view off bs = Throw RangeError.
Proof.
  intros H. unfold store.
  destruct (Z.ltb_spec (Z.of_nat (length view)) (off + Z.of_nat (length bs))); [|lia].
  now rewrite orb_true_r.
Qed.

(** *** The header *)

Lemma store_join (off : Z) (bs pre rest : list Z) :
  (0 <=? off) && Nat.leb (Z.to_nat off + length bs) (length pre) = true ->
  store (join pre rest) off bs = Ok (join (write_at (Z.to_nat off) bs pre) rest).
Proof.
  intros [H1 H2]%andb_true_iff. apply Z.leb_le in H1. apply Nat.leb_le in H2.
  now apply store_prefix.
Qed.

Ltac store_step :=
  match goal with
  | |- context [store (join ?pre ?rest) ?off ?bs] =>
      rewrite (store_join off bs pre rest) by (vm_compute; reflexivity);
      let w := eval vm_compute in (write_at (Z.to_nat off) bs pre) in
      change (write_at (Z.to_nat off) bs pre) with w;
      cbn [mbind result_bind]
  end.

Lemma header_stores (rest b1 b2 b3 b4 b5 b6 b7 b8 b9 : list Z) :
  length b1 = 4%nat -> length b2 = 4%nat -> length b3 = 2%nat ->
  length b4 = 2%nat -> length b5 = 4%nat -> length b6 = 4%nat ->
  length b7 = 2%nat -> length b8 = 2%nat -> length b9 = 4%nat ->
  (view ← writeCodes (repeat 0 44 ++ rest) 0 [82; 73; 70; 70];
   view ← store view 4 b1;
   view ← writeCodes view 8 [87; 65; 86; 69];
   view ← writeCodes view 12 [102; 109; 116; 32];
   view ← store view 16 b2;
   view ← store view 20 b3;
   view ← store view 22 b4;
   view ← store view 24 b5;
   view ← store view 28 b6;
   view ← store view 32 b7;
   view ← store view 34 b8;
   view ← writeCodes view 36 [100; 97; 116; 97];
   store view 40 b9)
  = Ok ([82; 73; 70; 70] ++ b1 ++ [87; 65; 86; 69] ++ [102; 109; 116; 32]
        ++ b2 ++ b3 ++ b4 ++ b5 ++ b6 ++ b7 ++ b8 ++ [100; 97; 116; 97] ++ b9
        ++ rest).
Proof.
  intros H1 H2 H3 H4 H5 H6 H7 H8 H9.
  repeat match goal with
         | H : length ?b = _ |- _ =>
             let x := fresh "x" in
             destruct b as [|x b]; simpl in H; try discriminate H;
             try apply Nat.succ_inj in H
         end.
  change (repeat 0 44 ++ rest) with (join (repeat 0 44) rest).
  unfold writeCodes, setUint8.
  repeat store_step.
  reflexivity.
Qed.

Lemma riff_header_length dl f ch sr ba bd :
  length (riff_header dl f ch sr ba bd) = 44%nat.
Proof. unfold riff_header. rewrite !length_app, !le_bytes_length. reflexivity. Qed.

Lemma writeHeader_ok rest dl f ch sr ba bd :
  writeHeader (repeat 0 44 ++ rest) dl f ch sr ba bd
  = Ok (riff_header dl f ch sr ba bd ++ rest).
Proof.
  unfold writeHeader, writeString, setUint32, setUint16, riff_header.
  change (char_codes "RIFF") with [82; 73; 70; 70].
  change (char_codes "WAVE") with [87; 65; 86; 69].
  change (char_codes "fmt ") with [102; 109; 116; 32].
  change (char_codes "data") with [100; 97; 116; 97].
  rewrite header_stores by apply le_bytes_length.
  now rewrite <- !app_assoc.
Qed.

(** *** Byte identities *)

Lemma land255_mod v : Z.land v 255 = v mod 256.
Proof. change 255 with (Z.ones 8). now rewrite Z.land_ones by lia. Qed.

Lemma wrap_signed_mod w z : 0 < w -> wrap_signed w z mod 2 ^ w = z mod 2 ^ w.
Proof.
  intros Hw. unfold wrap_signed.
  assert (0 < 2 ^ w) by (apply Z.pow_pos_nonneg; lia).
  destruct (_ <? _).
  - now rewrite Z.mod_mod by lia.
  - replace (z mod 2 ^ w - 2 ^ w) with (z mod 2 ^ w + (-1) * 2 ^ w) by lia.
    rewrite Z.mod_add by lia. now rewrite Z.mod_mod by lia.
Qed.

Lemma le_bytes_mod n v : le_bytes n (v mod 2 ^ (8 * Z.of_nat n)) = le_bytes n v.
Proof.
  revert v. induction n as [|n IH]; intros v; [reflexivity|].
  cbn [le_bytes]. rewrite !land255_mod.
  replace (8 * Z.of_nat (S n)) with (8 + 8 * Z.of_nat n) by lia.
  rewrite Z.pow_add_r by lia. change (2 ^ 8) with 256.
  assert (0 < 2 ^ (8 * Z.of_nat n)) by (apply Z.pow_pos_nonneg; lia).
  f_equal.
  - rewrite Z.rem_mul_r by lia.
    rewrite (Z.mul_comm 256), Z.mod_add by lia. now rewrite Z.mod_mod by lia.
  - rewrite !Z.shiftr_div_pow2 by lia. change (2 ^ 8) with 256.
    rewrite <- (IH (v / 256)). f_equal.
    rewrite Z.rem_mul_r by lia.
    rewrite (Z.mul_comm 256), Z.div_add by lia.
    rewrite Z.div_small by (apply Z.mod_pos_bound; lia). reflexivity.
Qed.

Lemma le_bytes_wrap_signed n v :
  (0 < n)%nat -> le_bytes n (wrap_signed (8 * Z.of_nat n) v) = le_bytes n v.
Proof.
  intros Hn. rewrite <- (le_bytes_mod n (wrap_signed _ _)).
  rewrite wrap_signed_mod by lia. apply le_bytes_mod.
Qed.

(** *** The sample loops *)

Lemma store_at_end (pre bs z : list Z) (index : Z) :
  index = Z.of_nat (length pre) -> (length bs <= length z)%nat ->
  store (pre ++ z) index bs = Ok ((pre ++ bs) ++ skipn (length bs) z).
Proof. intros -> H. rewrite store_here by exact H. now rewrite <- app_assoc. Qed.

Lemma sample_bytes_16 x :
  le_bytes 2 (wrap_signed 16 (quantize 0x8000 0x7fff x)) = sample_bytes 16 x.
Proof. exact (le_bytes_wrap_signed 2 _ ltac:(lia)). Qed.

Lemma sample_bytes_32 x : le_bytes 4 (f32_stored x) = sample_bytes 32 x.
Proof. reflexivity. Qed.

Lemma int8_byte v : le_bytes 1 (wrap_signed 8 (Z.land v 255)) = [Z.land v 255].
Proof.
  rewrite (le_bytes_wrap_signed 1 _ ltac:(lia)). cbn [le_bytes].
  rewrite !land255_mod. now rewrite Z.mod_mod by lia.
Qed.

Lemma sample_bytes_24 x :
  let val := quantize 0x800000 0x7fffff x in
  [Z.land val 255] ++ [Z.land (Z.shiftr val 8) 255]
  ++ [Z.land (Z.shiftr val 16) 255] = sample_bytes 24 x.
Proof.
  intros val. unfold sample_bytes. cbn [Z.eqb Pos.eqb le_bytes app].
  change (quantize (2 ^ 23) (2 ^ 23 - 1) x) with val.
  rewrite Z.shiftr_shiftr by lia. reflexivity.
Qed.

Lemma sample_bytes_length bd x :
  valid_bitDepth bd = true -> Z.of_nat (length (sample_bytes bd x)) = bd / 8.
Proof.
  unfold valid_bitDepth, sample_bytes. cbn [existsb]. rewrite !orb_true_iff, !Z.eqb_eq.
  intros [->|[->|[->|?]]]; try discriminate; cbn [Z.eqb Pos.eqb];
    rewrite le_bytes_length; reflexivity.
Qed.

Lemma sample_bytes_len16 x : length (sample_bytes 16 x) = 2%nat.
Proof. apply le_bytes_length. Qed.

Lemma sample_bytes_len24 x : length (sample_bytes 24 x) = 3%nat.
Proof. apply le_bytes_length. Qed.

Lemma sample_bytes_len32 x : length (sample_bytes 32 x) = 4%nat.
Proof. apply le_bytes_length. Qed.

Ltac loop_side :=
  rewrite ?length_app, ?length_skipn, ?sample_bytes_len16, ?sample_bytes_len24,
    ?sample_bytes_len32; cbn [length]; lia.

Lemma pcm16_loop_ok data : forall pre z index,
  index = Z.of_nat (length pre) -> (2 * length data <= length z)%nat ->
  pcm16_loop (pre ++ z) index data
  = Ok (pre ++ concat (map (sample_bytes 16) data) ++ skipn (2 * length data) z).
Proof.
  induction data as [|x data IH]; intros pre z index Hi Hz.
  - cbn. now rewrite skipn_O.
  - cbn [pcm16_loop length] in *. unfold setInt16.
    rewrite sample_bytes_16.
    rewrite (store_at_end pre _ z index Hi) by loop_side.
    cbn [mbind result_bind].
    rewrite IH by loop_side.
    rewrite skipn_skipn, <- !app_assoc. cbn [map concat].
    rewrite <- app_assoc, sample_bytes_len16.
    now replace (2 * length data + 2)%nat with (2 * S (length data))%nat by lia.
Qed.

Lemma float32_loop_ok data : forall pre z index,
  index = Z.of_nat (length pre) -> (4 * length data <= length z)%nat ->
  float32_loop (pre ++ z) index data
  = Ok (pre ++ concat (map (sample_bytes 32) data) ++ skipn (4 * length data) z).
Proof.
  induction data as [|x data IH]; intros pre z index Hi Hz.
  - cbn. now rewrite skipn_O.
  - cbn [float32_loop length] in *. unfold setFloat32.
    rewrite sample_bytes_32.
    rewrite (store_at_end pre _ z index Hi) by loop_side.
    cbn [mbind result_bind].
    rewrite IH by loop_side.
    rewrite skipn_skipn, <- !app_assoc. cbn [map concat].
    rewrite <- app_assoc, sample_bytes_len32.
    now replace (4 * length data + 4)%nat with (4 * S (length data))%nat by lia.
Qed.

Lemma pcm24_loop_ok data : forall pre z index,
  index = Z.of_nat (length pre) -> (3 * length data <= length z)%nat ->
  pcm24_loop (pre ++ z) index data
  = Ok (pre ++ concat (map (sample_bytes 24) data) ++ skipn (3 * length data) z).
Proof.
  induction data as [|x data IH]; intros pre z index Hi Hz.
  - cbn. now rewrite skipn_O.
  - cbn [pcm24_loop length] in *. unfold setInt8.
    rewrite !int8_byte.
    rewrite (store_at_end pre _ z index Hi) by loop_side.
    cbn [mbind result_bind].
    rewrite (store_at_end _ _ _ (index + 1)) by loop_side.
    cbn [mbind result_bind].
    rewrite (store_at_end _ _ _ (index + 2)) by loop_side.
    cbn [mbind result_bind].
    rewrite IH by loop_side.
    rewrite !skipn_skipn, <- !app_assoc. cbn [map concat].
    rewrite <- (sample_bytes_24 x). cbn zeta.
    rewrite <- !app_assoc. cbn [length].
    now replace (3 * length data + 1 + 1 + 1)%nat with (3 * S (length data))%nat by lia.
Qed.

Lemma write_at_length off bs (buf : list Z) :
  (off + length bs <= length buf)%nat -> length (write_at off bs buf) = length buf.
Proof.
  intros H. unfold write_at. rewrite !length_app, length_firstn, length_skipn. lia.
Qed.

Lemma pcm16_loop_overflow data : forall view index,
  0 <= index <= Z.of_nat (length view) ->
  Z.of_nat (length view) < index + 2 * Z.of_nat (length data) ->
  pcm16_loop view index data = Throw RangeError.
Proof.
  induction data as [|x data IH]; intros view index H0 H.
  - cbn in H. lia.
  - cbn [pcm16_loop]. unfold setInt16, store at 1.
    rewrite le_bytes_length.
    destruct (Z.ltb_spec index 0); [lia|].
    destruct (Z.ltb_spec (Z.of_nat (length view)) (index + Z.of_nat 2)); cbn [orb];
      [reflexivity|].
    cbn [mbind result_bind].
    assert (length (write_at (Z.to_nat index)
                      (le_bytes 2 (wrap_signed 16 (quantize 32768 32767 x))) view)
            = length view) as Hlen
      by (apply write_at_length; rewrite le_bytes_length; lia).
    apply IH; rewrite Hlen; cbn [length] in H; lia.
Qed.

(** *** Sizes *)

Lemma Qtrunc_size (n b : Z) :
  Qtrunc (44 + inject_Z n * (inject_Z b / 8))%Q = Z.quot (352 + n * b) 8.
Proof.
  cbv [Qtrunc Qplus Qmult Qdiv Qinv inject_Z Qnum Qden Pos.mul].
  f_equal. lia.
Qed.

Lemma Qtrunc_size_36 (n b : Z) :
  Qtrunc (36 + inject_Z n * (inject_Z b / 8))%Q = Z.quot (288 + n * b) 8.
Proof.
  cbv [Qtrunc Qplus Qmult Qdiv Qinv inject_Z Qnum Qden Pos.mul].
  f_equal. lia.
Qed.

Lemma Qtrunc_inject_Z z : Qtrunc (inject_Z z) = z.
Proof. unfold Qtrunc, inject_Z. cbn [Qnum Qden]. apply Z.quot_1_r. Qed.

Lemma ToUint_inject_Z w z : ToUint w (inject_Z z) = z mod 2 ^ w.
Proof. unfold ToUint, wrap_unsigned. now rewrite Qtrunc_inject_Z. Qed.

(** A field holds an integer that fits its width as it is. *)
Lemma ToUint_exact w z : 0 <= z < 2 ^ w -> ToUint w (inject_Z z) = z.
Proof. intros H. rewrite ToUint_inject_Z. now apply Z.mod_small. Qed.

Lemma ArrayBuffer_new_ok (len : Q) :
  0 <= Qtrunc len <= 2 ^ 53 - 1 ->
  ArrayBuffer_new len = Ok (repeat 0 (Z.to_nat (Qtrunc len))).
Proof.
  intros H. unfold ArrayBuffer_new.
  destruct (Z.ltb_spec (Qtrunc len) 0); [lia|].
  destruct (Z.ltb_spec (2 ^ 53 - 1) (Qtrunc len)); [lia|]. reflexivity.
Qed.

Lemma repeat_split {A} (x : A) (a n : nat) :
  (a <= n)%nat -> repeat x n = repeat x a ++ repeat x (n - a).
Proof. intros H. rewrite <- repeat_app. f_equal. lia. Qed.

Lemma skipn_repeat {A} (x : A) (k n : nat) :
  skipn k (repeat x n) = repeat x (n - k).
Proof.
  revert n. induction k as [|k IH]; intros n.
  - now rewrite Nat.sub_0_r.
  - destruct n as [|n]; [reflexivity|]. cbn [repeat skipn]. apply IH.
Qed.

(** *** What the encoders return *)

Lemma pcmToWav_layout (pcmData : list f32) (sampleRate channels bitDepth : Z) :
  let n := Z.of_nat (length pcmData) in
  let bytesPerSample := (inject_Z bitDepth / 8)%Q in
  let dataLength := (inject_Z n * bytesPerSample)%Q in
  pcmData = [] \/ 16 <= bitDepth ->
  Qtrunc (44 + dataLength)%Q <= 2 ^ 53 - 1 ->
  pcmToWav pcmData sampleRate channels bitDepth
  = Ok (riff_header dataLength 1 channels sampleRate
          (inject_Z channels * bytesPerSample)%Q bitDepth
        ++ concat (map (sample_bytes 16) pcmData)
        ++ repeat 0 (Z.to_nat (Qtrunc (44 + dataLength)%Q - 44 - 2 * n))).
Proof.
  intros n bps dl Hb Halloc. unfold pcmToWav. fold n bps dl.
  assert (44 + 2 * n <= Qtrunc (44 + dl)%Q) as Hsize.
  { unfold dl, bps. rewrite Qtrunc_size.
    destruct Hb as [->|Hb].
    - cbn. reflexivity.
    - apply Z.quot_le_lower_bound; nia. }
  rewrite ArrayBuffer_new_ok by lia. cbn [mbind result_bind].
  rewrite (repeat_split 0 44) by lia.
  rewrite writeHeader_ok. cbn [mbind result_bind].
  rewrite pcm16_loop_ok
    by (rewrite ?riff_header_length, ?repeat_length; fold n; lia).
  do 3 f_equal. rewrite skipn_repeat. f_equal. lia.
Qed.

Lemma bufferToWave_layout (audioBuffer : AudioBuffer) (bitDepth : Z) :
  let bd := if valid_bitDepth bitDepth then bitDepth else 16 in
  let data := interleave audioBuffer in
  let n := Z.of_nat (length data) in
  let bytesPerSample := (inject_Z bd / 8)%Q in
  let dataLength := (inject_Z n * bytesPerSample)%Q in
  44 + n * (bd / 8) <= 2 ^ 53 - 1 ->
  bufferToWave audioBuffer bitDepth
  = Ok (riff_header dataLength (if bitDepth =? 32 then 3 else 1)
          (numberOfChannels audioBuffer) (ab_sampleRate audioBuffer)
          (inject_Z (numberOfChannels audioBuffer) * bytesPerSample)%Q bd
        ++ concat (map (sample_bytes bd) data)).
Proof.
  intros bd data n bps dl Halloc. unfold bufferToWave. fold bd data n bps dl.
  assert (bd = 16 \/ bd = 24 \/ bd = 32) as Hbd.
  { unfold bd, valid_bitDepth. cbn [existsb].
    destruct (Z.eqb_spec bitDepth 16); [auto|].
    destruct (Z.eqb_spec bitDepth 24); [auto|].
    destruct (Z.eqb_spec bitDepth 32); auto. }
  assert (Qtrunc (44 + dl)%Q = 44 + n * (bd / 8)) as Hsize.
  { unfold dl, bps. rewrite Qtrunc_size.
    destruct Hbd as [-> | [-> | ->]].
    - change (16 / 8) with 2. replace (352 + n * 16) with ((44 + n * 2) * 8) by lia.
      apply Z.quot_mul; lia.
    - change (24 / 8) with 3. replace (352 + n * 24) with ((44 + n * 3) * 8) by lia.
      apply Z.quot_mul; lia.
    - change (32 / 8) with 4. replace (352 + n * 32) with ((44 + n * 4) * 8) by lia.
      apply Z.quot_mul; lia. }
  assert (0 <= n) as Hn by (unfold n; lia).
  assert (Z.to_nat n = length data) as Hlen by (unfold n; lia).
  assert (16 / 8 = 2 /\ 24 / 8 = 3 /\ 32 / 8 = 4) as (D16 & D24 & D32)
    by (repeat split; reflexivity).
  assert (0 <= n * (bd / 8))
    by (destruct Hbd as [-> | [-> | ->]]; rewrite ?D16, ?D24, ?D32; lia).
  rewrite ArrayBuffer_new_ok by lia. cbn [mbind result_bind].
  rewrite Hsize, (repeat_split 0 44) by lia.
  rewrite writeHeader_ok. cbn [mbind result_bind].
  replace (Z.to_nat (44 + n * (bd / 8)) - 44)%nat with (Z.to_nat (n * (bd / 8))) by lia.
  destruct Hbd as [Hb|[Hb|Hb]]; rewrite Hb in *; cbn [Z.eqb Pos.eqb];
    rewrite ?D16, ?D24, ?D32.
  - rewrite pcm16_loop_ok
      by (rewrite ?riff_header_length, ?repeat_length; lia).
    rewrite skipn_all2 by (rewrite repeat_length; lia).
    now rewrite app_nil_r.
  - rewrite pcm24_loop_ok
      by (rewrite ?riff_header_length, ?repeat_length; lia).
    rewrite skipn_all2 by (rewrite repeat_length; lia).
    now rewrite app_nil_r.
  - rewrite float32_loop_ok
      by (rewrite ?riff_header_length, ?repeat_length; lia).
    rewrite skipn_all2 by (rewrite repeat_length; lia).
    now rewrite app_nil_r.
Qed.

(** *** Reading the header back *)

Lemma le16_value v :
  0 <= v < 2 ^ 16 -> Z.land v 255 + 2 ^ 8 * Z.land (Z.shiftr v 8) 255 = v.
Proof.
  intros H. rewrite !land255_mod, !Z.shiftr_div_pow2 by lia.
  change (2 ^ 8) with 256. change (2 ^ 16) with 65536 in H.
  Z.div_mod_to_equations. lia.
Qed.

Lemma le32_value v :
  0 <= v < 2 ^ 32 ->
  Z.land v 255 + 2 ^ 8 * Z.land (Z.shiftr v 8) 255
  + 2 ^ 16 * Z.land (Z.shiftr (Z.shiftr v 8) 8) 255
  + 2 ^ 24 * Z.land (Z.shiftr (Z.shiftr (Z.shiftr v 8) 8) 8) 255 = v.
Proof.
  intros H. rewrite !land255_mod, !Z.shiftr_div_pow2 by lia.
  change (2 ^ 8) with 256. change (2 ^ 16) with 65536.
  change (2 ^ 24) with 16777216. change (2 ^ 32) with 4294967296 in H.
  Z.div_mod_to_equations. lia.
Qed.

Lemma ToUint_range w q : 0 <= w -> 0 <= ToUint w q < 2 ^ w.
Proof.
  intros Hw. unfold ToUint, wrap_unsigned. apply Z.mod_pos_bound.
  apply Z.pow_pos_nonneg; lia.
Qed.

Lemma riff_header_fields dl f ch sr bd rest :
  header_fields
    (riff_header dl f ch sr (inject_Z ch * (inject_Z bd / 8))%Q bd ++ rest)
    dl ch sr bd.
Proof.
  unfold header_fields, riff_header.
  change (char_codes "RIFF") with [82; 73; 70; 70].
  change (char_codes "WAVE") with [87; 65; 86; 69].
  change (char_codes "fmt ") with [102; 109; 116; 32].
  change (char_codes "data") with [100; 97; 116; 97].
  change (ToUint 32 16%Q) with 16.
  pose proof (ToUint_range 32 (36 + dl)%Q ltac:(lia)).
  pose proof (ToUint_range 16 (inject_Z ch) ltac:(lia)).
  pose proof (ToUint_range 32 (inject_Z sr) ltac:(lia)).
  pose proof (ToUint_range 32
                (inject_Z sr * (inject_Z ch * (inject_Z bd / 8)))%Q ltac:(lia)).
  pose proof (ToUint_range 16 (inject_Z ch * (inject_Z bd / 8))%Q ltac:(lia)).
  pose proof (ToUint_range 16 (inject_Z bd) ltac:(lia)).
  pose proof (ToUint_range 32 dl ltac:(lia)).
  cbn [le_bytes app slice firstn skipn getUint32 getUint16 byte_at nth Nat.add].
  repeat split; try reflexivity; try (apply le32_value; assumption);
    try (apply le16_value; assumption).
Qed.

Lemma interleave_length ab :
  length (interleave ab) = (ab_length ab * length (ab_channels ab))%nat.
Proof.
  unfold interleave. generalize 0%nat as start.
  induction (ab_length ab) as [|k IH]; intros start; [reflexivity|].
  cbn [seq flat_map]. rewrite length_app, length_map, IH. lia.
Qed.

Lemma concat_sample_bytes_length (bd : Z) (l : list f32) :
  valid_bitDepth bd = true ->
  Z.of_nat (length (concat (map (sample_bytes bd) l))) = Z.of_nat (length l) * (bd / 8).
Proof.
  intros Hv. induction l as [|x l IH]; [reflexivity|].
  cbn [map concat]. rewrite length_app, Nat2Z.inj_add, IH, sample_bytes_length by exact Hv.
  cbn [length]. lia.
Qed.

(** *** The calls that return a buffer *)

Lemma store_ok_length (view bs v : list Z) (off : Z) :
  store view off bs = Ok v ->
  length v = length view
  /\ 0 <= off /\ off + Z.of_nat (length bs) <= Z.of_nat (length view).
Proof.
  unfold store.
  destruct (Z.ltb_spec off 0); cbn [orb]; [discriminate|].
  destruct (Z.ltb_spec (Z.of_nat (length view)) (off + Z.of_nat (length bs)));
    [discriminate|].
  intros [= <-]. split; [apply write_at_length; lia | lia].
Qed.

Lemma writeCodes_ok_length (cs : list Z) : forall (view v : list Z) (off : Z),
  writeCodes view off cs = Ok v -> length v = length view.
Proof.
  induction cs as [|c cs IH]; intros view v off; cbn [writeCodes].
  - now intros [= <-].
  - unfold setUint8. destruct (store view off _) as [view'|] eqn:E;
      cbn [mbind result_bind]; [|discriminate].
    intros H. apply IH in H. apply store_ok_length in E. lia.
Qed.

Ltac bind_inv H :=
  match type of H with
  | mbind _ ?m = Ok _ =>
      let E := fresh "E" in
      destruct m eqn:E; cbn [mbind result_bind] in H; [|discriminate H]
  end.

(** The header does not fit into fewer than 44 bytes. *)
Lemma writeHeader_ok_length (buffer v : list Z) dl f ch sr ba bd :
  writeHeader buffer dl f ch sr ba bd = Ok v -> (44 <= length buffer)%nat.
Proof.
  unfold writeHeader, writeString. intros H.
  repeat bind_inv H.
  unfold setUint32, setUint16 in *.
  repeat match goal with
         | E : writeCodes _ _ _ = Ok _ |- _ => apply writeCodes_ok_length in E
         | E : store _ _ _ = Ok _ |- _ =>
             apply store_ok_length in E; rewrite ?le_bytes_length in E
         end.
  lia.
Qed.

(** [pcmToWav] returns a buffer only if the allocation was within the
    language's limit and the two bytes per sample it writes fit, that is
    for an empty sample array or a bit depth of at least 16. *)
Lemma pcmToWav_returns (pcmData : list f32) (sampleRate channels bitDepth : Z)
    (buf : bytes) :
  pcmToWav pcmData sampleRate channels bitDepth = Ok buf ->
  (pcmData = [] \/ 16 <= bitDepth)
  /\ Qtrunc (44 + inject_Z (Z.of_nat (length pcmData)) * (inject_Z bitDepth / 8))%Q
     <= 2 ^ 53 - 1.
Proof.
  unfold pcmToWav. set (n := Z.of_nat (length pcmData)).
  set (dl := (inject_Z n * (inject_Z bitDepth / 8))%Q).
  set (size := Qtrunc (44 + dl)%Q).
  intros H. unfold ArrayBuffer_new in H. fold size in H.
  destruct (Z.ltb_spec size 0) as [|Hpos]; cbn [orb] in H; [discriminate|].
  destruct (Z.ltb_spec (2 ^ 53 - 1) size) as [|Hmax]; cbn [mbind result_bind] in H;
    [discriminate|].
  split; [|exact Hmax].
  destruct pcmData as [|x pcm]; [now left|right].
  destruct (writeHeader _ _ _ _ _ _ _) as [view|] eqn:Hh in H;
    cbn [mbind result_bind] in H; [|discriminate].
  pose proof (writeHeader_ok_length _ _ _ _ _ _ _ _ Hh) as H44.
  rewrite repeat_length in H44.
  rewrite (repeat_split 0 44) in Hh by lia. rewrite writeHeader_ok in Hh.
  match type of Hh with Ok ?t = Ok _ => assert (view = t) as -> by congruence end.
  clear Hh.
  destruct (Z.le_gt_cases (44 + 2 * n) size) as [Hfit|Hshort].
  - unfold size, dl in Hfit. rewrite Qtrunc_size in Hfit.
    assert (0 < n) by (unfold n; cbn [length]; lia).
    destruct (Z.le_gt_cases 16 bitDepth) as [|Hlow]; [assumption|exfalso].
    assert (Z.quot (352 + n * bitDepth) 8 < 44 + 2 * n); [|lia].
    destruct (Z.le_gt_cases 0 (352 + n * bitDepth)).
    + apply Z.quot_lt_upper_bound; nia.
    + pose proof (Z.quot_opp_l (-(352 + n * bitDepth)) 8 ltac:(lia)) as Q.
      rewrite Z.opp_involutive in Q.
      pose proof (Z.quot_pos (- (352 + n * bitDepth)) 8 ltac:(lia) ltac:(lia)). lia.
  - rewrite pcm16_loop_overflow in H; [discriminate| |];
      rewrite length_app, riff_header_length, repeat_length; fold n; lia.
Qed.

Lemma bufferToWave_size (n bd : Z) :
  bd = 16 \/ bd = 24 \/ bd = 32 ->
  Qtrunc (44 + inject_Z n * (inject_Z bd / 8))%Q = 44 + n * (bd / 8).
Proof.
  intros Hbd. rewrite Qtrunc_size. destruct Hbd as [-> | [-> | ->]].
  - change (16 / 8) with 2. replace (352 + n * 16) with ((44 + n * 2) * 8) by lia.
    apply Z.quot_mul; lia.
  - change (24 / 8) with 3. replace (352 + n * 24) with ((44 + n * 3) * 8) by lia.
    apply Z.quot_mul; lia.
  - change (32 / 8) with 4. replace (352 + n * 32) with ((44 + n * 4) * 8) by lia.
    apply Z.quot_mul; lia.
Qed.

Lemma valid_bitDepth_cases (bitDepth : Z) :
  let bd := if valid_bitDepth bitDepth then bitDepth else 16 in
  bd = 16 \/ bd = 24 \/ bd = 32.
Proof.
  unfold valid_bitDepth. cbn [existsb].
  destruct (Z.eqb_spec bitDepth 16); [auto|].
  destruct (Z.eqb_spec bitDepth 24); [auto|].
  destruct (Z.eqb_spec bitDepth 32); auto.
Qed.

(** [bufferToWave] returns a buffer only if the allocation was within
    the language's limit. *)
Lemma bufferToWave_returns (audioBuffer : AudioBuffer) (bitDepth : Z) (buf : bytes) :
  let bd := if valid_bitDepth bitDepth then bitDepth else 16 in
  bufferToWave audioBuffer bitDepth = Ok buf ->
  44 + Z.of_nat (length (interleave audioBuffer)) * (bd / 8) <= 2 ^ 53 - 1.
Proof.
  intros bd H. unfold bufferToWave in H. fold bd in H.
  rewrite <- (bufferToWave_size _ bd (valid_bitDepth_cases bitDepth)).
  unfold ArrayBuffer_new in H.
  destruct (Z.ltb_spec (Qtrunc (44 + inject_Z (Z.of_nat (length (interleave audioBuffer)))
                                   * (inject_Z bd / 8))%Q) 0);
    cbn [orb] in H; [discriminate|].
  destruct (Z.ltb_spec (2 ^ 53 - 1)
              (Qtrunc (44 + inject_Z (Z.of_nat (length (interleave audioBuffer)))
                          * (inject_Z bd / 8))%Q)) as [|Hmax];
    cbn [mbind result_bind] in H; [discriminate|exact Hmax].
Qed.




(** Below 16 bits the two-byte sample writes of [pcmToWav] run past the
    buffer it allocated. *)
Lemma pcmToWav_throws_below_16 (pcmData : list f32) (sampleRate channels bitDepth : Z) :
  pcmData <> [] -> 0 <= bitDepth < 16 ->
  Z.of_nat (length pcmData) < 2 ^ 48 ->
  pcmToWav pcmData sampleRate channels bitDepth = Throw RangeError.
Proof.
  intros Hne Hb Hn. unfold pcmToWav.
  set (n := Z.of_nat (length pcmData)) in *.
  assert (0 < n) by (destruct pcmData; [contradiction | unfold n; cbn [length]; lia]).
  pose proof (Qtrunc_size n bitDepth) as Hsize.
  assert (44 <= Z.quot (352 + n * bitDepth) 8 < 44 + 2 * n) as Hq.
  { split.
    - apply Z.quot_le_lower_bound; nia.
    - apply Z.quot_lt_upper_bound; nia. }
  rewrite ArrayBuffer_new_ok by (rewrite Hsize; change (2 ^ 48) with 281474976710656 in Hn;
    change (2 ^ 53 - 1) with 9007199254740991; lia).
  cbn [mbind result_bind]. rewrite Hsize.
  rewrite (repeat_split 0 44) by lia.
  rewrite writeHeader_ok. cbn [mbind result_bind].
  apply pcm16_loop_overflow;
    rewrite length_app, riff_header_length, repeat_length; fold n; lia.
Qed.

(** Claim C2, at an input where [pcmToWav] breaks it.  Asked for 24
    bits with the samples 0.5 and -1.0, the header declares 24 bits per
    sample and a data section of 6 bytes, but each sample is written as a
    16-bit integer, two bytes apart (FF 3F, 00 80), and the last two
    bytes stay zero; packed as the header declares the data section would
    be FF FF 3F, 00 00 80. *)
Theorem pcmToWav_writes_16_bit_samples_at_24 :
  exists buf,
    pcmToWav [0x3F000000; 0xBF800000] 22050 1 24 = Ok buf
    /\ getUint16 buf 34 = 24
    /\ getUint32 buf 40 = 6
    /\ skipn 44 buf = [255; 63; 0; 128; 0; 0]
    /\ concat (map (sample_bytes 24) [0x3F000000; 0xBF800000])
       = [255; 255; 63; 0; 0; 128].
Proof.
  eexists. split; [vm_compute; reflexivity|]. vm_compute. repeat split.
Qed.

(** What [pcmToWav] writes for every bit depth it survives: 16-bit
    samples, whatever the header says. *)
Lemma pcmToWav_data (pcmData : list f32) (sampleRate channels bitDepth : Z) :
  16 <= bitDepth ->
  Qtrunc (44 + inject_Z (Z.of_nat (length pcmData)) * (inject_Z bitDepth / 8))%Q
    <= 2 ^ 53 - 1 ->
  exists buf,
    pcmToWav pcmData sampleRate channels bitDepth = Ok buf
    /\ firstn (2 * length pcmData) (skipn 44 buf)
       = concat (map (sample_bytes 16) pcmData).
Proof.
  intros Hb Halloc.
  pose proof (pcmToWav_layout pcmData sampleRate channels bitDepth (or_intror Hb) Halloc)
    as L. cbv zeta in L.
  eexists. split; [exact L|].
  rewrite skipn_app, skipn_all2, riff_header_length by (rewrite riff_header_length; lia).
  rewrite Nat.sub_diag, skipn_O. cbn [app].
  assert (length (concat (map (sample_bytes 16) pcmData)) = (2 * length pcmData)%nat) as Hl.
  { pose proof (concat_sample_bytes_length 16 pcmData eq_refl) as Hsum.
    change (16 / 8) with 2 in Hsum. lia. }
  rewrite firstn_app, Hl, Nat.sub_diag, firstn_O, app_nil_r.
  rewrite <- Hl. apply firstn_all.
Qed.

(** What [bufferToWave] writes: every sample in the width the header
    declares, and nothing else after the header. *)
Lemma bufferToWave_data (audioBuffer : AudioBuffer) (bitDepth : Z) :
  let bd := if valid_bitDepth bitDepth then bitDepth else 16 in
  44 + Z.of_nat (length (interleave audioBuffer)) * (bd / 8) <= 2 ^ 53 - 1 ->
  exists buf,
    bufferToWave audioBuffer bitDepth = Ok buf
    /\ getUint16 buf 34 = bd
    /\ skipn 44 buf = concat (map (sample_bytes bd) (interleave audioBuffer)).
Proof.
  intros bd Halloc.
  pose proof (bufferToWave_layout audioBuffer bitDepth Halloc) as L. cbv zeta in L.
  fold bd in L. eexists. split; [exact L|]. split.
  - match goal with
    | |- getUint16 (riff_header ?dl ?f ?ch ?sr _ _ ++ ?rest) _ = _ =>
        destruct (riff_header_fields dl f ch sr bd rest)
          as (_ & _ & _ & _ & _ & _ & _ & _ & _ & H34 & _)
    end.
    rewrite H34, ToUint_inject_Z.
    unfold bd, valid_bitDepth. cbn [existsb].
    destruct (Z.eqb_spec bitDepth 16) as [->|]; [reflexivity|].
    destruct (Z.eqb_spec bitDepth 24) as [->|]; [reflexivity|].
    destruct (Z.eqb_spec bitDepth 32) as [->|]; reflexivity.
  - rewrite skipn_app, skipn_all2, riff_header_length by (rewrite riff_header_length; lia).
    reflexivity.
Qed.

(** *** The quantisation of a sample *)

Lemma wrap_signed_small w z :
  0 < w -> - 2 ^ (w - 1) <= z < 2 ^ (w - 1) -> wrap_signed w z = z.
Proof.
  intros Hw Hz. unfold wrap_signed.
  assert (2 ^ w = 2 * 2 ^ (w - 1)) as Hp.
  { replace w with (1 + (w - 1)) at 1 by lia. rewrite Z.pow_add_r by lia. reflexivity. }
  assert (0 < 2 ^ (w - 1)) by (apply Z.pow_pos_nonneg; lia).
  destruct (Z_lt_le_dec z 0) as [Hneg|Hpos].
  - replace (z mod 2 ^ w) with (z + 2 ^ w).
    + destruct (Z.ltb_spec (z + 2 ^ w) (2 ^ (w - 1))); lia.
    + symmetry. rewrite <- (Z.mod_add z 1 (2 ^ w)) by lia.
      rewrite Z.mul_1_l. apply Z.mod_small. lia.
  - rewrite Z.mod_small by lia.
    destruct (Z.ltb_spec z (2 ^ (w - 1))); lia.
Qed.

Lemma Qltb_spec (a b : Q) : Qltb a b = true <-> (Qnum a * Z.pos (Qden b) < Qnum b * Z.pos (Qden a)).
Proof.
  unfold Qltb, Qle_bool. rewrite negb_true_iff, Z.leb_gt. reflexivity.
Qed.

Lemma Qtrunc_scale (q : Q) (k : Z) :
  Qtrunc (q * inject_Z k) = Z.quot (Qnum q * k) (Z.pos (Qden q)).
Proof.
  unfold Qtrunc, Qmult, inject_Z. cbn [Qnum Qden]. now rewrite Pos.mul_1_r.
Qed.

Lemma clamp_sample_finite (x : f32) (q : Q) :
  f32_value x = JFin q -> clamp_sample x = JFin (clampQ q).
Proof.
  intros Hx. unfold clamp_sample, clampQ. rewrite Hx.
  unfold Math_min. cbn [is_nan orb js_lt].
  destruct (Qltb q 1); unfold Math_max; cbn [is_nan orb js_lt].
  - now destruct (Qltb (-1) q).
  - reflexivity.
Qed.

Lemma Qltb_lt (a b : Q) :
  Qltb a b = true <-> Qnum a * Z.pos (Qden b) < Qnum b * Z.pos (Qden a).
Proof. unfold Qltb, Qle_bool. now rewrite negb_true_iff, Z.leb_gt. Qed.

Lemma Qltb_ge (a b : Q) :
  Qltb a b = false <-> Qnum b * Z.pos (Qden a) <= Qnum a * Z.pos (Qden b).
Proof. unfold Qltb, Qle_bool. now rewrite negb_false_iff, Z.leb_le. Qed.

Lemma Qle_bool_le (a b : Q) :
  Qle_bool a b = true <-> Qnum a * Z.pos (Qden b) <= Qnum b * Z.pos (Qden a).
Proof. unfold Qle_bool. now rewrite Z.leb_le. Qed.

Lemma Qle_bool_gt (a b : Q) :
  Qle_bool a b = false <-> Qnum b * Z.pos (Qden a) < Qnum a * Z.pos (Qden b).
Proof. unfold Qle_bool. now rewrite Z.leb_gt. Qed.

Lemma quot_scaled_bounds (a k : Z) (d : positive) :
  0 < k -> - Z.pos d <= a <= Z.pos d ->
  - k <= Z.quot (a * k) (Z.pos d) <= k
  /\ (0 <= a -> 0 <= Z.quot (a * k) (Z.pos d))
  /\ (a <= 0 -> Z.quot (a * k) (Z.pos d) <= 0).
Proof.
  intros Hk Ha.
  destruct (Z_le_gt_dec 0 a) as [Hp|Hn].
  - assert (0 <= Z.quot (a * k) (Z.pos d)) by (apply Z.quot_pos; nia).
    assert (Z.quot (a * k) (Z.pos d) <= k) by (apply Z.quot_le_upper_bound; nia).
    repeat split; try lia. intros. assert (a = 0) as -> by lia. reflexivity.
  - assert (Z.quot (a * k) (Z.pos d) = - Z.quot (- a * k) (Z.pos d)) as ->.
    { rewrite <- Z.quot_opp_l by lia. f_equal. lia. }
    assert (0 <= Z.quot (- a * k) (Z.pos d)) by (apply Z.quot_pos; nia).
    assert (Z.quot (- a * k) (Z.pos d) <= k) by (apply Z.quot_le_upper_bound; nia).
    repeat split; lia.
Qed.

Lemma quantize_finite (neg pos : Z) (x : f32) (q : Q) :
  f32_value x = JFin q ->
  0 < neg <= 2 ^ 31 -> 0 < pos < 2 ^ 31 ->
  quantize neg pos x = quantize_spec neg pos q.
Proof.
  intros Hx Hneg Hpos. unfold quantize. rewrite (clamp_sample_finite x q Hx).
  unfold quantize_spec, clampQ. cbn [js_lt].
  change (2 ^ 31) with 2147483648 in *.
  destruct q as [a d].
  destruct (Qle_bool (a # d) (-1)) eqn:E1.
  - apply Qle_bool_le in E1. cbn [Qnum Qden] in E1.
    assert (Qltb (a # d) 1 = true) as -> by (apply Qltb_lt; cbn [Qnum Qden]; lia).
    assert (Qltb (-1) (a # d) = false) as -> by (apply Qltb_ge; cbn [Qnum Qden]; lia).
    assert (Qltb (-1) 0 = true) as -> by reflexivity.
    cbn [js_mul]. unfold ToInt32. rewrite Qtrunc_scale. cbn [Qnum Qden].
    rewrite Z.quot_1_r. replace (-1 * neg) with (- neg) by lia.
    apply wrap_signed_small; lia.
  - apply Qle_bool_gt in E1. cbn [Qnum Qden] in E1.
    assert (Qltb (-1) (a # d) = true) as Hm by (apply Qltb_lt; cbn [Qnum Qden]; lia).
    destruct (Qle_bool 1 (a # d)) eqn:E2.
    + apply Qle_bool_le in E2. cbn [Qnum Qden] in E2.
      assert (Qltb (a # d) 1 = false) as -> by (apply Qltb_ge; cbn [Qnum Qden]; lia).
      assert (Qltb 1 0 = false) as -> by reflexivity.
      cbn [js_mul]. unfold ToInt32. rewrite Qtrunc_scale. cbn [Qnum Qden].
      rewrite Z.quot_1_r, Z.mul_1_l. apply wrap_signed_small; lia.
    + apply Qle_bool_gt in E2. cbn [Qnum Qden] in E2.
      assert (Qltb (a # d) 1 = true) as -> by (apply Qltb_lt; cbn [Qnum Qden]; lia).
      rewrite Hm.
      assert (- Z.pos d <= a <= Z.pos d) as Ha by lia.
      destruct (Qltb (a # d) 0) eqn:E3; cbn [js_mul]; unfold ToInt32;
        rewrite Qtrunc_scale; cbn [Qnum Qden]; apply wrap_signed_small; try lia.
      * apply Qltb_lt in E3. cbn [Qnum Qden] in E3.
        destruct (quot_scaled_bounds a neg d ltac:(lia) Ha) as (Hb & _ & Hle). lia.
      * apply Qltb_ge in E3. cbn [Qnum Qden] in E3.
        destruct (quot_scaled_bounds a pos d ltac:(lia) Ha) as (Hb & Hge & _). lia.
Qed.

(** Not-a-number becomes 0 and the infinities saturate. *)
Lemma quantize_special (neg pos : Z) (x : f32) :
  0 < neg <= 2 ^ 31 -> 0 < pos < 2 ^ 31 ->
  (f32_value x = JNaN -> quantize neg pos x = 0)
  /\ (f32_value x = JPosInf -> quantize neg pos x = pos)
  /\ (f32_value x = JNegInf -> quantize neg pos x = - neg).
Proof.
  intros Hneg Hpos. change (2 ^ 31) with 2147483648 in *.
  unfold quantize. repeat split; intros Hx.
  - assert (clamp_sample x = JNaN) as -> by (unfold clamp_sample; now rewrite Hx).
    reflexivity.
  - assert (clamp_sample x = JFin 1) as -> by (unfold clamp_sample; now rewrite Hx).
    change (js_lt (JFin 1) (JFin 0)) with false. cbn [js_mul]. unfold ToInt32.
    rewrite Qtrunc_scale. cbn [Qnum Qden].
    rewrite Z.quot_1_r, Z.mul_1_l. apply wrap_signed_small; lia.
  - assert (clamp_sample x = JFin (-1)) as -> by (unfold clamp_sample; now rewrite Hx).
    change (js_lt (JFin (-1)) (JFin 0)) with true. cbn [js_mul]. unfold ToInt32.
    rewrite Qtrunc_scale. cbn [Qnum Qden].
    rewrite Z.quot_1_r. replace (-1 * neg) with (- neg) by lia.
    apply wrap_signed_small; lia.
Qed.

(** *** VoiceForgeEngine.synthesizeToSpeech: falling back to the Web
    Speech API *)

(** With Piper switched off the call goes straight to the audio engine. *)
Lemma VoiceForge_uses_web_speech (env : Env) (text : text_arg)
    (options : SynthOptions) (vf : VoiceForgeEngine) (tr : list event) :
  text_is_empty text = false ->
  piperReady vf && usePiper vf = false ->
  VoiceForge_synthesizeToSpeech env text options vf tr
  = zoom audioEngine set_audioEngine (Audio_synthesizeToSpeech env text options) vf tr.
Proof.
  intros Ht Hp. unfold VoiceForge_synthesizeToSpeech. rewrite Ht.
  cbv [mbind M_bind m_bind get]. rewrite Hp. reflexivity.
Qed.

(** Claim C3.  With a text that is not empty, Piper ready and enabled,
    and a Piper synthesis call that throws, [VoiceForgeEngine.
    synthesizeToSpeech] ends exactly as [AudioEngine.synthesizeToSpeech]
    does on the same text and options (same result or rejection, same
    effects), whatever error the Piper call threw; [usePiper] is false
    afterwards, and every later call with a text that is not empty goes
    straight to the Web Speech backend. *)
Theorem piper_failure_falls_back (env : Env) (vf : VoiceForgeEngine)
    (tr tr' : list event) (text : text_arg) (options : SynthOptions)
    (e : exn) (pe' : PiperEngine) :
  text_is_empty text = false ->
  piperReady vf = true ->
  usePiper vf = true ->
  Piper_synthesizeToSpeech env text options (piperEngine vf) tr = (Throw e, pe', tr') ->
  let back := Audio_synthesizeToSpeech env text options (audioEngine vf) tr' in
  let res := VoiceForge_synthesizeToSpeech env text options vf tr in
  outcome res = outcome back
  /\ effects res = effects back
  /\ final res
     = set_audioEngine (final back) (set_usePiper false (set_piperEngine pe' vf))
  /\ usePiper (final res) = false
  /\ (forall text2 options2 tr2,
        text_is_empty text2 = false ->
        VoiceForge_synthesizeToSpeech env text2 options2 (final res) tr2
        = zoom audioEngine set_audioEngine
            (Audio_synthesizeToSpeech env text2 options2) (final res) tr2).
Proof.
  intros Ht Hr Hu Hp back res.
  assert (res = (outcome back,
                 set_audioEngine (final back)
                   (set_usePiper false (set_piperEngine pe' vf)),
                 effects back)) as Hres.
  { subst res back. unfold VoiceForge_synthesizeToSpeech. rewrite Ht.
    run_m. rewrite Hr, Hu. cbn [andb]. rewrite Hp. cbn [audioEngine set_usePiper set_piperEngine].
    unfold outcome, final, effects.
    destruct (Audio_synthesizeToSpeech env text options (audioEngine vf) tr')
      as [[r a] t]. reflexivity. }
  rewrite Hres. unfold outcome at 1, final at 1, effects at 1. cbn [fst snd].
  repeat split.
  intros text2 options2 tr2 Ht2.
  apply VoiceForge_uses_web_speech; [exact Ht2|].
  unfold final. cbn. apply andb_false_r.
Qed.

Lemma piper_failure_falls_back_witness :
  outcome (VoiceForge_synthesizeToSpeech env_no_audio (TextString (js "hi"))
             no_options voiceforge_no_audio [])
  = outcome (Audio_synthesizeToSpeech env_no_audio (TextString (js "hi"))
               no_options (mkAudioEngine None) []).
Proof.
  refine (proj1 (piper_failure_falls_back env_no_audio voiceforge_no_audio [] []
                   (TextString (js "hi")) no_options TypeError engine_no_audio
                   _ _ _ _)).
  - reflexivity.
  - reflexivity.
  - reflexivity.
  - vm_compute. reflexivity.
Defined.

(** The Web Speech backend of this repository cannot hand back audio:
    its promise is always rejected, so after the fallback the caller
    gets that rejection. *)
Lemma Audio_synthesizeToSpeech_rejects (env : Env) (text : text_arg)
    (options : SynthOptions) (ae : AudioEngine) (tr : list event) :
  is_ok (outcome (Audio_synthesizeToSpeech env text options ae tr)) = false.
Proof.
  unfold Audio_synthesizeToSpeech, Audio_synthesizeWithFallback,
    Audio_previewVoiceSample, outcome. run_m.
  destruct (env_speechSupported env); cbn [negb]; [|reflexivity].
  destruct (text_is_empty text); [reflexivity|].
  destruct (env_speak env (text_string text)); reflexivity.
Qed.

(** *** PiperEngine.synthesizeToSpeech: the silent fallback *)

Lemma callLibrary_fails (lib : PiperLib) (text : jsstring)
    (voiceId : string) (lengthScale : Q) (pe : PiperEngine) (tr : list event) :
  piper pe = Some lib ->
  methods_fail lib text voiceId lengthScale (currentModelData pe) ->
  exists e tr',
    Piper_callLibrary text voiceId lengthScale pe tr = (Throw e, pe, tr').
Proof.
  intros Hp Hf. unfold Piper_callLibrary, methods_fail in *. run_m. rewrite Hp.
  destruct (lib_generate lib) as [g|].
  { destruct Hf as [e He]. rewrite He. eauto. }
  destruct (lib_synthesize lib) as [sy|].
  { destruct Hf as [e He]. rewrite He. eauto. }
  destruct (lib_synthesizeToSpeech lib) as [sp|].
  { destruct Hf as [e He]. rewrite He. eauto. }
  destruct (lib_Settings lib) as [[[]|e]|]; eauto.
Qed.

Lemma silence_length : Z.of_nat (length silence) = 22050.
Proof. unfold silence. rewrite repeat_length. lia. Qed.

Lemma pcmToAudioBuffer_silence (env : Env) (pe : PiperEngine) (tr : list event) :
  audioContext pe = true \/ env_newAudioContext env = Some (Ok tt) ->
  exists pe' tr',
    Piper_pcmToAudioBuffer env silence pe tr
    = (Ok (mkAudioBuffer 22050 (length silence) [silence]), pe', tr').
Proof.
  intros Hctx. unfold Piper_pcmToAudioBuffer, Piper_getAudioContext,
    Piper_initAudioContext. run_m.
  assert (Nat.eqb (length silence) 0 = false) as Hlen.
  { apply Nat.eqb_neq. pose proof silence_length. lia. }
  destruct (audioContext pe) eqn:Hc.
  - rewrite Hc. cbn [negb]. rewrite Hlen. eauto.
  - destruct Hctx as [|Hnew]; [discriminate|]. rewrite Hnew. cbn.
    rewrite Hlen. eauto.
Qed.

(** Claim C4, amended.  For an initialized engine and a text that is
    not empty, let the voice to use be [options.voiceId] or else the
    selected voice.  If that voice is the selected one or
    [loadVoiceModel] succeeds for it, if the synthesis method the code
    picks on the library instance throws (or the library has none), and
    if an [AudioContext] exists or can be created, then
    [synthesizeToSpeech] returns a result with [success: true] whose
    [pcm] is an all-zero array of 22050 elements, at 22050 Hz. *)
Theorem synthesis_falls_back_to_silence (env : Env) (pe pe1 : PiperEngine)
    (tr tr1 : list event) (text : text_arg) (options : SynthOptions)
    (lib : PiperLib) (voiceId : string) :
  isInitialized pe = true ->
  text_is_empty text = false ->
  or_string (opt_voiceId options) (selectedVoice pe) = Some voiceId ->
  voiceId <> EmptyString ->
  (if same_voice (selectedVoice pe) voiceId then (pe1, tr1) = (pe, tr)
   else exists v, Piper_loadVoiceModel env voiceId pe tr = (Ok v, pe1, tr1)) ->
  piper pe1 = Some lib ->
  methods_fail lib (text_string text) voiceId (or_Q (opt_lengthScale options) 1)
    (currentModelData pe1) ->
  audioContext pe1 = true \/ env_newAudioContext env = Some (Ok tt) ->
  exists r pe2 tr2,
    Piper_synthesizeToSpeech env text options pe tr = (Ok r, pe2, tr2)
    /\ pr_success r = true
    /\ pr_pcm r = repeat 0 (Z.to_nat 22050)
    /\ Z.of_nat (length (pr_pcm r)) = 22050
    /\ pr_sampleRate r = 22050.
Proof.
  intros Hinit Htext Hvoice Hne Hload Hlib Hfail Hctx.
  destruct (callLibrary_fails lib (text_string text) voiceId
              (or_Q (opt_lengthScale options) 1) pe1 tr1 Hlib Hfail)
    as (e & tr' & Hcall).
  destruct (pcmToAudioBuffer_silence env pe1 tr' Hctx) as (pe2 & tr2 & Hbuf).
  exists (mkPiperResult true silence (mkAudioBuffer 22050 (length silence) [silence])
            22050 (inject_Z (Z.of_nat (length silence)) / 22050)%Q
            (text_string text) voiceId), pe2, tr2.
  split; [|repeat split; apply silence_length].
  unfold Piper_synthesizeToSpeech.
  assert (String.eqb voiceId EmptyString = false) as Hne' by (now apply String.eqb_neq).
  cbv [mbind M_bind m_bind get].
  rewrite Hinit, Htext, Hvoice, Hne'. cbn [negb].
  destruct (same_voice (selectedVoice pe) voiceId).
  - injection Hload as -> ->. run_m. rewrite Hcall, Hbuf. reflexivity.
  - destruct Hload as [v Hv]. run_m. rewrite Hv, Hcall, Hbuf. reflexivity.
Qed.

Lemma synthesis_falls_back_to_silence_witness :
  exists r pe2 tr2,
    Piper_synthesizeToSpeech env_online (TextString (js "hi")) no_options
      engine_ready [] = (Ok r, pe2, tr2)
    /\ pr_success r = true
    /\ pr_pcm r = repeat 0 (Z.to_nat 22050)
    /\ Z.of_nat (length (pr_pcm r)) = 22050
    /\ pr_sampleRate r = 22050.
Proof.
  apply (synthesis_falls_back_to_silence env_online engine_ready engine_ready
           [] [] (TextString (js "hi")) no_options lib_without_methods
           "en_US-lessac-high").
  - reflexivity.
  - reflexivity.
  - reflexivity.
  - discriminate.
  - reflexivity.
  - reflexivity.
  - exact I.
  - left. reflexivity.
Defined.

Lemma engine_no_audio_reachable :
  final (Piper_initialize env_no_audio
           (final (Piper_initAudioContext env_no_audio
                     (mkPiperEngine None false [] None false None) [])) [])
  = engine_no_audio.
Proof. reflexivity. Qed.

(** Claim C4 as stated fails in two ways.  Without an [AudioContext]
    the silent buffer cannot be wrapped and the call throws a
    [TypeError]; and a [voiceId] option naming an unknown voice makes
    [loadVoiceModel] throw before any synthesis is tried.  In both the
    engine is initialized, has a selected voice, the text is not empty
    and the library offers no synthesis method. *)
Lemma synthesis_silence_counterexample :
  outcome (Piper_synthesizeToSpeech env_no_audio (TextString (js "hi"))
             no_options engine_no_audio [])
  = Throw TypeError
  /\ outcome (Piper_synthesizeToSpeech env_online (TextString (js "hi"))
                (mkSynthOptions (Some "nope"%string) None None None false)
                engine_ready [])
     = Throw (Error "Voice not found: nope").
Proof. split; vm_compute; reflexivity. Qed.

(** *** Blank text *)

Lemma drop_ws_all (s : jsstring) :
  forallb is_whitespace s = true -> drop_ws s = [].
Proof.
  induction s as [|c s IH]; [reflexivity|].
  cbn [forallb drop_ws]. intros [Hc Hs]%andb_true_iff. rewrite Hc. now apply IH.
Qed.

Lemma drop_ws_nil (s : jsstring) :
  drop_ws s = [] -> forallb is_whitespace s = true.
Proof.
  induction s as [|c s IH]; [reflexivity|].
  cbn [forallb drop_ws]. destruct (is_whitespace c); [exact IH | discriminate].
Qed.

Lemma drop_ws_head (s : jsstring) c r :
  drop_ws s = c :: r -> is_whitespace c = false.
Proof.
  induction s as [|d s IH]; [discriminate|].
  cbn [drop_ws]. destruct (is_whitespace d) eqn:E; [exact IH|].
  intros [= <- _]. exact E.
Qed.

Lemma forallb_rev {A} (f : A -> bool) (l : list A) :
  forallb f (rev l) = forallb f l.
Proof.
  induction l as [|x l IH]; [reflexivity|].
  cbn [rev forallb]. rewrite forallb_app, IH. cbn [forallb].
  rewrite andb_true_r. apply andb_comm.
Qed.

(** [text.trim().length === 0] exactly when every code unit is white
    space. *)
Lemma trim_empty_iff (s : jsstring) :
  trim s = [] <-> forallb is_whitespace s = true.
Proof.
  unfold trim. split.
  - intros H. apply (f_equal (@rev N)) in H. rewrite rev_involutive in H.
    cbn [rev] in H. apply drop_ws_nil in H. rewrite forallb_rev in H.
    destruct (drop_ws s) as [|c r] eqn:E; [now apply drop_ws_nil|].
    apply drop_ws_head in E. cbn [forallb] in H. rewrite E in H. discriminate.
  - intros H. now rewrite (drop_ws_all s H).
Qed.

Lemma text_is_empty_blank (text : text_arg) :
  text_is_empty text = true <-> is_blank text = true.
Proof.
  destruct text as [| |s]; cbn [text_is_empty is_blank]; [tauto | tauto |].
  rewrite orb_true_iff, !Nat.eqb_eq, !length_zero_iff_nil, trim_empty_iff.
  split; [intros [->|H]; [reflexivity | exact H] | auto].
Qed.

(** Claim C5, amended.  For a text that is null, undefined, empty or
    made of white space only, each of the four entry points throws
    before anything is attempted: the object is unchanged and no effect
    is recorded.  [VoiceForgeEngine.synthesizeToSpeech] always throws
    'Text cannot be empty'; the other three throw it when the guard that
    precedes their text check passes (engine initialized, speech
    synthesis supported, integration initialized) and that guard's own
    error otherwise. *)
Theorem blank_text_rejected (env : Env) (text : text_arg) (options : SynthOptions) :
  is_blank text = true ->
  (forall vf tr,
     VoiceForge_synthesizeToSpeech env text options vf tr
     = (Throw (Error "Text cannot be empty"), vf, tr))
  /\ (forall pe tr,
        Piper_synthesizeToSpeech env text options pe tr
        = (Throw (if isInitialized pe then Error "Text cannot be empty"
                  else Error "Piper not initialized. Call initialize() first."),
           pe, tr))
  /\ (forall ae tr,
        Audio_synthesizeToSpeech env text options ae tr
        = (Throw (if env_speechSupported env then Error "Text cannot be empty"
                  else Error "Speech synthesis is not available in this browser/device."),
           ae, tr))
  /\ (forall pi tr,
        Integration_generateSpeech env text options pi tr
        = (Throw (if initialized pi then Error "Text cannot be empty"
                  else Error "TTS Engine not initialized. Call initialize() first."),
           pi, tr)).
Proof.
  intros Hb. apply text_is_empty_blank in Hb.
  repeat split; intros s tr.
  - unfold VoiceForge_synthesizeToSpeech. rewrite Hb. reflexivity.
  - unfold Piper_synthesizeToSpeech. run_m.
    destruct (isInitialized s); cbn [negb]; [rewrite Hb|]; reflexivity.
  - unfold Audio_synthesizeToSpeech.
    destruct (env_speechSupported env); cbn [negb]; [rewrite Hb|]; reflexivity.
  - unfold Integration_generateSpeech. run_m.
    destruct (initialized s); cbn [negb]; [rewrite Hb|]; reflexivity.
Qed.

Lemma blank_text_rejected_witness :
  VoiceForge_synthesizeToSpeech env_quiet (TextString (js "  ")) no_options
    (mkVoiceForgeEngine (mkAudioEngine None) engine_fresh false false) []
  = (Throw (Error "Text cannot be empty"),
     mkVoiceForgeEngine (mkAudioEngine None) engine_fresh false false, []).
Proof.
  apply (blank_text_rejected env_quiet (TextString (js "  ")) no_options).
  reflexivity.
Defined.

(** Claim C5 as stated fails where an earlier guard fires: an engine
    that is not initialized answers the empty string with its
    initialization error. *)
Lemma blank_text_counterexample :
  outcome (Piper_synthesizeToSpeech env_quiet (TextString []) no_options
             engine_fresh [])
  = Throw (Error "Piper not initialized. Call initialize() first.")
  /\ Error "Piper not initialized. Call initialize() first."
     <> Error "Text cannot be empty".
Proof. split; [reflexivity | discriminate]. Qed.

(** *** PiperEngine.loadVoiceModel *)

(** Claim C6, amended.  [loadVoiceModel] throws without fetching when
    there is no library instance; it returns without fetching and
    without changing anything when the model of [voiceId] is the cached
    one; otherwise it throws when the voice is not in the voice list,
    and for a listed voice it requests both the model file and the
    [.json] file next to it, throws when either response is not ok, and
    succeeds exactly when both fetches succeed with ok responses whose
    bodies can be read, in which case [selectedVoice] is [voiceId] and
    [currentModelData] holds the fetched model and config.  Every error
    leaves the engine as it was. *)
Theorem loadVoiceModel_behaviour (env : Env) (voiceId : string)
    (pe : PiperEngine) (tr : list event) :
  let res := Piper_loadVoiceModel env voiceId pe tr in
  (* every error leaves the engine as it was *)
  (forall e, outcome res = Throw e -> final res = pe)
  (* no library instance: nothing is fetched *)
  /\ (piper pe = None ->
      res = (Throw (Error "Piper not initialized. Call initialize() first."), pe, tr))
  /\ (piper pe <> None ->
      (* the voice is the cached one: nothing is fetched, nothing changes *)
      (cached_for voiceId (currentModelData pe) = true ->
       is_ok (outcome res) = true /\ final res = pe /\ effects res = tr)
      /\ (cached_for voiceId (currentModelData pe) = false ->
          (find_voice voiceId (voices pe) = None ->
           res = (Throw (Error ("Voice not found: " ++ voiceId)), pe, tr))
          /\ (forall voice, find_voice voiceId (voices pe) = Some voice ->
                let modelPath := v_modelPath voice in
                let configPath := (modelPath ++ ".json")%string in
                effects res = tr ++ [EvFetch modelPath; EvFetch configPath]
                /\ (forall m c,
                      env_fetch env modelPath = Ok m ->
                      env_fetch env configPath = Ok c ->
                      resp_ok m = false \/ resp_ok c = false ->
                      is_ok (outcome res) = false)
                /\ (is_ok (outcome res) = true <->
                    exists m c modelData configData,
                      env_fetch env modelPath = Ok m
                      /\ env_fetch env configPath = Ok c
                      /\ resp_ok m = true /\ resp_ok c = true
                      /\ resp_arrayBuffer m = Ok modelData
                      /\ resp_json c = Ok configData
                      /\ outcome res = Ok (LoadedVoice voice)
                      /\ final res = loaded_state voiceId modelData configData pe)))).
Proof.
  intros res. subst res. unfold Piper_loadVoiceModel, outcome, final, effects.
  run_m.
  destruct (piper pe) as [lib|] eqn:Hp; [|cbn; intuition congruence].
  destruct (cached_for voiceId (currentModelData pe)) eqn:Hc;
    [cbn; intuition congruence|].
  destruct (find_voice voiceId (voices pe)) as [voice|] eqn:Hf;
    [|cbn; intuition congruence].
  destruct (env_fetch env (v_modelPath voice)) as [m|e1] eqn:Hm;
    [destruct (env_fetch env (v_modelPath voice ++ ".json")) as [c|e2] eqn:Hcf;
     [destruct (resp_ok m) eqn:Hmo;
      [destruct (resp_ok c) eqn:Hco;
       [destruct (resp_arrayBuffer m) as [modelData|e3] eqn:Hab;
        [destruct (resp_json c) as [configData|e4] eqn:Hjs|]|]|]|]|];
    cbn [negb fst snd];
    (split; [intros; first [reflexivity | discriminate]|]);
    (split; [discriminate|]);
    intros _; (split; [intros; discriminate|]); intros _;
    (split; [discriminate|]);
    intros v [= <-]; cbv zeta; rewrite <- app_assoc; cbn [app];
    (split; [reflexivity|]);
    (split; [intros m' c' Hm' Hc' Hor;
             rewrite ?Hm, ?Hcf in *; try discriminate;
             try (injection Hm' as <-); try (injection Hc' as <-);
             try reflexivity; destruct Hor; congruence|]);
    (split; [intros H; try discriminate H
            | intros (m' & c' & md & cd & Hm' & Hc' & Ho1 & Ho2 & Ha & Hj & _);
              rewrite ?Hm, ?Hcf in *; try discriminate;
              try (injection Hm' as <-); try (injection Hc' as <-);
              try reflexivity; congruence]).
  exists m, c, modelData, configData. repeat split; assumption.
Qed.

Lemma engine_ready_reachable :
  final (Piper_initialize env_online
           (final (Piper_initAudioContext env_online
                     (mkPiperEngine None false [] None false None) [])) [])
  = engine_ready.
Proof. reflexivity. Qed.

Lemma loadVoiceModel_behaviour_witness :
  final (Piper_loadVoiceModel env_online "en_US-lessac-high" engine_ready [])
  = engine_ready
  /\ effects (Piper_loadVoiceModel env_online "en_US-lessac-high" engine_ready []) = [].
Proof.
  pose proof (loadVoiceModel_behaviour env_online "en_US-lessac-high" engine_ready [])
    as H. cbv zeta in H.
  destruct H as (_ & _ & H). destruct (H ltac:(discriminate)) as [Hcached _].
  destruct (Hcached eq_refl) as (_ & Hs & He). split; assumption.
Defined.

(** Claim C6 as stated fails for the voice whose model is cached: the
    call returns without fetching anything. *)
Lemma loadVoiceModel_counterexample :
  exists v,
    Piper_loadVoiceModel env_online "en_US-lessac-high" engine_ready []
    = (Ok v, engine_ready, [])
    /\ ~ In (EvFetch "/public/tts-web/onnx/en_US-lessac-high.onnx")
           (effects (Piper_loadVoiceModel env_online "en_US-lessac-high"
                       engine_ready [])).
Proof. eexists. split; [reflexivity | intros []]. Qed.

(** *** I18n.t *)

Lemma split_dot_nonempty (s : jsstring) : split_dot s <> [].
Proof.
  induction s as [|c s IH]; cbn [split_dot]; [discriminate|].
  destruct (N.eqb c 46); [discriminate|].
  destruct (split_dot s); discriminate.
Qed.

(** Splitting loses nothing: the segments joined by dots are the key. *)
Lemma join_dot_cons (p : jsstring) (ps : list jsstring) :
  ps <> [] -> join_dot (p :: ps) = p ++ 46%N :: join_dot ps.
Proof. destruct ps; [contradiction | reflexivity]. Qed.

Lemma join_dot_extend (c : N) (p : jsstring) (ps : list jsstring) :
  join_dot ((c :: p) :: ps) = c :: join_dot (p :: ps).
Proof. destruct ps; reflexivity. Qed.

Lemma join_split_dot (s : jsstring) : join_dot (split_dot s) = s.
Proof.
  induction s as [|c s IH]; [reflexivity|].
  cbn [split_dot]. pose proof (split_dot_nonempty s) as Hne.
  destruct (N.eqb_spec c 46) as [->|Hc].
  - rewrite join_dot_cons by exact Hne. now rewrite IH.
  - destruct (split_dot s) as [|p ps]; [contradiction|].
    now rewrite join_dot_extend, IH.
Qed.

(** No segment contains a dot. *)
Lemma split_dot_segments (s : jsstring) :
  Forall (fun p => ~ In 46%N p) (split_dot s).
Proof.
  induction s as [|c s IH]; cbn [split_dot].
  - constructor; [intros [] | constructor].
  - destruct (N.eqb_spec c 46) as [->|Hc].
    + constructor; [intros [] | exact IH].
    + destruct (split_dot s) as [|p ps]; [repeat constructor; intros [?|[]]; congruence|].
      inversion IH as [|? ? Hp Hps]; subst. constructor; [|exact Hps].
      intros [?|?]; [congruence | contradiction].
Qed.

Section LookupFacts.

Variable inherited : jsval -> jsstring -> option jsval.

Lemma t_loop_resolve (parts : list jsstring) : forall (value d : jsval),
  t_loop inherited value parts d
  = match resolve inherited value parts with
    | Some v => if truthy v then v else d
    | None => d
    end.
Proof.
  induction parts as [|part rest IH]; intros value d; [reflexivity|].
  cbn [t_loop resolve].
  destruct value; cbn [truthy typeof_object andb]; try reflexivity.
  - now destruct b.
  - destruct n as [| | |q]; try reflexivity. now destruct (negb _).
  - now destruct (negb _).
  - destruct (get_property inherited (VArr elems) part); [apply IH | reflexivity].
  - destruct (get_property inherited (VObj fields) part); [apply IH | reflexivity].
Qed.

(** Claim C7, amended.  [t] splits the key at the dots (the segments
    joined by dots give the key back and none contains a dot) and
    follows them through the translation object of the current language,
    a segment being present in an object when the object has it as an
    own property or inherits it through its prototype chain.  It returns
    the value at the end of the path when that value is truthy, and the
    default value, which is the key when none is supplied, whenever a
    segment is absent, an intermediate value is not an object, or the
    value at the end is falsy. *)
Theorem t_follows_path (self : I18n) (key : jsstring) (defaultValue : jsval) :
  let d := match defaultValue with VUndefined => VStr key | x => x end in
  let root :=
    match get_property inherited (VObj (translations self)) (currentLanguage self) with
    | Some v => v
    | None => VUndefined
    end in
  join_dot (split_dot key) = key
  /\ Forall (fun p => ~ In 46%N p) (split_dot key)
  /\ t inherited self key defaultValue
     = match resolve inherited root (split_dot key) with
       | Some v => if truthy v then v else d
       | None => d
       end.
Proof.
  intros d root. split; [apply join_split_dot|]. split; [apply split_dot_segments|].
  unfold t. apply t_loop_resolve.
Qed.

End LookupFacts.

Example t_finds_title :
  t inherited_methods i18n_demo (js "app.title") VUndefined = VStr (js "VoiceForge AI").
Proof. reflexivity. Qed.

Example t_missing_segment :
  t inherited_methods i18n_demo (js "app.missing.x") VUndefined
  = VStr (js "app.missing.x").
Proof. reflexivity. Qed.

Example t_falsy_value :
  t inherited_methods i18n_demo (js "app.subtitle") (VStr (js "none"))
  = VStr (js "none").
Proof. reflexivity. Qed.

(** Claim C7 as stated fails for a segment that names an inherited
    method: [app] has no [toString] entry, yet [t] returns the built-in
    function, not the key. *)
Lemma t_inherited_counterexample :
  own_property (VObj [(js "title", VStr (js "VoiceForge AI")); (js "subtitle", VStr [])])
    (js "toString") = None
  /\ t inherited_methods i18n_demo (js "app.toString") VUndefined = VFun "toString"
  /\ VFun "toString" <> VStr (js "app.toString").
Proof. split; [reflexivity|]. split; [reflexivity | discriminate]. Qed.

Module SWFacts.
Import SW.

Lemma caches_put_stored caches name u r :
  exists cache, In (name, cache) (caches_put caches name u r) /\ cache !! u = Some r.
Proof.
  induction caches as [|[n c] rest IH]; simpl.
  - exists {[ u := r ]}. split; [now left | apply lookup_singleton_eq].
  - destruct (String.eqb_spec n name) as [->|Hne].
    + exists (<[ u := r ]> c). split; [now left | apply lookup_insert_eq].
    + destruct IH as (cache & Hin & Hl). exists cache. split; [now right | exact Hl].
Qed.

Lemma cacheable_spec r :
  cacheable r = true <-> status r = 200 /\ type r <> "error"%string.
Proof.
  unfold cacheable. rewrite andb_true_iff, negb_true_iff, Z.eqb_eq.
  destruct (String.eqb_spec (type r) "error"); intuition congruence.
Qed.

(** Claim C8.  A request that is not a GET is not intercepted.  For a
    GET, a cached response that matches is returned without a network
    request; on a miss the request goes to the network, the response is
    returned, and it is stored in the cache when it has status 200 and
    is not an error response, and left out of the cache otherwise; when
    the network fetch fails the worker answers with what is cached for
    '/index.html'. *)
Theorem fetch_handler_policy (network : Request -> option Response)
    (caches : CacheStorage) (request : Request) :
  let out := onFetch network caches request in
  (method request <> "GET"%string ->
     reply out = NotIntercepted /\ caches_after out = caches
     /\ network_requests out = [])
  /\ (method request = "GET"%string ->
      (forall r, caches_match caches (url request) = Some r ->
         reply out = RespondWith (Some r) /\ network_requests out = []
         /\ caches_after out = caches)
      /\ (caches_match caches (url request) = None ->
          network_requests out = [request]
          /\ (forall r, network request = Some r ->
                reply out = RespondWith (Some r)
                /\ (status r = 200 /\ type r <> "error"%string ->
                    stored (caches_after out) (url request) r)
                /\ (status r <> 200 \/ type r = "error"%string ->
                    caches_after out = caches))
          /\ (network request = None ->
                reply out = RespondWith (caches_match caches "/index.html")
                /\ caches_after out = caches))).
Proof.
  intros out. subst out. unfold onFetch.
  destruct (String.eqb_spec (method request) "GET") as [Hget|Hne]; cbn [negb].
  - split; [intros H; contradiction|]. intros _. split.
    + intros r Hr. rewrite Hr. cbn. auto.
    + intros Hmiss. rewrite Hmiss.
      destruct (network request) as [resp|] eqn:Hnet.
      * destruct (cacheable resp) eqn:Hc; cbn [negb];
          (split; [reflexivity|]); (split; [|intros; discriminate]);
          intros r [= <-]; (split; [reflexivity|]); split.
        -- intros _. cbn. apply caches_put_stored.
        -- intros Hbad. apply cacheable_spec in Hc. destruct Hc, Hbad; congruence.
        -- intros Hgood. apply cacheable_spec in Hgood. congruence.
        -- intros _. reflexivity.
      * cbn. split; [reflexivity|]. split; [intros; discriminate|]. auto.
  - split; [intros _; cbn; auto | intros H; contradiction].
Qed.

Lemma fetch_handler_policy_witness :
  stored (caches_after (onFetch network_demo [] (mkRequest "GET" "/a.css")))
         "/a.css" (mkResponse 200 "basic" [1;2]).
Proof.
  pose proof (fetch_handler_policy network_demo [] (mkRequest "GET" "/a.css")) as H.
  destruct H as [_ H]. specialize (H eq_refl). destruct H as [_ H].
  specialize (H eq_refl). destruct H as (_ & H & _).
  specialize (H _ eq_refl). destruct H as (_ & H & _).
  apply H. split; [reflexivity | discriminate].
Defined.
End SWFacts.

Section HistoryFacts.

Variable JSON_stringify : jsval -> result jsstring.
Variable quota : gmap string jsstring -> string -> jsstring -> bool.

Lemma removelast_cons_length {A} (x : A) (l : list A) :
  length (removelast (x :: l)) = length l.
Proof.
  revert x. induction l as [|y l IH]; intros x; [reflexivity|].
  change (removelast (x :: y :: l)) with (x :: removelast (y :: l)).
  cbn [length]. now rewrite IH.
Qed.

Lemma unshift_capped_length item hs :
  (length hs <= 10)%nat -> (length (unshift_capped item hs) <= 10)%nat.
Proof.
  intros H. unfold unshift_capped.
  destruct (Nat.ltb_spec 10 (length (item :: hs))) as [Hgt|Hle].
  - rewrite removelast_cons_length. exact H.
  - exact Hle.
Qed.

Lemma unshift_capped_shape item hs :
  (length hs <= 10)%nat ->
  unshift_capped item hs
  = item :: (if Nat.eqb (length hs) 10 then removelast hs else hs).
Proof.
  intros H. unfold unshift_capped.
  destruct (Nat.ltb_spec 10 (length (item :: hs))) as [Hgt|Hle];
    destruct (Nat.eqb_spec (length hs) 10) as [He|Hn]; simpl in *; try lia.
  - destruct hs; [discriminate|reflexivity].
  - reflexivity.
Qed.

Lemma renderHistory_history ui : history (renderHistory ui) = history ui.
Proof. unfold renderHistory. now destruct (Nat.eqb _ _). Qed.

Lemma addToHistory_history now clock text voiceId duration ui ls :
  history (addToHistory JSON_stringify quota now clock text voiceId duration ui ls).1
  = unshift_capped
      (mkHistoryItem (js (pretty now)) (firstn 100 text) (voice_name voiceId)
         duration clock)
      (history ui).
Proof.
  unfold addToHistory. cbn [fst].
  destruct (Nat.ltb 0 _); [apply renderHistory_history | reflexivity].
Qed.

Lemma deleteHistoryItem_history itemId ui ls :
  history (deleteHistoryItem JSON_stringify quota itemId ui ls).1
  = List.filter (fun h => negb (jsstring_eqb (id h) itemId)) (history ui).
Proof. unfold deleteHistoryItem. cbn [fst]. apply renderHistory_history. Qed.

Lemma filter_length_le {A} (f : A -> bool) (l : list A) :
  (length (List.filter f l) <= length l)%nat.
Proof.
  induction l as [|x l IH]; simpl; [lia|]. destruct (f x); simpl; lia.
Qed.

Lemma step_bounded op s :
  (length (history s.1) <= 10)%nat ->
  (length (history (step JSON_stringify quota op s).1) <= 10)%nat.
Proof.
  intros H. destruct op; unfold step.
  - rewrite addToHistory_history. now apply unshift_capped_length.
  - rewrite deleteHistoryItem_history.
    etransitivity; [apply filter_length_le | exact H].
Qed.

Lemma run_bounded ops : forall s,
  (length (history s.1) <= 10)%nat ->
  (length (history (run JSON_stringify quota ops s).1) <= 10)%nat.
Proof.
  induction ops as [|op ops IH]; intros s H; [exact H|].
  apply IH. now apply step_bounded.
Qed.

(** Claim C10.  From a history of at most 10 items, after any sequence
    of [addToHistory] calls and deletions the history has at most 10
    items; and an [addToHistory] then puts the new item in front and,
    when the list already had 10 items, drops the last one. *)
Theorem history_never_exceeds_ten (ops : list history_op) (ui : UIController)
    (ls : gmap string jsstring) :
  (length (history ui) <= 10)%nat ->
  let s := run JSON_stringify quota ops (ui, ls) in
  (length (history s.1) <= 10)%nat
  /\ (forall now clock text voiceId duration,
        history (addToHistory JSON_stringify quota now clock text voiceId
                   duration s.1 s.2).1
        = mkHistoryItem (js (pretty now)) (firstn 100 text) (voice_name voiceId)
            duration clock
          :: (if Nat.eqb (length (history s.1)) 10
              then removelast (history s.1) else history s.1)).
Proof.
  intros H s.
  assert ((length (history s.1) <= 10)%nat) as Hs
    by (apply run_bounded; exact H).
  split; [exact Hs|].
  intros now clock text voiceId duration.
  rewrite addToHistory_history. now apply unshift_capped_shape.
Qed.

End HistoryFacts.

Lemma history_never_exceeds_ten_witness :
  (length (history
             (run demo_stringify quota_unlimited
                [OpAdd 1700000000011 (js "10:00:11 AM") (js "hello")
                   "en_GB-alan-medium" (JFin 3);
                 OpDelete (js "1700000000003")]
                (mkUIController (map history_item_demo (seq_Z 10)) false, ∅)).1)
   <= 10)%nat.
Proof.
  refine (proj1 (history_never_exceeds_ten demo_stringify quota_unlimited _ _ _ _)).
  vm_compute. repeat constructor.
Defined.

(** *** Persistence of the history *)

Lemma jsstring_eqb_refl (s : jsstring) : jsstring_eqb s s = true.
Proof. unfold jsstring_eqb. now apply bool_decide_eq_true. Qed.



Section StorageFacts.

Variable JSON_stringify : jsval -> result jsstring.
Variable JSON_parse : jsstring -> result jsval.
Variable quota : gmap string jsstring -> string -> jsstring -> bool.

Lemma getFromStorage_missing (ls : gmap string jsstring) key d :
  ls !! key = None -> getFromStorage JSON_parse ls key d = d.
Proof. intros H. unfold getFromStorage, jsstring in *. now rewrite H. Qed.





End StorageFacts.


(** ** More on the two encoders *)

(** *** Saturation *)

Lemma quantize_spec_range (neg pos : Z) (q : Q) :
  0 < neg -> 0 < pos -> - neg <= quantize_spec neg pos q <= pos.
Proof.
  intros Hneg Hpos. unfold quantize_spec. destruct q as [a d].
  destruct (Qle_bool (a # d) (-1)) eqn:E1; [lia|].
  destruct (Qle_bool 1 (a # d)) eqn:E2; [lia|].
  apply Qle_bool_gt in E1. apply Qle_bool_gt in E2. cbn [Qnum Qden] in E1, E2.
  rewrite !Qtrunc_scale. cbn [Qnum Qden].
  destruct (Qltb (a # d) 0) eqn:E3.
  - apply Qltb_lt in E3. cbn [Qnum Qden] in E3.
    destruct (quot_scaled_bounds a neg d Hneg ltac:(lia)) as (B & _ & N).
    specialize (N ltac:(lia)). lia.
  - apply Qltb_ge in E3. cbn [Qnum Qden] in E3.
    destruct (quot_scaled_bounds a pos d Hpos ltac:(lia)) as (B & P & _).
    specialize (P ltac:(lia)). lia.
Qed.

Lemma quantize_range (neg pos : Z) (x : f32) :
  0 < neg <= 2 ^ 31 -> 0 < pos < 2 ^ 31 ->
  - neg <= quantize neg pos x <= pos.
Proof.
  intros Hneg Hpos.
  destruct (quantize_special neg pos x Hneg Hpos) as (Hnan & Hpinf & Hninf).
  destruct (f32_value x) as [| | |q] eqn:Hx.
  - rewrite Hnan by reflexivity. lia.
  - rewrite Hpinf by reflexivity. lia.
  - rewrite Hninf by reflexivity. lia.
  - rewrite (quantize_finite neg pos x q Hx Hneg Hpos).
    apply quantize_spec_range; lia.
Qed.

(** X1: the quantisation both encoders share saturates.  For
    every Float32 bit pattern, NaN and the infinities included, the value
    computed for a 16-bit sample lies in [-32768, 32767] and the value
    computed for a 24-bit sample in [-8388608, 8388607]: storing it in
    its field never wraps around. *)
Theorem quantize_saturates (x : f32) :
  (- 2 ^ 15 <= quantize 0x8000 0x7fff x <= 2 ^ 15 - 1
   /\ wrap_signed 16 (quantize 0x8000 0x7fff x) = quantize 0x8000 0x7fff x)
  /\ (- 2 ^ 23 <= quantize 0x800000 0x7fffff x <= 2 ^ 23 - 1).
Proof.
  assert (- 2 ^ 15 <= quantize 0x8000 0x7fff x <= 2 ^ 15 - 1) as H16.
  { pose proof (quantize_range 0x8000 0x7fff x) as H.
    change (2 ^ 31) with 2147483648 in H. change (2 ^ 15) with 32768.
    specialize (H ltac:(lia) ltac:(lia)). lia. }
  repeat split; try (apply H16).
  - apply wrap_signed_small; [lia|]. change (2 ^ (16 - 1)) with (2 ^ 15). lia.
  - pose proof (quantize_range 0x800000 0x7fffff x) as H.
    change (2 ^ 31) with 2147483648 in H. change (2 ^ 23) with 8388608.
    specialize (H ltac:(lia) ltac:(lia)). lia.
  - pose proof (quantize_range 0x800000 0x7fffff x) as H.
    change (2 ^ 31) with 2147483648 in H. change (2 ^ 23) with 8388608.
    specialize (H ltac:(lia) ltac:(lia)). lia.
Qed.

(** *** Where a sample ends up *)

Lemma nth_flat_map_const {A B} (g : A -> list B) (k : nat) (d : B) (l : list A) :
  (forall a, length (g a) = k) ->
  forall (i j : nat) (a0 : A), (i < length l)%nat -> (j < k)%nat ->
  nth (i * k + j) (flat_map g l) d = nth j (g (nth i l a0)) d.
Proof.
  intros Hk. induction l as [|a l IH]; intros i j a0 Hi Hj; [cbn in Hi; lia|].
  cbn [flat_map]. destruct i as [|i].
  - cbn [Nat.mul Nat.add nth]. rewrite app_nth1 by (rewrite Hk; lia). reflexivity.
  - rewrite app_nth2 by (rewrite Hk; lia). rewrite Hk.
    replace (S i * k + j - k)%nat with (i * k + j)%nat by lia.
    cbn [nth]. apply IH; [cbn [length] in Hi; lia | exact Hj].
Qed.

Lemma nth_interleave (ab : AudioBuffer) (f c : nat) :
  (f < ab_length ab)%nat -> (c < length (ab_channels ab))%nat ->
  nth (f * length (ab_channels ab) + c) (interleave ab) f32_nan
  = nth f (nth c (ab_channels ab) []) f32_nan.
Proof.
  intros Hf Hc. unfold interleave.
  rewrite (nth_flat_map_const _ (length (ab_channels ab)) f32_nan _
             ltac:(intros; apply length_map) f c 0%nat)
    by (rewrite ?length_seq; lia).
  rewrite seq_nth by lia. cbn [Nat.add].
  rewrite (nth_indep _ f32_nan (nth f [] f32_nan)) by (rewrite length_map; lia).
  rewrite (map_nth (fun ch => nth f ch f32_nan)). reflexivity.
Qed.

Lemma nth_concat_sample_bytes (bd : Z) (k : nat) (data : list f32) :
  (forall x, length (sample_bytes bd x) = k) ->
  forall (i j : nat), (i < length data)%nat -> (j < k)%nat ->
  nth (i * k + j) (concat (map (sample_bytes bd) data)) 0
  = nth j (sample_bytes bd (nth i data f32_nan)) 0.
Proof.
  intros Hk i j Hi Hj. rewrite <- flat_map_concat_map.
  now apply nth_flat_map_const.
Qed.

Lemma byte_at_body (hdr body : list Z) (off : nat) :
  length hdr = 44%nat -> byte_at (hdr ++ body) (44 + off) = nth off body 0.
Proof.
  intros H. unfold byte_at. rewrite app_nth2 by lia. f_equal. lia.
Qed.

Lemma le24_value v :
  0 <= v < 2 ^ 24 ->
  Z.land v 255 + 2 ^ 8 * Z.land (Z.shiftr v 8) 255
  + 2 ^ 16 * Z.land (Z.shiftr (Z.shiftr v 8) 8) 255 = v.
Proof.
  intros H. rewrite !land255_mod, !Z.shiftr_div_pow2 by lia.
  change (2 ^ 8) with 256. change (2 ^ 16) with 65536.
  change (2 ^ 24) with 16777216 in H.
  Z.div_mod_to_equations. lia.
Qed.

Lemma wrap_signed_of_mod (w z : Z) :
  0 < w -> wrap_signed w (z mod 2 ^ w) = wrap_signed w z.
Proof.
  intros Hw. unfold wrap_signed. rewrite Z.mod_mod; [reflexivity|].
  apply Z.pow_nonzero; lia.
Qed.

Lemma read_int16 (v : Z) :
  - 2 ^ 15 <= v < 2 ^ 15 ->
  wrap_signed 16 (nth 0 (le_bytes 2 v) 0 + 2 ^ 8 * nth 1 (le_bytes 2 v) 0) = v.
Proof.
  intros Hv. rewrite <- (le_bytes_mod 2 v). change (8 * Z.of_nat 2) with 16.
  cbn [le_bytes nth].
  rewrite le16_value by (apply Z.mod_pos_bound; reflexivity).
  rewrite wrap_signed_of_mod by lia. apply wrap_signed_small; [lia|exact Hv].
Qed.

Lemma read_int24 (v : Z) :
  - 2 ^ 23 <= v < 2 ^ 23 ->
  wrap_signed 24 (nth 0 (le_bytes 3 v) 0 + 2 ^ 8 * nth 1 (le_bytes 3 v) 0
                  + 2 ^ 16 * nth 2 (le_bytes 3 v) 0) = v.
Proof.
  intros Hv. rewrite <- (le_bytes_mod 3 v). change (8 * Z.of_nat 3) with 24.
  cbn [le_bytes nth].
  rewrite le24_value by (apply Z.mod_pos_bound; reflexivity).
  rewrite wrap_signed_of_mod by lia. apply wrap_signed_small; [lia|exact Hv].
Qed.

Lemma read_uint32 (v : Z) :
  0 <= v < 2 ^ 32 ->
  nth 0 (le_bytes 4 v) 0 + 2 ^ 8 * nth 1 (le_bytes 4 v) 0
  + 2 ^ 16 * nth 2 (le_bytes 4 v) 0 + 2 ^ 24 * nth 3 (le_bytes 4 v) 0 = v.
Proof. intros Hv. cbn [le_bytes nth]. now apply le32_value. Qed.

Lemma effective_bitDepth (bitDepth : Z) :
  let bd := if valid_bitDepth bitDepth then bitDepth else 16 in
  (bd = 16 \/ bd = 24 \/ bd = 32) /\ (bd = 32 <-> bitDepth = 32).
Proof.
  unfold valid_bitDepth. cbn [existsb].
  destruct (Z.eqb_spec bitDepth 16); [cbn; lia|].
  destruct (Z.eqb_spec bitDepth 24); [cbn; lia|].
  destruct (Z.eqb_spec bitDepth 32); cbn; lia.
Qed.

(** *** A float stored again *)

Lemma lor_quiet_mod (b : Z) :
  0 <= b < 2 ^ 32 -> Z.lor b 0x400000 mod 2 ^ 32 = Z.lor b 0x400000.
Proof.
  intros Hb. rewrite <- !Z.land_ones by lia. rewrite Z.land_lor_distr_l.
  rewrite !Z.land_ones by lia. rewrite (Z.mod_small b) by exact Hb. reflexivity.
Qed.

Lemma f32_stored_range (x : f32) : 0 <= f32_stored x < 2 ^ 32.
Proof.
  assert (0 <= x mod 2 ^ 32 < 2 ^ 32) as Hb by (apply Z.mod_pos_bound; reflexivity).
  unfold f32_stored. cbv zeta. destruct (f32_value x); try exact Hb.
  rewrite <- (lor_quiet_mod _ Hb). apply Z.mod_pos_bound. reflexivity.
Qed.

(** Every value but a NaN gets its own pattern back. *)
Lemma f32_stored_value (x : f32) :
  f32_value x <> JNaN -> f32_stored x = x mod 2 ^ 32.
Proof.
  intros H. unfold f32_stored. cbv zeta. destruct (f32_value x); congruence.
Qed.

(** A NaN is stored as a NaN. *)
Lemma f32_stored_nan (x : f32) :
  f32_value x = JNaN -> f32_value (f32_stored x) = JNaN.
Proof.
  intros H. unfold f32_stored. cbv zeta. rewrite H.
  assert (0 <= x mod 2 ^ 32 < 2 ^ 32) as Hb by (apply Z.mod_pos_bound; reflexivity).
  assert (Z.land (Z.shiftr (x mod 2 ^ 32) 23) 255 = 255) as He.
  { unfold f32_value in H. cbv zeta in H.
    destruct (Z.eqb_spec (Z.land (Z.shiftr (x mod 2 ^ 32) 23) 255) 255) as [E|E];
      [exact E|discriminate H]. }
  unfold f32_value. cbv zeta. rewrite (lor_quiet_mod _ Hb).
  rewrite Z.shiftr_lor, !Z.land_lor_distr_l.
  change (Z.land (Z.shiftr 0x400000 23) 255) with 0.
  change (Z.land 0x400000 (2 ^ 23 - 1)) with 0x400000.
  rewrite Z.lor_0_r, He. change (255 =? 255) with true. cbv iota.
  destruct (Z.eqb_spec (Z.lor (Z.land (x mod 2 ^ 32) (2 ^ 23 - 1)) 0x400000) 0) as [E|E];
    [|reflexivity].
  apply Z.lor_eq_0_iff in E. destruct E as [_ E]. discriminate E.
Qed.

(** X2: [bufferToWave] interleaves and the stored samples read
    back.  In every buffer the call returns, the sample of frame [f] in
    channel [c] is sample number [f * channels + c] of the data chunk:
    at 16 bit the signed 16-bit integer at byte
    [44 + 2 * (f * channels + c)] is its quantised value, at 24 bit the
    signed 24-bit integer at [44 + 3 * (f * channels + c)] is, and at 32
    bit the four bytes at [44 + 4 * (f * channels + c)] hold the
    sample's Float32 bit pattern unchanged unless the sample is a NaN,
    for which they hold the pattern of a NaN. *)
Theorem bufferToWave_sample_at (ab : AudioBuffer) (bitDepth : Z) (f c : nat)
    (buf : bytes) :
  let bd := if valid_bitDepth bitDepth then bitDepth else 16 in
  let channels := length (ab_channels ab) in
  let x := nth f (nth c (ab_channels ab) []) f32_nan in
  let i := (f * channels + c)%nat in
  bufferToWave ab bitDepth = Ok buf ->
  (f < ab_length ab)%nat -> (c < channels)%nat ->
  (bd = 16 -> getInt16 buf (44 + 2 * i) = quantize 0x8000 0x7fff x)
  /\ (bd = 24 -> getInt24 buf (44 + 3 * i) = quantize 0x800000 0x7fffff x)
  /\ (bd = 32 ->
      match f32_value x with
      | JNaN => f32_value (getUint32 buf (44 + 4 * i)) = JNaN
      | _ => getUint32 buf (44 + 4 * i) = x mod 2 ^ 32
      end).
Proof.
  intros bd channels x i Hok Hf Hc.
  pose proof (bufferToWave_returns ab bitDepth buf Hok) as Halloc.
  pose proof (bufferToWave_layout ab bitDepth Halloc) as L. cbv zeta in L. fold bd in L.
  rewrite L in Hok.
  match type of Hok with Ok ?t = Ok _ => assert (buf = t) as -> by congruence end.
  clear Hok L.
  assert (i < length (interleave ab))%nat as Hi.
  { rewrite interleave_length. unfold i. fold channels. nia. }
  assert (nth i (interleave ab) f32_nan = x) as Hx
    by (apply nth_interleave; assumption).
  split; [|split]; intros Hbd; rewrite Hbd.
  - unfold getInt16, getUint16.
    replace (44 + 2 * i + 1)%nat with (44 + (2 * i + 1))%nat by lia.
    rewrite !byte_at_body by apply riff_header_length.
    replace (2 * i)%nat with (i * 2 + 0)%nat by lia.
    replace (i * 2 + 0 + 1)%nat with (i * 2 + 1)%nat by lia.
    rewrite !(nth_concat_sample_bytes 16 2 _ sample_bytes_len16) by lia.
    rewrite Hx. change (sample_bytes 16 x) with (le_bytes 2 (quantize 0x8000 0x7fff x)).
    apply read_int16.
    pose proof (quantize_range 0x8000 0x7fff x) as H.
    change (2 ^ 31) with 2147483648 in H. change (2 ^ 15) with 32768.
    specialize (H ltac:(lia) ltac:(lia)). lia.
  - unfold getInt24.
    replace (44 + 3 * i + 1)%nat with (44 + (3 * i + 1))%nat by lia.
    replace (44 + 3 * i + 2)%nat with (44 + (3 * i + 2))%nat by lia.
    rewrite !byte_at_body by apply riff_header_length.
    replace (3 * i)%nat with (i * 3 + 0)%nat by lia.
    replace (i * 3 + 0 + 1)%nat with (i * 3 + 1)%nat by lia.
    replace (i * 3 + 0 + 2)%nat with (i * 3 + 2)%nat by lia.
    rewrite !(nth_concat_sample_bytes 24 3 _ sample_bytes_len24) by lia.
    rewrite Hx.
    change (sample_bytes 24 x) with (le_bytes 3 (quantize 0x800000 0x7fffff x)).
    apply read_int24.
    pose proof (quantize_range 0x800000 0x7fffff x) as H.
    change (2 ^ 31) with 2147483648 in H. change (2 ^ 23) with 8388608.
    specialize (H ltac:(lia) ltac:(lia)). lia.
  - match goal with
    | |- context [getUint32 ?b ?o] => assert (getUint32 b o = f32_stored x) as ->
    end.
    { unfold getUint32.
      replace (44 + 4 * i + 1)%nat with (44 + (4 * i + 1))%nat by lia.
      replace (44 + 4 * i + 2)%nat with (44 + (4 * i + 2))%nat by lia.
      replace (44 + 4 * i + 3)%nat with (44 + (4 * i + 3))%nat by lia.
      rewrite !byte_at_body by apply riff_header_length.
      replace (4 * i)%nat with (i * 4 + 0)%nat by lia.
      replace (i * 4 + 0 + 1)%nat with (i * 4 + 1)%nat by lia.
      replace (i * 4 + 0 + 2)%nat with (i * 4 + 2)%nat by lia.
      replace (i * 4 + 0 + 3)%nat with (i * 4 + 3)%nat by lia.
      rewrite !(nth_concat_sample_bytes 32 4 _ sample_bytes_len32) by lia.
      rewrite Hx. change (sample_bytes 32 x) with (le_bytes 4 (f32_stored x)).
      apply read_uint32. apply f32_stored_range. }
    destruct (f32_value x) eqn:E;
      [now apply f32_stored_nan | apply f32_stored_value; congruence ..].
Qed.

(** A stereo buffer of two frames at 24 bit: frame 1 of channel 0 holds
    -1.0 and is read back as -8388608 from byte 44 + 3 * 2.  At 32 bit
    the signalling NaN 0x7F800001 of a mono buffer is stored as a NaN. *)
Lemma bufferToWave_sample_at_witness :
  (exists buf,
     bufferToWave (mkAudioBuffer 48000 2 [[0x3F000000; 0xBF800000]; [0; 0]]) 24 = Ok buf
     /\ getInt24 buf 50 = - 8388608)
  /\ (exists buf,
        bufferToWave (mkAudioBuffer 48000 1 [[0x7F800001]]) 32 = Ok buf
        /\ f32_value (getUint32 buf 44) = JNaN).
Proof.
  split.
  - eexists. split; [vm_compute; reflexivity|].
    match goal with
    | |- getInt24 ?b _ = _ =>
        destruct (bufferToWave_sample_at
                    (mkAudioBuffer 48000 2 [[0x3F000000; 0xBF800000]; [0; 0]]) 24 1 0 b)
          as (_ & H24 & _)
    end.
    + vm_compute. reflexivity.
    + cbn. lia.
    + cbn. lia.
    + etransitivity; [exact (H24 eq_refl)|]. vm_compute. reflexivity.
  - eexists. split; [vm_compute; reflexivity|].
    match goal with
    | |- f32_value (getUint32 ?b _) = _ =>
        destruct (bufferToWave_sample_at
                    (mkAudioBuffer 48000 1 [[0x7F800001]]) 32 0 0 b)
          as (_ & _ & H32)
    end.
    + vm_compute. reflexivity.
    + cbn. lia.
    + cbn. lia.
    + exact (H32 eq_refl).
Defined.

(** *** The two encoders on the same input *)

Lemma flat_map_singleton {A B} (g : A -> B) (l : list A) :
  flat_map (fun a => [g a]) l = map g l.
Proof. induction l as [|a l IH]; [reflexivity|]. cbn [flat_map map app]. now rewrite IH. Qed.

Lemma map_nth_seq_all {A} (l : list A) (d : A) :
  map (fun i => nth i l d) (seq 0 (length l)) = l.
Proof.
  apply nth_ext with (d := d) (d' := d).
  - now rewrite length_map, length_seq.
  - intros n Hn. rewrite length_map, length_seq in Hn.
    rewrite (nth_indep _ d (nth 0 l d)) by (rewrite length_map, length_seq; lia).
    rewrite (map_nth (fun i => nth i l d)), seq_nth by lia. reflexivity.
Qed.

Lemma interleave_mono (pcm : list f32) (sr : Z) :
  interleave (mkAudioBuffer sr (length pcm) [pcm]) = pcm.
Proof.
  unfold interleave. cbn [ab_length ab_channels map].
  rewrite (flat_map_singleton (fun i => nth i pcm f32_nan)).
  apply map_nth_seq_all.
Qed.

(** X3: on a mono buffer the two encoders agree.  For every
    requested bit depth other than 24 and 32, [AudioEngine.bufferToWave]
    applied to the one-channel buffer [PiperEngine.pcmToAudioBuffer]
    builds from [pcm] returns exactly what [PiperEngine.pcmToWav] returns
    for [pcm] with one channel and 16 bit at the buffer's sample rate,
    the thrown [RangeError] included when the buffer cannot be allocated. *)
Theorem encoders_agree_on_mono (pcm : list f32) (sampleRate bitDepth : Z) :
  bitDepth <> 24 -> bitDepth <> 32 ->
  bufferToWave (mkAudioBuffer sampleRate (length pcm) [pcm]) bitDepth
  = pcmToWav pcm sampleRate 1 16.
Proof.
  intros H24 H32. unfold bufferToWave, pcmToWav.
  rewrite interleave_mono. cbn [ab_sampleRate].
  change (numberOfChannels (mkAudioBuffer sampleRate (length pcm) [pcm])) with 1.
  assert ((if valid_bitDepth bitDepth then bitDepth else 16) = 16) as ->.
  { destruct (effective_bitDepth bitDepth) as ([E | [E | E]] & H); cbv zeta in *.
    - exact E.
    - unfold valid_bitDepth in E. cbn [existsb] in E.
      destruct (Z.eqb_spec bitDepth 16); [cbn in E; lia|].
      destruct (Z.eqb_spec bitDepth 24); [lia|].
      destruct (Z.eqb_spec bitDepth 32); [lia|]. cbn in E. lia.
    - apply H in E. lia. }
  destruct (Z.eqb_spec bitDepth 32) as [|_]; [lia|].
  destruct (ArrayBuffer_new _); [|reflexivity]. cbn [mbind result_bind].
  destruct (writeHeader _ _ _ _ _ _ _); reflexivity.
Qed.

Lemma encoders_agree_on_mono_witness :
  bufferToWave (mkAudioBuffer 22050 2 [[0x3F000000; 0xBF800000]]) 8
  = pcmToWav [0x3F000000; 0xBF800000] 22050 1 16.
Proof.
  apply (encoders_agree_on_mono [0x3F000000; 0xBF800000] 22050 8); lia.
Defined.

(** *** The format tag *)

Lemma riff_header_format dl f ch sr ba bd rest :
  getUint16 (riff_header dl f ch sr ba bd ++ rest) 20 = ToUint 16 (inject_Z f).
Proof.
  unfold riff_header.
  change (char_codes "RIFF") with [82; 73; 70; 70].
  change (char_codes "WAVE") with [87; 65; 86; 69].
  change (char_codes "fmt ") with [102; 109; 116; 32].
  pose proof (ToUint_range 16 (inject_Z f) ltac:(lia)).
  cbn [le_bytes app getUint16 byte_at nth Nat.add].
  now apply le16_value.
Qed.

(** X4: the format tag matches the sample encoding.  In
    every buffer [bufferToWave] returns, the audio format at offset 20
    is 3 (IEEE float) exactly when the effective bit depth is 32, and
    then the data chunk holds, for samples none of which is a NaN, their
    32-bit float patterns; it is 1 (PCM) otherwise, and then the data
    chunk holds the 16- or 24-bit integers.  Every buffer [pcmToWav]
    returns has format 1. *)
Theorem format_tag_matches_encoding :
  (forall (ab : AudioBuffer) (bitDepth : Z) (buf : bytes),
     let bd := if valid_bitDepth bitDepth then bitDepth else 16 in
     bufferToWave ab bitDepth = Ok buf ->
     getUint16 buf 20 = (if bd =? 32 then 3 else 1)
     /\ (bd <> 32 ->
         skipn 44 buf = concat (map (sample_bytes bd) (interleave ab)))
     /\ (bd = 32 ->
         Forall (fun x => f32_value x <> JNaN) (interleave ab) ->
         skipn 44 buf
         = concat (map (fun x => le_bytes 4 (x mod 2 ^ 32)) (interleave ab))))
  /\ (forall (pcmData : list f32) (sampleRate channels bitDepth : Z) (buf : bytes),
        pcmToWav pcmData sampleRate channels bitDepth = Ok buf ->
        getUint16 buf 20 = 1).
Proof.
  split.
  - intros ab bitDepth buf bd Hok.
    pose proof (bufferToWave_returns ab bitDepth buf Hok) as Halloc.
    pose proof (bufferToWave_layout ab bitDepth Halloc) as L. cbv zeta in L. fold bd in L.
    rewrite L in Hok.
    match type of Hok with Ok ?t = Ok _ => assert (buf = t) as -> by congruence end.
    clear Hok L.
    assert (forall rest : list Z,
              skipn 44 (riff_header
                          (inject_Z (Z.of_nat (length (interleave ab)))
                           * (inject_Z bd / 8))%Q
                          (if bitDepth =? 32 then 3 else 1) (numberOfChannels ab)
                          (ab_sampleRate ab)
                          (inject_Z (numberOfChannels ab) * (inject_Z bd / 8))%Q bd
                        ++ rest) = rest) as Hskip.
    { intros rest.
      rewrite skipn_app, skipn_all2, riff_header_length
        by (rewrite riff_header_length; lia).
      rewrite Nat.sub_diag, skipn_O. reflexivity. }
    split; [|split].
    + rewrite riff_header_format.
      destruct (effective_bitDepth bitDepth) as (_ & H32). cbv zeta in H32. fold bd in H32.
      destruct (Z.eqb_spec bitDepth 32) as [E|E], (Z.eqb_spec bd 32) as [E'|E'];
        try reflexivity; tauto.
    + intros _. apply Hskip.
    + intros Hbd Hnan. rewrite Hskip, Hbd. f_equal.
      apply map_ext_in. intros x Hx.
      change (sample_bytes 32 x) with (le_bytes 4 (f32_stored x)).
      rewrite f32_stored_value; [reflexivity|].
      rewrite List.Forall_forall in Hnan. now apply Hnan.
  - intros pcmData sampleRate channels bitDepth buf Hok.
    destruct (pcmToWav_returns pcmData sampleRate channels bitDepth buf Hok)
      as [Hb Halloc].
    pose proof (pcmToWav_layout pcmData sampleRate channels bitDepth Hb Halloc) as L.
    cbv zeta in L. rewrite L in Hok.
    match type of Hok with Ok ?t = Ok _ => assert (buf = t) as -> by congruence end.
    apply riff_header_format.
Qed.

Lemma format_tag_matches_encoding_witness :
  exists buf,
    bufferToWave (mkAudioBuffer 48000 1 [[0x3F000000]]) 32 = Ok buf
    /\ getUint16 buf 20 = 3
    /\ skipn 44 buf = [0; 0; 0; 63].
Proof.
  eexists. split; [vm_compute; reflexivity|].
  match goal with
  | |- getUint16 ?b _ = _ /\ _ =>
      destruct (proj1 format_tag_matches_encoding
                  (mkAudioBuffer 48000 1 [[0x3F000000]]) 32 b)
        as (Htag & _ & Hdata)
  end.
  - vm_compute. reflexivity.
  - split; [exact Htag|].
    etransitivity; [apply (Hdata eq_refl)|vm_compute; reflexivity].
    repeat constructor. vm_compute. discriminate.
Defined.

(** ** More on the engines *)

(** *** What each step of [PiperEngine] touches *)

Lemma same_engine_refl pe : same_engine pe pe.
Proof. repeat split. Qed.

Lemma same_engine_trans a b c : same_engine a b -> same_engine b c -> same_engine a c.
Proof.
  intros (A1 & A2 & A3 & A4 & A5) (B1 & B2 & B3 & B4 & B5).
  repeat split; congruence.
Qed.

Lemma getAudioContext_spec (env : Env) (pe : PiperEngine) (tr : list event) :
  exists b pe',
    Piper_getAudioContext env pe tr = (Ok b, pe', tr)
    /\ audioContext pe' = b /\ same_engine pe pe'
    /\ (audioContext pe = true -> b = true /\ pe' = pe).
Proof.
  unfold Piper_getAudioContext, Piper_initAudioContext. run_m.
  destruct (audioContext pe) eqn:Hc.
  - exists true, pe. rewrite Hc. repeat split; auto.
  - destruct (env_newAudioContext env) as [[[]|e]|].
    + exists true, (set_audioContext true pe). repeat split; auto; discriminate.
    + exists false, pe. rewrite Hc. repeat split; auto; discriminate.
    + exists false, pe. rewrite Hc. repeat split; auto; discriminate.
Qed.

Lemma pcmToAudioBuffer_spec (env : Env) (pcm : list f32) (pe : PiperEngine)
    (tr : list event) :
  exists pe',
    same_engine pe pe'
    /\ (audioContext pe = true -> pe' = pe)
    /\ ((exists e, Piper_pcmToAudioBuffer env pcm pe tr = (Throw e, pe', tr))
        \/ (exists e, Piper_pcmToAudioBuffer env pcm pe tr
                      = (Throw e, pe', tr ++ [EvCreateBuffer (Z.of_nat (length pcm))]))
        \/ (Piper_pcmToAudioBuffer env pcm pe tr
            = (Ok (mkAudioBuffer 22050 (length pcm) [pcm]), pe',
               tr ++ [EvCreateBuffer (Z.of_nat (length pcm))])
            /\ pcm <> [] /\ audioContext pe' = true)).
Proof.
  destruct (getAudioContext_spec env pe tr) as (b & pe' & Hg & Hb & Hs & Hsame).
  exists pe'. split; [exact Hs|]. split; [intros H; now apply Hsame|].
  unfold Piper_pcmToAudioBuffer. run_m. rewrite Hg.
  destruct b; cbn [negb].
  - destruct pcm as [|x pcm]; cbn [length Nat.eqb].
    + right. left. eauto.
    + right. right. repeat split; [discriminate | exact Hb].
  - left. eauto.
Qed.

Lemma callLibrary_spec (text : jsstring) (voiceId : string) (lengthScale : Q)
    (pe : PiperEngine) (tr : list event) :
  exists r,
    Piper_callLibrary text voiceId lengthScale pe tr = (r, pe, tr)
    \/ exists m, Piper_callLibrary text voiceId lengthScale pe tr
                 = (r, pe, tr ++ [EvPiper m text]).
Proof.
  unfold Piper_callLibrary. run_m.
  destruct (piper pe) as [lib|]; [|eauto].
  destruct (lib_generate lib) as [g|].
  { destruct (g text _) as [[a sr|a|b|raw sr|]|e]; eauto.
    destruct (Float32Array_of_buffer b); eauto. }
  destruct (lib_synthesize lib) as [sy|].
  { destruct (sy text voiceId lengthScale); eauto. }
  destruct (lib_synthesizeToSpeech lib) as [sp|].
  { destruct (sp text voiceId); eauto. }
  destruct (lib_Settings lib) as [[[]|e]|]; eauto.
Qed.

(** Without a library instance nothing is called. *)
Lemma callLibrary_no_piper (text : jsstring) (voiceId : string) (lengthScale : Q)
    (pe : PiperEngine) (tr : list event) :
  piper pe = None ->
  Piper_callLibrary text voiceId lengthScale pe tr = (Throw TypeError, pe, tr).
Proof. intros H. unfold Piper_callLibrary. run_m. now rewrite H. Qed.

Lemma find_voice_some (voiceId : string) (vs : list Voice) (v : Voice) :
  find_voice voiceId vs = Some v -> In v vs /\ v_id v = voiceId.
Proof.
  unfold find_voice. intros H. apply find_some in H as [Hin Heq].
  split; [exact Hin|]. now apply String.eqb_eq.
Qed.

Ltac lv_case :=
  do 3 eexists; split; [reflexivity|]; rewrite <- ?app_assoc; cbn [app];
  repeat split; intros; try reflexivity; try discriminate; eauto.

(** [loadVoiceModel]: it either leaves the engine and the trace as they
    are, or fetches the two files of a listed voice; it changes the engine
    only when it returns, and then only the selected voice and the cached
    model. *)
Lemma loadVoiceModel_spec (env : Env) (voiceId : string) (pe : PiperEngine)
    (tr : list event) :
  exists r pe' tr',
    Piper_loadVoiceModel env voiceId pe tr = (r, pe', tr')
    /\ (tr' = tr
        \/ exists v, find_voice voiceId (voices pe) = Some v
                     /\ tr' = tr ++ [EvFetch (v_modelPath v);
                                     EvFetch (v_modelPath v ++ ".json")])
    /\ (pe' = pe
        \/ exists m c, is_ok r = true
                       /\ pe' = loaded_state voiceId m c pe)
    /\ (is_ok r = false -> pe' = pe)
    /\ (piper pe = None -> is_ok r = false /\ tr' = tr).
Proof.
  unfold Piper_loadVoiceModel. run_m.
  destruct (piper pe) as [lib|].
  2:{ lv_case. }
  destruct (cached_for voiceId (currentModelData pe)).
  { lv_case. }
  destruct (find_voice voiceId (voices pe)) as [v|] eqn:Hv.
  2:{ lv_case. }
  destruct (env_fetch env (v_modelPath v)) as [mr|e1].
  2:{ lv_case. }
  destruct (env_fetch env (v_modelPath v ++ ".json")) as [cr|e2].
  2:{ lv_case. }
  destruct (resp_ok mr); cbn [negb].
  2:{ lv_case. }
  destruct (resp_ok cr); cbn [negb].
  2:{ lv_case. }
  destruct (resp_arrayBuffer mr) as [m|e3].
  2:{ lv_case. }
  destruct (resp_json cr) as [c|e4].
  2:{ lv_case. }
  lv_case.
Qed.

Lemma run_bind {S A B} (m : M S A) (f : A -> M S B) (s : S) (t : list event) :
  (m ≫= f) s t
  = match m s t with
    | (Ok a, s', t') => f a s' t'
    | (Throw e, s', t') => (Throw e, s', t')
    end.
Proof. reflexivity. Qed.

Lemma run_get {S} (s : S) (t : list event) : get s t = (Ok s, s, t).
Proof. reflexivity. Qed.

Lemma run_ret {S A} (a : A) (s : S) (t : list event) :
  (mret a : M S A) s t = (Ok a, s, t).
Proof. reflexivity. Qed.

Lemma run_try {S A} (m : M S A) (h : exn -> M S A) (s : S) (t : list event) :
  try_catch m h s t
  = match m s t with
    | (Ok a, s', t') => (Ok a, s', t')
    | (Throw e, s', t') => h e s' t'
    end.
Proof. reflexivity. Qed.

(** What a successful [synthesizeToSpeech] shows about its arguments,
    its result and the engine it leaves. *)
Lemma synthesizeToSpeech_ok (env : Env) (text : text_arg) (options : SynthOptions)
    (pe pe' : PiperEngine) (tr tr' : list event) (r : PiperResult) :
  Piper_synthesizeToSpeech env text options pe tr = (Ok r, pe', tr') ->
  isInitialized pe = true
  /\ text_is_empty text = false
  /\ or_string (opt_voiceId options) (selectedVoice pe) = Some (pr_voiceId r)
  /\ pr_voiceId r <> EmptyString
  /\ pr_success r = true
  /\ pr_text r = text_string text
  /\ pr_pcm r <> []
  /\ pr_audioBuffer r = mkAudioBuffer 22050 (length (pr_pcm r)) [pr_pcm r]
  /\ pr_duration r = (inject_Z (Z.of_nat (length (pr_pcm r))) / 22050)%Q
  /\ audioContext pe' = true
  /\ isInitialized pe' = true
  /\ piper pe' = piper pe
  /\ voices pe' = voices pe.
Proof.
  unfold Piper_synthesizeToSpeech. rewrite run_bind, run_get.
  destruct (isInitialized pe) eqn:Hinit; cbn [negb]; [|discriminate].
  destruct (text_is_empty text) eqn:Htext; [discriminate|].
  destruct (or_string (opt_voiceId options) (selectedVoice pe)) as [voiceId|] eqn:Hv;
    [|discriminate].
  destruct (String.eqb voiceId EmptyString) eqn:Hne; [discriminate|].
  apply String.eqb_neq in Hne.
  assert ((exists pe1 tr1,
              (if same_voice (selectedVoice pe) voiceId then mret tt
               else Piper_loadVoiceModel env voiceId;; mret tt) pe tr
              = (Ok tt, pe1, tr1)
              /\ isInitialized pe1 = true /\ piper pe1 = piper pe
              /\ voices pe1 = voices pe)
           \/ (exists e pe1 tr1,
              (if same_voice (selectedVoice pe) voiceId then mret tt
               else Piper_loadVoiceModel env voiceId;; mret tt) pe tr
              = (Throw e, pe1, tr1))) as Hstep.
  { destruct (same_voice (selectedVoice pe) voiceId).
    - left. exists pe, tr. repeat split; auto.
    - destruct (loadVoiceModel_spec env voiceId pe tr)
        as (r0 & pe1 & tr1 & Hl & _ & Hpe & _).
      rewrite run_bind, Hl. destruct r0 as [v|e].
      + left. exists pe1, tr1. split; [reflexivity|].
        destruct Hpe as [->|(m & c & _ & ->)]; repeat split; auto.
      + right. eauto. }
  rewrite run_bind.
  destruct Hstep as [(pe1 & tr1 & Hs & Hi1 & Hp1 & Hv1)|(e & pe1 & tr1 & Hs)];
    rewrite Hs; [|discriminate].
  rewrite run_bind, run_try.
  destruct (callLibrary_spec (text_string text) voiceId
              (or_Q (opt_lengthScale options) 1) pe1 tr1) as (rc & Hc).
  assert (exists trc, Piper_callLibrary (text_string text) voiceId
                        (or_Q (opt_lengthScale options) 1) pe1 tr1 = (rc, pe1, trc))
    as (trc & Hc') by (destruct Hc as [Hc|(m & Hc)]; eauto).
  rewrite Hc'. clear Hc.
  assert (forall audio sampleRate,
            (audioBuffer ← Piper_pcmToAudioBuffer env audio;
             mret (mkPiperResult true audio audioBuffer (or_Z sampleRate 22050)
                     (inject_Z (Z.of_nat (ab_length audioBuffer)) / 22050)%Q
                     (text_string text) voiceId)) pe1 trc = (Ok r, pe', tr') ->
            Some voiceId = Some (pr_voiceId r)
            /\ pr_voiceId r <> EmptyString
            /\ pr_success r = true
            /\ pr_text r = text_string text
            /\ pr_pcm r <> []
            /\ pr_audioBuffer r = mkAudioBuffer 22050 (length (pr_pcm r)) [pr_pcm r]
            /\ pr_duration r = (inject_Z (Z.of_nat (length (pr_pcm r))) / 22050)%Q
            /\ audioContext pe' = true
            /\ isInitialized pe' = true
            /\ piper pe' = piper pe
            /\ voices pe' = voices pe) as Hfin.
  { intros audio sampleRate. rewrite run_bind.
    destruct (pcmToAudioBuffer_spec env audio pe1 trc)
      as (pe2 & (S1 & S2 & S3 & S4 & S5) & _ & [(e & Hb)|[(e & Hb)|(Hb & Hne' & Hctx)]]);
      rewrite Hb; try discriminate.
    rewrite run_ret.
    intros [= <- <- <-]. cbn [pr_voiceId pr_success pr_text pr_pcm pr_audioBuffer
                               pr_duration ab_length].
    repeat split; auto; congruence. }
  destruct rc as [[audio sr|]|e].
  - intros H. repeat split; try reflexivity; apply (Hfin audio sr H).
  - discriminate.
  - rewrite run_ret. intros H.
    repeat split; try reflexivity; apply (Hfin silence (Some 22050) H).
Qed.

Lemma run_put {S} (x s : S) (t : list event) : put x s t = (Ok tt, x, t).
Proof. reflexivity. Qed.

Lemma run_throw {S A} (e : exn) (s : S) (t : list event) :
  (throw e : M S A) s t = (Throw e, s, t).
Proof. reflexivity. Qed.

Lemma run_zoom {S T A} (proj : S -> T) (upd : T -> S -> S) (m : M T A)
    (s : S) (t : list event) :
  zoom proj upd m s t = ((m (proj s) t).1.1, upd (m (proj s) t).1.2 s, (m (proj s) t).2).
Proof. unfold zoom. now destruct (m (proj s) t) as [[r x] t']. Qed.

(** What [synthesizeToSpeech] adds to the trace: the fetches of
    [loadVoiceModel], if the voice to use is not the selected one, then
    events that are neither fetches nor utterances.  It never changes the
    library instance, the voice list or [isInitialized]. *)
Lemma synthesizeToSpeech_frame (env : Env) (text : text_arg) (options : SynthOptions)
    (pe : PiperEngine) (tr : list event) :
  exists r pe' loads calls,
    Piper_synthesizeToSpeech env text options pe tr = (r, pe', tr ++ loads ++ calls)
    /\ Forall (fun ev => is_fetch ev = true) loads
    /\ Forall (fun ev => is_fetch ev = false /\ is_speak ev = false) calls
    /\ piper pe' = piper pe /\ isInitialized pe' = isInitialized pe
    /\ voices pe' = voices pe
    /\ ((loads = [] /\ currentModelData pe' = currentModelData pe
         /\ selectedVoice pe' = selectedVoice pe)
        \/ (exists voiceId,
              or_string (opt_voiceId options) (selectedVoice pe) = Some voiceId
              /\ same_voice (selectedVoice pe) voiceId = false)).
Proof.
  assert (forall (r : result PiperResult),
            exists r' pe' loads calls,
              (r, pe, tr) = (r', pe', tr ++ loads ++ calls)
              /\ Forall (fun ev => is_fetch ev = true) loads
              /\ Forall (fun ev => is_fetch ev = false /\ is_speak ev = false) calls
              /\ piper pe' = piper pe /\ isInitialized pe' = isInitialized pe
              /\ voices pe' = voices pe
              /\ ((loads = [] /\ currentModelData pe' = currentModelData pe
                   /\ selectedVoice pe' = selectedVoice pe)
                  \/ (exists voiceId,
                        or_string (opt_voiceId options) (selectedVoice pe) = Some voiceId
                        /\ same_voice (selectedVoice pe) voiceId = false))) as Hstop.
  { intros r. exists r, pe, [], []. rewrite !app_nil_r. repeat split; auto. }
  unfold Piper_synthesizeToSpeech. rewrite run_bind, run_get.
  destruct (isInitialized pe) eqn:Hinit; cbn [negb]; [|apply Hstop].
  destruct (text_is_empty text) eqn:Htext; [apply Hstop|].
  destruct (or_string (opt_voiceId options) (selectedVoice pe)) as [voiceId|] eqn:Hv;
    [|apply Hstop].
  destruct (String.eqb voiceId EmptyString) eqn:Hne; [apply Hstop|].
  clear Hstop. rewrite run_bind.
  (* the optional load *)
  assert (exists r0 pe1 loads,
             (if same_voice (selectedVoice pe) voiceId then mret tt
              else Piper_loadVoiceModel env voiceId;; mret tt) pe tr
             = (r0, pe1, tr ++ loads)
             /\ Forall (fun ev => is_fetch ev = true) loads
             /\ piper pe1 = piper pe /\ isInitialized pe1 = isInitialized pe
             /\ voices pe1 = voices pe
             /\ ((loads = [] /\ currentModelData pe1 = currentModelData pe
                  /\ selectedVoice pe1 = selectedVoice pe)
                 \/ same_voice (selectedVoice pe) voiceId = false))
    as (r0 & pe1 & loads & Hs & Hloads & Hp1 & Hi1 & Hv1 & Hm1).
  { destruct (same_voice (selectedVoice pe) voiceId) eqn:Hsame.
    - exists (Ok tt), pe, []. rewrite app_nil_r. repeat split; auto.
    - destruct (loadVoiceModel_spec env voiceId pe tr)
        as (rl & pe1 & tr1 & Hl & Htr & Hpe & _).
      rewrite run_bind, Hl.
      assert (piper pe1 = piper pe /\ isInitialized pe1 = isInitialized pe
              /\ voices pe1 = voices pe) as (A & B & C)
        by (destruct Hpe as [->|(m & c & _ & ->)]; repeat split; auto).
      destruct Htr as [->|(v & _ & ->)].
      + exists (match rl with Ok _ => Ok tt | Throw e => Throw e end), pe1, [].
        rewrite app_nil_r. split; [now destruct rl|]. repeat split; auto.
      + exists (match rl with Ok _ => Ok tt | Throw e => Throw e end), pe1,
          [EvFetch (v_modelPath v); EvFetch (v_modelPath v ++ ".json")].
        split; [now destruct rl|]. repeat split; auto. }
  rewrite Hs.
  assert ((loads = [] /\ currentModelData pe1 = currentModelData pe
           /\ selectedVoice pe1 = selectedVoice pe)
          \/ (exists voiceId0,
                Some voiceId = Some voiceId0
                /\ same_voice (selectedVoice pe) voiceId0 = false)) as Hm
    by (destruct Hm1 as [H|H]; [left; exact H | right; eauto]).
  destruct r0 as [[]|e].
  2:{ exists (Throw e), pe1, loads, []. rewrite app_nil_r.
      repeat split; auto; try congruence; apply Forall_nil. }
  rewrite run_bind, run_try.
  destruct (callLibrary_spec (text_string text) voiceId
              (or_Q (opt_lengthScale options) 1) pe1 (tr ++ loads)) as (rc & Hc).
  assert (exists c1, Piper_callLibrary (text_string text) voiceId
                       (or_Q (opt_lengthScale options) 1) pe1 (tr ++ loads)
                     = (rc, pe1, (tr ++ loads) ++ c1)
                     /\ Forall (fun ev => is_fetch ev = false /\ is_speak ev = false) c1)
    as (c1 & Hc' & Hc1).
  { destruct Hc as [Hc|(m & Hc)].
    - exists []. rewrite app_nil_r. split; [exact Hc|constructor].
    - exists [EvPiper m (text_string text)]. split; [exact Hc|].
      repeat constructor. }
  rewrite Hc'. clear Hc.
  assert (forall audio sampleRate,
            exists r pe' calls,
              (audioBuffer ← Piper_pcmToAudioBuffer env audio;
               mret (mkPiperResult true audio audioBuffer (or_Z sampleRate 22050)
                       (inject_Z (Z.of_nat (ab_length audioBuffer)) / 22050)%Q
                       (text_string text) voiceId)) pe1 ((tr ++ loads) ++ c1)
              = (r, pe', tr ++ loads ++ calls)
              /\ Forall (fun ev => is_fetch ev = false /\ is_speak ev = false) calls
              /\ same_engine pe1 pe') as Hfin.
  { intros audio sampleRate. rewrite run_bind.
    destruct (pcmToAudioBuffer_spec env audio pe1 ((tr ++ loads) ++ c1))
      as (pe2 & Hse & _ & [(e & Hb)|[(e & Hb)|(Hb & _ & _)]]); rewrite Hb.
    - exists (Throw e), pe2, c1. rewrite app_assoc. repeat split; auto; apply Hse.
    - exists (Throw e), pe2, (c1 ++ [EvCreateBuffer (Z.of_nat (length audio))]).
      rewrite <- !app_assoc. split; [reflexivity|]. split; [|exact Hse].
      apply Forall_app. split; [exact Hc1|repeat constructor].
    - rewrite run_ret. eexists _, pe2, (c1 ++ [EvCreateBuffer (Z.of_nat (length audio))]).
      rewrite <- !app_assoc. split; [reflexivity|]. split; [|exact Hse].
      apply Forall_app. split; [exact Hc1|repeat constructor]. }
  assert (forall pe', same_engine pe1 pe' ->
            piper pe' = piper pe /\ isInitialized pe' = isInitialized pe
            /\ voices pe' = voices pe
            /\ ((loads = [] /\ currentModelData pe' = currentModelData pe
                 /\ selectedVoice pe' = selectedVoice pe)
                \/ (exists voiceId0,
                      Some voiceId = Some voiceId0
                      /\ same_voice (selectedVoice pe) voiceId0 = false))) as Hwrap.
  { intros pe' (S1 & S2 & S3 & S4 & S5). repeat split; congruence. }
  destruct rc as [[audio sr|]|e].
  - destruct (Hfin audio sr) as (r & pe' & calls & H & Hcalls & Hse).
    exists r, pe', loads, calls. split; [exact H|].
    split; [exact Hloads|]. split; [exact Hcalls|].
    destruct (Hwrap pe' Hse) as (W1 & W2 & W3 & W4). repeat split; auto; congruence.
  - rewrite run_throw. exists (Throw TypeError), pe1, loads, c1.
    rewrite app_assoc. split; [reflexivity|].
    split; [exact Hloads|]. split; [exact Hc1|].
    destruct (Hwrap pe1 (same_engine_refl pe1)) as (W1 & W2 & W3 & W4).
    repeat split; auto; congruence.
  - rewrite run_ret.
    destruct (Hfin silence (Some 22050)) as (r & pe' & calls & H & Hcalls & Hse).
    exists r, pe', loads, calls. split; [exact H|].
    split; [exact Hloads|]. split; [exact Hcalls|].
    destruct (Hwrap pe' Hse) as (W1 & W2 & W3 & W4). repeat split; auto; congruence.
Qed.

Lemma filter_app_none {A} (f : A -> bool) (l new : list A) :
  Forall (fun x => f x = false) new -> List.filter f (l ++ new) = List.filter f l.
Proof.
  intros H. rewrite List.filter_app.
  assert (List.filter f new = []) as ->; [|apply app_nil_r].
  induction H as [|x new Hx _ IH]; [reflexivity|]. cbn [List.filter]. now rewrite Hx.
Qed.

Lemma same_voice_refl (voiceId : string) : same_voice (Some voiceId) voiceId = true.
Proof. apply String.eqb_refl. Qed.

(** X5: [setVoice] switches the name, not the model.  For a
    listed voice, [setVoice] changes the selected voice and nothing else:
    it fetches nothing and leaves the cached model data of the previous
    voice in place.  A following [synthesizeToSpeech] that does not name
    another voice in its options finds the selected voice equal to the
    voice to use and therefore does not load either: it adds no fetch to
    the trace and the engine still holds the previous voice's model data
    afterwards.  For a voice that is not listed, [setVoice] throws
    "Voice not found" and leaves the engine as it was. *)
Theorem setVoice_skips_loading (env : Env) (pe : PiperEngine) (tr : list event)
    (voiceId : string) (v : Voice) (text : text_arg) (options : SynthOptions) :
  find_voice voiceId (voices pe) = Some v ->
  or_string (opt_voiceId options) (Some voiceId) = Some voiceId ->
  let set := Piper_setVoice voiceId pe tr in
  let res := Piper_synthesizeToSpeech env text options (final set) (effects set) in
  set = (Ok tt, set_selectedVoice (Some voiceId) pe, tr)
  /\ List.filter is_fetch (effects res) = List.filter is_fetch tr
  /\ currentModelData (final res) = currentModelData pe
  /\ selectedVoice (final res) = Some voiceId
  /\ (forall other,
        find_voice other (voices pe) = None ->
        Piper_setVoice other pe tr
        = (Throw (Error ("Voice not found: " ++ other)), pe, tr)).
Proof.
  intros Hv Hopt set res.
  assert (set = (Ok tt, set_selectedVoice (Some voiceId) pe, tr)) as Hset.
  { subst set. unfold Piper_setVoice. rewrite run_bind, run_get, Hv. reflexivity. }
  split; [exact Hset|].
  subst res. rewrite Hset. unfold final, effects. cbn [fst snd].
  destruct (synthesizeToSpeech_frame env text options
              (set_selectedVoice (Some voiceId) pe) tr)
    as (r & pe' & loads & calls & H & Hloads & Hcalls & _ & _ & _ & Hm).
  rewrite H. cbn [fst snd].
  cbn [selectedVoice set_selectedVoice currentModelData] in Hm.
  destruct Hm as [(-> & Hmd & Hsel)|(voiceId0 & Hv0 & Hs0)].
  - cbn [app]. split; [|split; [exact Hmd|split; [exact Hsel|]]].
    + apply filter_app_none. eapply Forall_impl; [exact Hcalls|]. now intros ev [? _].
    + intros other Ho. unfold Piper_setVoice. rewrite run_bind, run_get, Ho. reflexivity.
  - rewrite Hopt in Hv0. injection Hv0 as <-.
    rewrite same_voice_refl in Hs0. discriminate.
Qed.

Lemma setVoice_skips_loading_witness :
  List.filter is_fetch
    (effects (Piper_synthesizeToSpeech env_online (TextString (js "hi")) no_options
                (final (Piper_setVoice "en_GB-alan-medium" engine_ready []))
                (effects (Piper_setVoice "en_GB-alan-medium" engine_ready []))))
  = []
  /\ currentModelData
       (final (Piper_synthesizeToSpeech env_online (TextString (js "hi")) no_options
                 (final (Piper_setVoice "en_GB-alan-medium" engine_ready []))
                 (effects (Piper_setVoice "en_GB-alan-medium" engine_ready []))))
     = Some (mkModelData "en_US-lessac-high" [79; 78; 78; 88] (VObj [])).
Proof.
  destruct (setVoice_skips_loading env_online engine_ready [] "en_GB-alan-medium"
              (voice_of_id "en_GB-alan-medium") (TextString (js "hi")) no_options
              eq_refl eq_refl) as (_ & Hf & Hm & _).
  split; [exact Hf | exact Hm].
Defined.

(** *** [PiperEngine.initialize] and [dispose] *)

Lemma loadAvailableVoices_run (pe : PiperEngine) (tr : list event) :
  Piper_loadAvailableVoices pe tr
  = (Ok (map voice_of_id voiceList),
     set_selectedVoice (Some "en_US-lessac-high"%string)
       (set_voices (map voice_of_id voiceList) pe), tr).
Proof. reflexivity. Qed.

(** The body of [initialize] on an engine that is not initialized: it
    fails exactly when the import fails; a failed download of the
    default voice is swallowed. *)
Lemma Piper_initialize_run (env : Env) (pe : PiperEngine) (tr : list event) :
  isInitialized pe = false ->
  match env_import env with
  | Throw e => Piper_initialize env pe tr = (Throw e, pe, tr)
  | Ok lib =>
      exists pe' loads,
        Piper_initialize env pe tr = (Ok tt, pe', tr ++ loads)
        /\ isInitialized pe' = true /\ piper pe' = Some lib
        /\ voices pe' = map voice_of_id voiceList
        /\ selectedVoice pe' = Some "en_US-lessac-high"%string
        /\ audioContext pe' = audioContext pe
        /\ Forall (fun ev => is_fetch ev = true) loads
        /\ (currentModelData pe' = currentModelData pe
            \/ exists m c,
                 currentModelData pe'
                 = Some (mkModelData "en_US-lessac-high" m c))
  end.
Proof.
  intros Hinit. unfold Piper_initialize. run_m. rewrite Hinit.
  destruct (env_import env) as [lib|e]; [|reflexivity].
  rewrite loadAvailableVoices_run. cbv iota beta.
  cbn [selectedVoice set_selectedVoice].
  change (String.eqb "en_US-lessac-high" EmptyString) with false. cbv iota beta.
  set (pe2 := set_selectedVoice (Some "en_US-lessac-high"%string)
                (set_voices (map voice_of_id voiceList) (set_piper (Some lib) pe))).
  destruct (loadVoiceModel_spec env "en_US-lessac-high" pe2 tr)
    as (rl & pe3 & tr3 & Hl & Htr & Hpe & Hfail & _).
  rewrite Hl.
  assert (exists loads, tr3 = tr ++ loads /\ Forall (fun ev => is_fetch ev = true) loads)
    as (loads & -> & Hloads).
  { destruct Htr as [->|(v & _ & ->)].
    - exists []. now rewrite app_nil_r.
    - eexists. split; [reflexivity|]. repeat constructor. }
  exists (set_isInitialized true pe3), loads.
  split; [destruct rl; reflexivity|].
  assert (pe3 = pe2 \/ exists m c, pe3 = loaded_state "en_US-lessac-high" m c pe2)
    as [->|(m & c & ->)]
    by (destruct Hpe as [->|(m & c & _ & ->)]; eauto).
  - repeat split; auto.
  - repeat split; auto. right. exists m, c. reflexivity.
Qed.

(** X6: [PiperEngine.initialize] fails only when the library
    cannot be imported, and a failure can be retried.  On an engine that
    is neither initialized nor initializing: if the import succeeds the
    call returns the library instance, whatever the network answers for
    the model files of the default voice (a failed download is logged and
    swallowed); the engine is then initialized, lists the six discovered
    voices and has the first of them selected, and [isInitializing] stays
    set.  If the import throws, the call throws the same error, the engine
    is as it was and [isInitializing] is cleared again, so a later call
    starts over. *)
Theorem initialize_fails_only_on_import (env : Env) (po : PiperObject)
    (tr : list event) :
  isInitializing po = false ->
  isInitialized (core po) = false ->
  let res := Piper_initialize_guarded env po tr in
  match env_import env with
  | Ok lib =>
      outcome res = Ok (Some lib)
      /\ isInitialized (core (final res)) = true
      /\ piper (core (final res)) = Some lib
      /\ voices (core (final res)) = map voice_of_id voiceList
      /\ selectedVoice (core (final res)) = Some "en_US-lessac-high"%string
      /\ isInitializing (final res) = true
      /\ initPromise (final res) = Some (Ok (Some lib))
  | Throw e =>
      outcome res = Throw e
      /\ core (final res) = core po
      /\ isInitializing (final res) = false
      /\ effects res = tr
  end.
Proof.
  intros Hing Hinit res. subst res. unfold Piper_initialize_guarded.
  rewrite run_bind, run_get, Hing, Hinit, run_bind, run_put, run_try, run_bind, run_zoom.
  cbn [core set_isInitializing].
  pose proof (Piper_initialize_run env (core po) tr Hinit) as Hrun.
  destruct (env_import env) as [lib|e].
  - destruct Hrun as (pe' & loads & Hrun & H1 & H2 & H3 & H4 & _).
    rewrite Hrun. cbn [fst snd]. rewrite run_bind, run_get, run_bind, run_put, run_ret.
    unfold outcome, final. cbn [fst snd core set_core set_initPromise isInitializing
                                 initPromise].
    rewrite H2. repeat split; auto.
  - rewrite Hrun. cbn [fst snd]. rewrite run_bind, run_get, run_bind, run_put, run_throw.
    unfold outcome, final, effects. cbn. destruct po; repeat split; reflexivity.
Qed.

Lemma initialize_fails_only_on_import_witness :
  outcome (Piper_initialize_guarded env_quiet piper_object_fresh []) = Throw NetworkError
  /\ isInitializing (final (Piper_initialize_guarded env_quiet piper_object_fresh []))
     = false.
Proof.
  pose proof (initialize_fails_only_on_import env_quiet piper_object_fresh []
                eq_refl eq_refl) as H.
  cbv zeta in H. change (env_import env_quiet) with (@Throw PiperLib NetworkError) in H.
  cbv iota in H. destruct H as (H1 & _ & H3 & _). split; [exact H1 | exact H3].
Defined.

(** X7: a disposed [PiperEngine] cannot be initialized
    again.  After a successful [initialize] and a [dispose], a further
    [initialize] finds [isInitializing] still set and returns the promise
    of the first run: it resolves to the old library instance, imports
    and fetches nothing and changes nothing, so the engine stays without
    instance and not initialized, and [synthesizeToSpeech] and
    [loadVoiceModel] keep throwing "Piper not initialized. Call
    initialize() first." *)
Theorem dispose_then_initialize_is_void (env : Env) (po : PiperObject)
    (tr : list event) (lib : PiperLib) :
  isInitializing po = false ->
  isInitialized (core po) = false ->
  env_import env = Ok lib ->
  let first := Piper_initialize_guarded env po tr in
  let disposed := set_core (final (Piper_dispose (core (final first)) (effects first)))
                    (final first) in
  forall tr2,
    Piper_initialize_guarded env disposed tr2 = (Ok (Some lib), disposed, tr2)
    /\ isInitialized (core disposed) = false
    /\ piper (core disposed) = None
    /\ (forall text options tr3,
          Piper_synthesizeToSpeech env text options (core disposed) tr3
          = (Throw (Error "Piper not initialized. Call initialize() first."),
             core disposed, tr3))
    /\ (forall voiceId tr3,
          Piper_loadVoiceModel env voiceId (core disposed) tr3
          = (Throw (Error "Piper not initialized. Call initialize() first."),
             core disposed, tr3)).
Proof.
  intros Hing Hinit Himp first disposed tr2.
  assert (isInitializing (final first) = true
          /\ initPromise (final first) = Some (Ok (Some lib))) as (Hf1 & Hf2).
  { subst first. unfold Piper_initialize_guarded.
    rewrite run_bind, run_get, Hing, Hinit, run_bind, run_put, run_try, run_bind, run_zoom.
    cbn [core set_isInitializing].
    pose proof (Piper_initialize_run env (core po) tr Hinit) as Hrun.
    rewrite Himp in Hrun.
    destruct Hrun as (pe' & loads & Hrun & H1 & H2 & _).
    rewrite Hrun. cbn [fst snd]. rewrite run_bind, run_get, run_bind, run_put, run_ret.
    unfold final. cbn [fst snd core set_core set_initPromise isInitializing initPromise].
    rewrite H2. split; reflexivity. }
  assert (isInitializing disposed = true
          /\ initPromise disposed = Some (Ok (Some lib))
          /\ isInitialized (core disposed) = false
          /\ piper (core disposed) = None) as (D1 & D2 & D3 & D4).
  { subst disposed. unfold Piper_dispose, final.
    rewrite run_bind, run_get, run_put. cbn. auto. }
  split; [|split; [exact D3|split; [exact D4|split]]].
  - unfold Piper_initialize_guarded. rewrite run_bind, run_get, D1, D2. reflexivity.
  - intros text options tr3. unfold Piper_synthesizeToSpeech.
    rewrite run_bind, run_get, D3. reflexivity.
  - intros voiceId tr3. unfold Piper_loadVoiceModel.
    rewrite run_bind, run_get, D4. reflexivity.
Qed.

Lemma dispose_then_initialize_is_void_witness :
  let first := Piper_initialize_guarded env_online piper_object_fresh [] in
  let disposed := set_core (final (Piper_dispose (core (final first)) (effects first)))
                    (final first) in
  Piper_initialize_guarded env_online disposed []
  = (Ok (Some lib_without_methods), disposed, [])
  /\ isInitialized (core disposed) = false.
Proof.
  intros first disposed.
  destruct (dispose_then_initialize_is_void env_online piper_object_fresh []
              lib_without_methods eq_refl eq_refl eq_refl []) as (H1 & H2 & _).
  split; [exact H1 | exact H2].
Defined.

(** *** What [VoiceForgeEngine] hands to its caller *)

Lemma Qtrunc_size_16 (n : Z) :
  Qtrunc (44 + inject_Z n * (inject_Z 16 / 8))%Q = 44 + 2 * n.
Proof.
  rewrite Qtrunc_size. replace (352 + n * 16) with ((44 + 2 * n) * 8) by lia.
  apply Z.quot_mul. lia.
Qed.

(** A 16-bit mono file that [pcmToWav] returns is the header followed by
    the samples, two bytes each. *)
Lemma pcmToWav_16_ok (pcm : list f32) (sampleRate : Z) (blob : bytes) :
  pcmToWav pcm sampleRate 1 16 = Ok blob ->
  blob = riff_header (inject_Z (Z.of_nat (length pcm)) * (inject_Z 16 / 8))%Q 1 1
           sampleRate (inject_Z 1 * (inject_Z 16 / 8))%Q 16
         ++ concat (map (sample_bytes 16) pcm).
Proof.
  intros H.
  assert (Qtrunc (44 + inject_Z (Z.of_nat (length pcm)) * (inject_Z 16 / 8))%Q
          <= 2 ^ 53 - 1) as Halloc.
  { unfold pcmToWav in H.
    destruct (ArrayBuffer_new
                (44 + inject_Z (Z.of_nat (length pcm)) * (inject_Z 16 / 8))%Q)
      as [b|e] eqn:Ha; [|discriminate].
    unfold ArrayBuffer_new in Ha.
    destruct (Z.ltb_spec (2 ^ 53 - 1)
                (Qtrunc (44 + inject_Z (Z.of_nat (length pcm)) * (inject_Z 16 / 8))%Q));
      [|assumption].
    rewrite orb_true_r in Ha. discriminate. }
  pose proof (pcmToWav_layout pcm sampleRate 1 16 (or_intror (Z.le_refl 16)) Halloc) as L.
  cbv zeta in L. rewrite L in H. injection H as <-.
  rewrite Qtrunc_size_16.
  replace (44 + 2 * Z.of_nat (length pcm) - 44 - 2 * Z.of_nat (length pcm)) with 0 by lia.
  change (Z.to_nat 0) with 0%nat. cbn [repeat]. now rewrite app_nil_r.
Qed.

Lemma concat_sample_bytes_16_length (pcm : list f32) :
  length (concat (map (sample_bytes 16) pcm)) = (2 * length pcm)%nat.
Proof.
  pose proof (concat_sample_bytes_length 16 pcm eq_refl) as H.
  change (16 / 8) with 2 in H. lia.
Qed.

Lemma fetch_is_not_speak (l : list event) :
  Forall (fun ev => is_fetch ev = true) l -> Forall (fun ev => is_speak ev = false) l.
Proof.
  intros H. eapply Forall_impl; [exact H|]. intros [] E; try discriminate; reflexivity.
Qed.

(** X8: every result [VoiceForgeEngine.synthesizeToSpeech]
    returns was synthesised by Piper.  Whenever the call returns a result
    (rather than throwing), Piper was ready and enabled and still is, the
    Web Speech API was not used (no utterance was spoken, the audio engine
    is untouched), and the result has [success] and [isPiper] set; its
    [rawAudio] is a one-channel 22050 Hz buffer of at least one frame,
    its [duration] is the number of frames divided by 22050, and its
    [blob] is [pcmToWav] of those samples: 44 + 2 * frames bytes that
    declare one channel, 22050 Hz and 16 bit. *)
Theorem every_result_comes_from_piper (env : Env) (text : text_arg)
    (options : SynthOptions) (vf vf' : VoiceForgeEngine) (tr tr' : list event)
    (sr : SpeechResult) :
  VoiceForge_synthesizeToSpeech env text options vf tr = (Ok sr, vf', tr') ->
  sr_success sr = true /\ sr_isPiper sr = true /\ sr_text sr = text_string text
  /\ piperReady vf = true /\ usePiper vf = true
  /\ piperReady vf' = true /\ usePiper vf' = true
  /\ audioEngine vf' = audioEngine vf
  /\ List.filter is_speak tr' = List.filter is_speak tr
  /\ exists pcm,
       pcm <> []
       /\ sr_rawAudio sr = mkAudioBuffer 22050 (length pcm) [pcm]
       /\ sr_duration sr = (inject_Z (Z.of_nat (length pcm)) / 22050)%Q
       /\ pcmToWav pcm 22050 1 16 = Ok (sr_blob sr)
       /\ length (sr_blob sr) = (44 + 2 * length pcm)%nat
       /\ getUint16 (sr_blob sr) 22 = 1
       /\ getUint32 (sr_blob sr) 24 = 22050
       /\ getUint16 (sr_blob sr) 34 = 16.
Proof.
  unfold VoiceForge_synthesizeToSpeech.
  destruct (text_is_empty text) eqn:Htext; [discriminate|].
  rewrite run_bind, run_get, run_bind.
  assert (forall (s : VoiceForgeEngine) (t : list event),
            (zoom audioEngine set_audioEngine (Audio_synthesizeToSpeech env text options))
              s t <> (Ok sr, vf', tr')) as Haudio.
  { intros s t H. rewrite run_zoom in H.
    pose proof (Audio_synthesizeToSpeech_rejects env text options (audioEngine s) t) as R.
    unfold outcome in R. injection H as H _ _. rewrite H in R. discriminate. }
  destruct (piperReady vf) eqn:Hr, (usePiper vf) eqn:Hu; cbn [andb];
    try (rewrite run_ret; intros H; now apply Haudio in H).
  rewrite run_try, run_bind, run_zoom.
  destruct (synthesizeToSpeech_frame env text options (piperEngine vf) tr)
    as (rp & pe' & loads & calls & Hp & Hloads & Hcalls & _).
  rewrite Hp. cbn [fst snd].
  destruct rp as [r|e].
  2:{ rewrite run_bind, run_get, run_bind, run_put, run_ret.
      intros H; now apply Haudio in H. }
  rewrite run_bind. unfold lift_result at 1.
  destruct (pcmToWav_default (pr_pcm r)) as [blob|e] eqn:Hblob.
  2:{ rewrite run_bind, run_get, run_bind, run_put, run_ret.
      intros H; now apply Haudio in H. }
  rewrite run_ret, run_ret. intros [= <- <- <-].
  cbn [sr_success sr_isPiper sr_text sr_rawAudio sr_duration sr_blob
       piperReady usePiper audioEngine set_piperEngine].
  destruct (synthesizeToSpeech_ok env text options (piperEngine vf) pe' tr
              (tr ++ loads ++ calls) r Hp)
    as (_ & _ & _ & _ & _ & _ & Hne & Hab & Hdur & _).
  unfold pcmToWav_default in Hblob.
  pose proof (pcmToWav_16_ok _ _ _ Hblob) as Hlay.
  repeat split; auto.
  - rewrite app_assoc. rewrite filter_app_none.
    + apply filter_app_none. now apply fetch_is_not_speak.
    + eapply Forall_impl; [exact Hcalls|]. now intros ev [_ ?].
  - exists (pr_pcm r). split; [exact Hne|]. split; [exact Hab|]. split; [exact Hdur|].
    split; [exact Hblob|].
    match type of Hlay with
    | blob = riff_header ?dl ?f ?ch ?sr0 _ ?bd ++ ?rest =>
        pose proof (riff_header_fields dl f ch sr0 bd rest)
          as (_ & _ & _ & _ & _ & H22 & H24 & _ & _ & H34 & _)
    end.
    rewrite <- Hlay in H22, H24, H34.
    rewrite H22, H24, H34, !ToUint_inject_Z.
    split; [|repeat split; reflexivity].
    rewrite Hlay, length_app, riff_header_length, concat_sample_bytes_16_length.
    reflexivity.
Qed.

Lemma every_result_comes_from_piper_witness :
  exists sr vf' tr',
    VoiceForge_synthesizeToSpeech env_talking (TextString (js "hi")) no_options
      voiceforge_talking [] = (Ok sr, vf', tr')
    /\ sr_isPiper sr = true
    /\ length (sr_blob sr) = 48%nat.
Proof.
  destruct (VoiceForge_synthesizeToSpeech env_talking (TextString (js "hi")) no_options
              voiceforge_talking []) as [[[sr|e] vf'] tr'] eqn:E.
  - exists sr, vf', tr'.
    destruct (every_result_comes_from_piper _ _ _ _ _ _ _ _ E)
      as (_ & Hp & _ & _ & _ & _ & _ & _ & _ & pcm & _ & Hraw & _ & _ & Hlen & _).
    split; [reflexivity|]. split; [exact Hp|].
    vm_compute in E. injection E as <- _ _.
    cbn [sr_rawAudio] in Hraw. injection Hraw as Hl _.
    rewrite Hlen, <- Hl. reflexivity.
  - vm_compute in E. discriminate.
Defined.

(** *** A failing library behind [VoiceForgeEngine] *)

Lemma sample_bytes_16_zero : sample_bytes 16 0 = [0; 0].
Proof. vm_compute. reflexivity. Qed.

Lemma concat_silence_zero (n : nat) :
  Forall (fun b => b = 0) (concat (map (sample_bytes 16) (repeat 0 n))).
Proof.
  induction n as [|n IH]; [constructor|].
  cbn [repeat map concat]. rewrite sample_bytes_16_zero.
  cbn [app]. repeat constructor. exact IH.
Qed.

(** [synthesizeToSpeech] with the selected voice and a library whose
    entry point fails. *)
Lemma Piper_synth_silence (env : Env) (pe : PiperEngine) (tr : list event)
    (text : text_arg) (options : SynthOptions) (lib : PiperLib) (voiceId : string) :
  isInitialized pe = true ->
  text_is_empty text = false ->
  or_string (opt_voiceId options) (selectedVoice pe) = Some voiceId ->
  voiceId <> EmptyString ->
  same_voice (selectedVoice pe) voiceId = true ->
  piper pe = Some lib ->
  methods_fail lib (text_string text) voiceId (or_Q (opt_lengthScale options) 1)
    (currentModelData pe) ->
  audioContext pe = true \/ env_newAudioContext env = Some (Ok tt) ->
  exists pe2 tr2,
    Piper_synthesizeToSpeech env text options pe tr
    = (Ok (mkPiperResult true silence (mkAudioBuffer 22050 (length silence) [silence])
             22050 (inject_Z (Z.of_nat (length silence)) / 22050)%Q
             (text_string text) voiceId), pe2, tr2).
Proof.
  intros Hinit Htext Hvoice Hne Hsame Hlib Hfail Hctx.
  destruct (callLibrary_fails lib (text_string text) voiceId
              (or_Q (opt_lengthScale options) 1) pe tr Hlib Hfail)
    as (e & tr' & Hcall).
  destruct (pcmToAudioBuffer_silence env pe tr' Hctx) as (pe2 & tr2 & Hbuf).
  exists pe2, tr2.
  unfold Piper_synthesizeToSpeech.
  assert (String.eqb voiceId EmptyString = false) as Hne' by (now apply String.eqb_neq).
  cbv [mbind M_bind m_bind get].
  rewrite Hinit, Htext, Hvoice, Hne', Hsame. cbn [negb].
  run_m. rewrite Hcall, Hbuf. reflexivity.
Qed.

Lemma pcmToWav_default_silence :
  pcmToWav_default silence
  = Ok (riff_header (inject_Z (Z.of_nat (length silence)) * (inject_Z 16 / 8))%Q 1 1
          22050 (inject_Z 1 * (inject_Z 16 / 8))%Q 16
        ++ concat (map (sample_bytes 16) silence)).
Proof.
  unfold pcmToWav_default.
  assert (Qtrunc (44 + inject_Z (Z.of_nat (length silence)) * (inject_Z 16 / 8))%Q
          <= 2 ^ 53 - 1) as Halloc.
  { rewrite Qtrunc_size_16, silence_length. change (2 ^ 53 - 1) with 9007199254740991.
    lia. }
  pose proof (pcmToWav_layout silence 22050 1 16 (or_intror (Z.le_refl 16)) Halloc) as L.
  cbv zeta in L. rewrite L. rewrite Qtrunc_size_16.
  replace (44 + 2 * Z.of_nat (length silence) - 44 - 2 * Z.of_nat (length silence))
    with 0 by lia.
  change (Z.to_nat 0) with 0%nat. change (repeat 0 0%nat) with (@nil Z).
  rewrite app_nil_r. reflexivity.
Qed.

(** X9: a failing Piper library is reported as success.
    With Piper ready and enabled, a text that is not empty, the selected
    voice, and a library whose synthesis entry point throws (or that has
    none), [VoiceForgeEngine.synthesizeToSpeech] does not fall back to
    the Web Speech API and does not throw: it returns a result with
    [success] and [isPiper] set whose [blob] is a WAV file of 44144 bytes
    in which every data byte is zero (one second of silence) and whose
    duration is one second; Piper stays enabled and no utterance is
    spoken. *)
Theorem library_failure_is_reported_as_success (env : Env) (vf : VoiceForgeEngine)
    (tr : list event) (text : text_arg) (options : SynthOptions) (lib : PiperLib)
    (voiceId : string) :
  piperReady vf = true ->
  usePiper vf = true ->
  isInitialized (piperEngine vf) = true ->
  text_is_empty text = false ->
  or_string (opt_voiceId options) (selectedVoice (piperEngine vf)) = Some voiceId ->
  voiceId <> EmptyString ->
  same_voice (selectedVoice (piperEngine vf)) voiceId = true ->
  piper (piperEngine vf) = Some lib ->
  methods_fail lib (text_string text) voiceId (or_Q (opt_lengthScale options) 1)
    (currentModelData (piperEngine vf)) ->
  audioContext (piperEngine vf) = true \/ env_newAudioContext env = Some (Ok tt) ->
  exists sr vf' tr',
    VoiceForge_synthesizeToSpeech env text options vf tr = (Ok sr, vf', tr')
    /\ sr_success sr = true /\ sr_isPiper sr = true
    /\ Z.of_nat (length (sr_blob sr)) = 44144
    /\ Forall (fun b => b = 0) (skipn 44 (sr_blob sr))
    /\ (sr_duration sr == 1)%Q
    /\ usePiper vf' = true
    /\ audioEngine vf' = audioEngine vf
    /\ List.filter is_speak tr' = List.filter is_speak tr.
Proof.
  intros Hr Hu Hinit Htext Hvoice Hne Hsame Hlib Hfail Hctx.
  destruct (Piper_synth_silence env (piperEngine vf) tr text options lib voiceId
              Hinit Htext Hvoice Hne Hsame Hlib Hfail Hctx) as (pe2 & tr2 & Hp).
  destruct (synthesizeToSpeech_frame env text options (piperEngine vf) tr)
    as (rp & pe' & loads & calls & Hp' & Hloads & Hcalls & _).
  rewrite Hp in Hp'. injection Hp' as _ _ Htr2.
  exists (mkSpeechResult true
            (riff_header (inject_Z (Z.of_nat (length silence)) * (inject_Z 16 / 8))%Q 1 1
               22050 (inject_Z 1 * (inject_Z 16 / 8))%Q 16
             ++ concat (map (sample_bytes 16) silence))
            (inject_Z (Z.of_nat (length silence)) / 22050)%Q
            (text_string text) voiceId true
            (mkAudioBuffer 22050 (length silence) [silence])),
    (set_piperEngine pe2 vf), tr2.
  split.
  { unfold VoiceForge_synthesizeToSpeech. rewrite Htext.
    rewrite run_bind, run_get, run_bind, Hr, Hu. cbn [andb].
    rewrite run_try, run_bind, run_zoom, Hp. cbn [fst snd pr_pcm].
    rewrite run_bind. unfold lift_result at 1. rewrite pcmToWav_default_silence.
    rewrite !run_ret. reflexivity. }
  cbn [sr_success sr_isPiper sr_blob sr_duration usePiper set_piperEngine audioEngine
       pr_duration].
  split; [reflexivity|]. split; [reflexivity|].
  split; [|split; [|split; [|split; [|split; [reflexivity|]]]]].
  - rewrite length_app, riff_header_length, concat_sample_bytes_16_length.
    pose proof silence_length. lia.
  - rewrite skipn_app, skipn_all2, riff_header_length by (rewrite riff_header_length; lia).
    rewrite Nat.sub_diag, skipn_O. cbn [app]. apply concat_silence_zero.
  - rewrite silence_length. reflexivity.
  - exact Hu.
  - rewrite Htr2, app_assoc, filter_app_none.
    + apply filter_app_none. now apply fetch_is_not_speak.
    + eapply Forall_impl; [exact Hcalls|]. now intros ev [_ ?].
Qed.

Lemma library_failure_is_reported_as_success_witness :
  exists sr vf' tr',
    VoiceForge_synthesizeToSpeech env_online (TextString (js "hi")) no_options
      voiceforge_ready [] = (Ok sr, vf', tr')
    /\ sr_isPiper sr = true
    /\ Forall (fun b => b = 0) (skipn 44 (sr_blob sr)).
Proof.
  destruct (library_failure_is_reported_as_success env_online voiceforge_ready []
              (TextString (js "hi")) no_options lib_without_methods
              "en_US-lessac-high")
    as (sr & vf' & tr' & H & _ & Hp & _ & Hz & _).
  - reflexivity.
  - reflexivity.
  - reflexivity.
  - reflexivity.
  - reflexivity.
  - discriminate.
  - reflexivity.
  - reflexivity.
  - exact I.
  - left. reflexivity.
  - exists sr, vf', tr'. split; [exact H|]. split; [exact Hp | exact Hz].
Defined.

(** *** The two flags of [VoiceForgeEngine] *)

Lemma audio_synthesize_run (env : Env) (text : text_arg) (options : SynthOptions)
    (ae : AudioEngine) (tr : list event) :
  exists e ae' new,
    Audio_synthesizeToSpeech env text options ae tr = (Throw e, ae', tr ++ new)
    /\ Forall (fun ev => is_speak ev = true) new.
Proof.
  unfold Audio_synthesizeToSpeech, Audio_synthesizeWithFallback,
    Audio_previewVoiceSample. run_m.
  destruct (env_speechSupported env); cbn [negb].
  2:{ eexists _, _, []. rewrite app_nil_r. split; [reflexivity|constructor]. }
  destruct (text_is_empty text).
  { eexists _, _, []. rewrite app_nil_r. split; [reflexivity|constructor]. }
  destruct (env_speak env (text_string text)).
  - eexists _, _, [EvSpeak (text_string text)]. split; [reflexivity|].
    repeat constructor.
  - eexists _, _, [EvSpeak (text_string text)]. split; [reflexivity|].
    repeat constructor.
Qed.

(** [synthesizeToSpeech] never touches [piperReady] and can only clear
    [usePiper]. *)
Ltac flags_done :=
  unfold final; cbn;
  (split; [reflexivity | first [left; reflexivity | right; reflexivity]]).

Ltac audio_step :=
  match goal with
  | |- context [Audio_synthesizeToSpeech ?env ?text ?options ?a ?t] =>
      let Ha := fresh "Ha" in
      destruct (audio_synthesize_run env text options a t) as (? & ? & ? & Ha & ?);
      rewrite Ha
  end.

(** [synthesizeToSpeech] never touches [piperReady] and can only clear
    [usePiper]. *)
Lemma synthesize_flags (env : Env) (text : text_arg) (options : SynthOptions)
    (vf : VoiceForgeEngine) (tr : list event) :
  let res := VoiceForge_synthesizeToSpeech env text options vf tr in
  piperReady (final res) = piperReady vf
  /\ (usePiper (final res) = usePiper vf \/ usePiper (final res) = false).
Proof.
  cbv zeta. unfold VoiceForge_synthesizeToSpeech.
  destruct (text_is_empty text); [split; [reflexivity|left; reflexivity]|].
  run_m.
  destruct (piperReady vf && usePiper vf).
  - destruct (Piper_synthesizeToSpeech env text options (piperEngine vf) tr)
      as [[[r|e] pe'] tr'].
    + destruct (pcmToWav_default (pr_pcm r)) as [blob|e].
      * flags_done.
      * audio_step. flags_done.
    + audio_step. flags_done.
  - audio_step. flags_done.
Qed.

Lemma initializePiper_flags (env : Env) (vf : VoiceForgeEngine) (tr : list event) :
  let res := VoiceForge_initializePiper env vf tr in
  usePiper (final res) = true -> piperReady (final res) = true.
Proof.
  cbv zeta. unfold VoiceForge_initializePiper. run_m.
  destruct (piperReady vf) eqn:Hr.
  - unfold final. cbn. now rewrite Hr.
  - destruct (Piper_initialize env (piperEngine vf) tr) as [[[[]|e] pe'] tr'];
      unfold final; cbn; [reflexivity|discriminate].
Qed.

Lemma engine_step_flags (env : Env) (op : engine_op)
    (s : VoiceForgeEngine * list event) :
  (usePiper s.1 = true -> piperReady s.1 = true) ->
  usePiper (engine_step env op s).1 = true -> piperReady (engine_step env op s).1 = true.
Proof.
  destruct s as [vf tr]. cbn [fst snd]. intros Inv.
  destruct op as [|text options|enabled|]; cbn [engine_step fst snd].
  - apply initializePiper_flags.
  - destruct (synthesize_flags env text options vf tr) as (Hr & [Hu|Hu]); cbv zeta in *.
    + rewrite Hr, Hu. exact Inv.
    + rewrite Hu. discriminate.
  - unfold VoiceForge_setPiperEnabled. run_m.
    destruct enabled, (piperReady vf) eqn:Hr; unfold final; cbn;
      rewrite ?Hr; auto; try discriminate.
  - unfold VoiceForge_dispose, Audio_dispose, Audio_stopAudio, Piper_dispose. run_m.
    destruct (env_speechSynthesis env); unfold final; cbn; exact Inv.
Qed.

(** X10: [usePiper] is never set while Piper is not ready.  In
    every state a [VoiceForgeEngine] reaches by any sequence of
    [initializePiper], [synthesizeToSpeech], [setPiperEnabled] and
    [dispose] calls from a state in which [usePiper] implies
    [piperReady], as the constructor's does, [usePiper] implies
    [piperReady]; so [getEngineStatus] reports "Piper" as the active
    engine exactly when it reports [piperActive]. *)
Theorem usePiper_implies_piperReady (env : Env) (ops : list engine_op)
    (vf : VoiceForgeEngine) (tr : list event) :
  (usePiper vf = true -> piperReady vf = true) ->
  let reached := (engine_run env ops (vf, tr)).1 in
  (usePiper reached = true -> piperReady reached = true)
  /\ (activeEngine (VoiceForge_getEngineStatus env reached) = "Piper"%string
      <-> piperActive (VoiceForge_getEngineStatus env reached) = true).
Proof.
  intros Inv reached.
  assert (usePiper reached = true -> piperReady reached = true) as H.
  { subst reached. unfold engine_run.
    change vf with (vf, tr).1 in Inv. generalize dependent (vf, tr). clear vf tr.
    induction ops as [|op ops IH]; intros s Inv; cbn [fold_left]; [exact Inv|].
    apply IH. now apply engine_step_flags. }
  split; [exact H|].
  unfold VoiceForge_getEngineStatus. cbn [activeEngine piperActive].
  destruct (usePiper reached) eqn:Hu; cbn [andb].
  - rewrite H by reflexivity. split; reflexivity.
  - split; discriminate.
Qed.

Lemma usePiper_implies_piperReady_witness :
  activeEngine
    (VoiceForge_getEngineStatus env_quiet
       (engine_run env_quiet
          [EInitializePiper; ESetPiperEnabled true;
           ESynthesizeToSpeech (TextString (js "hi")) no_options; EDispose]
          (voiceforge_fresh, [])).1)
  = "Piper"%string
  <-> piperActive
        (VoiceForge_getEngineStatus env_quiet
           (engine_run env_quiet
              [EInitializePiper; ESetPiperEnabled true;
               ESynthesizeToSpeech (TextString (js "hi")) no_options; EDispose]
              (voiceforge_fresh, [])).1)
      = true.
Proof.
  exact (proj2 (usePiper_implies_piperReady env_quiet
                  [EInitializePiper; ESetPiperEnabled true;
                   ESynthesizeToSpeech (TextString (js "hi")) no_options; EDispose]
                  voiceforge_fresh [] ltac:(discriminate))).
Defined.

(** *** [PiperIntegration]: initialisation, disposal and validation *)

Lemma synthesize_uninitialized (env : Env) (text : text_arg) (options : SynthOptions)
    (pe : PiperEngine) (tr : list event) :
  isInitialized pe = false ->
  Piper_synthesizeToSpeech env text options pe tr
  = (Throw (Error "Piper not initialized. Call initialize() first."), pe, tr).
Proof. intros H. unfold Piper_synthesizeToSpeech. run_m. now rewrite H. Qed.

(** With Piper marked ready but its engine not initialized, a synthesis
    call can only end in the rejection of the Web Speech backend. *)
Lemma voiceforge_synthesize_disposed (env : Env) (text : text_arg)
    (options : SynthOptions) (vf : VoiceForgeEngine) (tr : list event) :
  piperReady vf = true ->
  isInitialized (piperEngine vf) = false ->
  exists e vf' new,
    VoiceForge_synthesizeToSpeech env text options vf tr = (Throw e, vf', tr ++ new)
    /\ Forall (fun ev => is_speak ev = true) new
    /\ piperReady vf' = true
    /\ piperEngine vf' = piperEngine vf.
Proof.
  intros Hr Hinit. unfold VoiceForge_synthesizeToSpeech.
  destruct (text_is_empty text).
  { eexists _, vf, []. rewrite app_nil_r. repeat split; [constructor|exact Hr]. }
  run_m. rewrite Hr. destruct (usePiper vf); cbn [andb].
  - rewrite (synthesize_uninitialized env text options _ tr Hinit).
    audio_step. eexists _, _, _. split; [reflexivity|]. split; [assumption|].
    cbn. split; [exact Hr|]. now destruct vf.
  - audio_step. eexists _, _, _. split; [reflexivity|]. split; [assumption|].
    cbn. split; [exact Hr|]. reflexivity.
Qed.

Lemma integration_step_disposed (env : Env) (op : integration_op)
    (s : PiperIntegration) (tr : list event) :
  piperReady (engine s) = true ->
  isInitialized (piperEngine (engine s)) = false ->
  exists s' new,
    integration_step env op (s, tr) = (s', tr ++ new)
    /\ Forall (fun ev => is_speak ev = true) new
    /\ piperReady (engine s') = true
    /\ isInitialized (piperEngine (engine s')) = false.
Proof.
  intros Hr Hinit.
  destruct op as [|text options| | |]; cbn [integration_step fst snd].
  - unfold Integration_initialize, VoiceForge_initializePiper. run_m. rewrite Hr.
    eexists _, []. rewrite app_nil_r. unfold final, effects. cbn.
    repeat split; [constructor|exact Hr|exact Hinit].
  - unfold Integration_generateSpeech.
    rewrite run_bind, run_get.
    destruct (initialized s); cbn [negb].
    2:{ eexists _, []. rewrite app_nil_r. unfold final, effects. cbn.
        repeat split; [constructor|exact Hr|exact Hinit]. }
    destruct (text_is_empty text).
    { eexists _, []. rewrite app_nil_r. unfold final, effects. cbn.
      repeat split; [constructor|exact Hr|exact Hinit]. }
    rewrite run_bind.
    assert (exists vf1,
               (if opt_forcePiper options
                then if negb (piperReady (engine s))
                     then throw (Error "Piper TTS engine failed to initialize")
                     else zoom engine set_engine (VoiceForge_setPiperEnabled true);;
                          mret tt
                else mret tt) s tr = (Ok tt, set_engine vf1 s, tr)
               /\ piperReady vf1 = true /\ piperEngine vf1 = piperEngine (engine s))
      as (vf1 & Hforce & Hr1 & Hpe1).
    { destruct (opt_forcePiper options).
      - rewrite Hr. cbn [negb]. unfold VoiceForge_setPiperEnabled. run_m.
        rewrite Hr. cbn. exists (set_usePiper true (engine s)). repeat split; auto.
      - exists (engine s). run_m. split; [now destruct s|]. split; [exact Hr|reflexivity]. }
    rewrite Hforce, run_zoom. cbn [engine set_engine].
    destruct (voiceforge_synthesize_disposed env text options vf1 tr Hr1)
      as (e & vf2 & new & Hs & Hnew & Hr2 & Hpe2); [congruence|].
    rewrite Hs. unfold final, effects. cbn [fst snd].
    eexists _, new. split; [reflexivity|]. split; [exact Hnew|].
    cbn. split; [exact Hr2|]. congruence.
  - unfold Integration_usePiper, VoiceForge_setPiperEnabled. run_m.
    rewrite Hr. unfold final, effects. cbn.
    eexists _, []. rewrite app_nil_r. repeat split; [constructor|exact Hr|exact Hinit].
  - unfold Integration_useWebSpeechAPI, VoiceForge_setPiperEnabled. run_m.
    unfold final, effects. cbn.
    eexists _, []. rewrite app_nil_r. repeat split; [constructor|exact Hr|exact Hinit].
  - unfold Integration_dispose, VoiceForge_dispose, Audio_dispose, Audio_stopAudio,
      Piper_dispose. run_m.
    destruct (env_speechSynthesis env); unfold final, effects; cbn;
      eexists _, []; rewrite app_nil_r;
      (split; [reflexivity|]); (split; [constructor|]); split;
      first [exact Hr | exact Hinit | reflexivity].
Qed.

Lemma integration_run_disposed (env : Env) (ops : list integration_op) :
  forall (s : PiperIntegration) (tr : list event),
    piperReady (engine s) = true ->
    isInitialized (piperEngine (engine s)) = false ->
    exists s' new,
      integration_run env ops (s, tr) = (s', tr ++ new)
      /\ Forall (fun ev => is_speak ev = true) new
      /\ piperReady (engine s') = true
      /\ isInitialized (piperEngine (engine s')) = false.
Proof.
  induction ops as [|op ops IH]; intros s tr Hr Hinit.
  - exists s, []. rewrite app_nil_r. repeat split; [constructor|exact Hr|exact Hinit].
  - change (integration_run env (op :: ops) (s, tr))
      with (integration_run env ops (integration_step env op (s, tr))).
    destruct (integration_step_disposed env op s tr Hr Hinit)
      as (s1 & new1 & Hstep & Hnew1 & Hr1 & Hinit1).
    rewrite Hstep.
    destruct (IH s1 (tr ++ new1) Hr1 Hinit1) as (s2 & new2 & Hrun & Hnew2 & Hr2 & Hinit2).
    rewrite Hrun. exists s2, (new1 ++ new2). rewrite app_assoc.
    split; [reflexivity|]. split; [|split; [exact Hr2|exact Hinit2]].
    apply Forall_app. split; assumption.
Qed.

(** [dispose] where [window.speechSynthesis] is missing: [stopAudio]
    throws before anything is disposed. *)
Lemma integration_dispose_throws (env : Env) (s : PiperIntegration)
    (tr : list event) :
  env_speechSynthesis env = false ->
  Integration_dispose env s tr = (Throw TypeError, s, tr).
Proof.
  intros H.
  unfold Integration_dispose, VoiceForge_dispose, Audio_dispose, Audio_stopAudio.
  run_m. rewrite H. destruct s as [[ae pe up pr] ini]. reflexivity.
Qed.

(** X11: a [dispose] that returns is final for the
    whole stack.  In a page that has [window.speechSynthesis], [dispose]
    returns; once a [PiperIntegration] whose Piper engine was ready has
    been disposed, whatever is called afterwards ([initialize],
    [generateSpeech], [usePiper], [useWebSpeechAPI], [dispose], in any
    order and number): the Piper engine stays uninitialized, nothing is
    fetched and the Piper library is never called (the only events added
    are utterances of the Web Speech API); [initialize] nevertheless
    returns true, because [piperReady] is still set; and every
    [generateSpeech] call throws.  In a page without
    [window.speechSynthesis], [dispose] throws a [TypeError] from
    [stopAudio] and disposes nothing: the integration is as it was. *)
Theorem integration_dispose_is_final (env : Env) (s : PiperIntegration)
    (tr : list event) (ops : list integration_op) :
  piperReady (engine s) = true ->
  let disposed := Integration_dispose env s tr in
  if env_speechSynthesis env then
    let after := integration_run env ops (final disposed, effects disposed) in
    outcome disposed = Ok tt
    /\ (exists new, after.2 = tr ++ new /\ Forall (fun ev => is_speak ev = true) new)
    /\ isInitialized (piperEngine (engine after.1)) = false
    /\ outcome (Integration_initialize env after.1 after.2) = Ok true
    /\ (forall text options,
          is_ok (outcome (Integration_generateSpeech env text options after.1 after.2))
          = false)
  else disposed = (Throw TypeError, s, tr).
Proof.
  intros Hr disposed.
  destruct (env_speechSynthesis env) eqn:Hss;
    [|now apply integration_dispose_throws].
  intros after.
  assert (outcome disposed = Ok tt
          /\ effects disposed = tr
          /\ piperReady (engine (final disposed)) = true
          /\ isInitialized (piperEngine (engine (final disposed))) = false)
    as (Hout & Htr & Hr0 & Hinit0).
  { subst disposed.
    unfold Integration_dispose, VoiceForge_dispose, Audio_dispose, Audio_stopAudio,
      Piper_dispose. run_m. rewrite Hss.
    unfold outcome, final, effects. cbn. auto. }
  split; [exact Hout|].
  destruct (integration_run_disposed env ops (final disposed) (effects disposed)
              Hr0 Hinit0) as (s' & new & Hrun & Hnew & Hr' & Hinit').
  subst after. rewrite Hrun. cbn [fst snd]. rewrite Htr.
  split; [exists new; split; [reflexivity|exact Hnew]|].
  split; [exact Hinit'|]. split.
  - unfold Integration_initialize, VoiceForge_initializePiper. run_m. rewrite Hr'.
    reflexivity.
  - intros text options.
    destruct (integration_step_disposed env (IGenerateSpeech text options) s'
                (tr ++ new) Hr' Hinit') as (s2 & new2 & Hstep & _).
    cbn [integration_step fst snd] in Hstep.
    unfold Integration_generateSpeech in *.
    rewrite run_bind, run_get in *.
    destruct (initialized s'); cbn [negb] in *; [|reflexivity].
    destruct (text_is_empty text); [reflexivity|].
    rewrite run_bind in *.
    destruct (opt_forcePiper options).
    + rewrite Hr' in *. cbn [negb] in *. unfold VoiceForge_setPiperEnabled in *.
      run_m. rewrite Hr' in *. cbn [andb negb engine set_engine] in *.
      destruct (voiceforge_synthesize_disposed env text options
                  (set_usePiper true (engine s')) (tr ++ new) Hr' Hinit')
        as (e & vf2 & new3 & Hs & _).
      rewrite Hs. reflexivity.
    + run_m.
      destruct (voiceforge_synthesize_disposed env text options
                  (engine s') (tr ++ new) Hr' Hinit')
        as (e & vf2 & new3 & Hs & _).
      rewrite Hs. reflexivity.
Qed.

(** In a browser with speech synthesis the disposed integration stays
    without Piper; in a page without it [dispose] throws and the
    integration is still initialized. *)
Lemma integration_dispose_is_final_witness :
  (let disposed := Integration_dispose env_online integration_ready [] in
   let after :=
     integration_run env_online
       [IInitialize; IUsePiper; IGenerateSpeech (TextString (js "hi")) no_options]
       (final disposed, effects disposed) in
   outcome disposed = Ok tt
   /\ (exists new, after.2 = [] ++ new /\ Forall (fun ev => is_speak ev = true) new)
   /\ isInitialized (piperEngine (engine after.1)) = false
   /\ outcome (Integration_initialize env_online after.1 after.2) = Ok true
   /\ (forall text options,
         is_ok (outcome (Integration_generateSpeech env_online text options
                           after.1 after.2)) = false))
  /\ Integration_dispose env_no_speech integration_ready []
     = (Throw TypeError, integration_ready, []).
Proof.
  split.
  - exact (integration_dispose_is_final env_online integration_ready []
             [IInitialize; IUsePiper; IGenerateSpeech (TextString (js "hi")) no_options]
             eq_refl).
  - exact (integration_dispose_is_final env_no_speech integration_ready [] [] eq_refl).
Defined.

(** X12: without the Piper library there is no speech at all.
    On a [PiperIntegration] that has not been initialized, [initialize]
    returns true exactly when the import of the library succeeds
    (whatever the network answers for the voice model) and then leaves
    the integration initialized with Piper ready and enabled.  When the
    import fails it throws "Piper failed to initialize" and leaves the
    integration uninitialized, so that every later [generateSpeech]
    throws "TTS Engine not initialized. Call initialize() first." without
    trying any engine: the Web Speech API is not reachable as a fallback. *)
Theorem initialize_failure_blocks_generation (env : Env) (s : PiperIntegration)
    (tr : list event) :
  initialized s = false ->
  piperReady (engine s) = false ->
  isInitialized (piperEngine (engine s)) = false ->
  let res := Integration_initialize env s tr in
  match env_import env with
  | Ok lib =>
      outcome res = Ok true
      /\ initialized (final res) = true
      /\ piperReady (engine (final res)) = true
      /\ usePiper (engine (final res)) = true
      /\ isInitialized (piperEngine (engine (final res))) = true
      /\ piper (piperEngine (engine (final res))) = Some lib
  | Throw e =>
      outcome res = Throw (Error "Piper failed to initialize")
      /\ initialized (final res) = false
      /\ piperReady (engine (final res)) = false
      /\ usePiper (engine (final res)) = false
      /\ effects res = tr
      /\ (forall text options tr2,
            Integration_generateSpeech env text options (final res) tr2
            = (Throw (Error "TTS Engine not initialized. Call initialize() first."),
               final res, tr2))
  end.
Proof.
  intros Hi Hr Hinit res. subst res.
  pose proof (Piper_initialize_run env (piperEngine (engine s)) tr Hinit) as Hrun.
  unfold Integration_initialize, VoiceForge_initializePiper. run_m. rewrite Hr.
  destruct (env_import env) as [lib|e].
  - destruct Hrun as (pe' & loads & Hrun & H1 & H2 & _).
    rewrite Hrun. unfold outcome, final. cbn. repeat split; assumption.
  - rewrite Hrun. unfold outcome, final, effects. cbn.
    repeat split; auto.
    intros text options tr2. unfold Integration_generateSpeech. run_m. cbn.
    rewrite Hi. reflexivity.
Qed.

Lemma initialize_failure_blocks_generation_witness :
  outcome (Integration_initialize env_quiet integration_fresh [])
  = Throw (Error "Piper failed to initialize")
  /\ Integration_generateSpeech env_quiet (TextString (js "hi")) no_options
       (final (Integration_initialize env_quiet integration_fresh [])) []
     = (Throw (Error "TTS Engine not initialized. Call initialize() first."),
        final (Integration_initialize env_quiet integration_fresh []), []).
Proof.
  pose proof (initialize_failure_blocks_generation env_quiet integration_fresh []
                eq_refl eq_refl eq_refl) as H.
  cbv zeta in H. change (env_import env_quiet) with (@Throw PiperLib NetworkError) in H.
  cbv iota in H. destruct H as (H1 & _ & _ & _ & _ & H6).
  split; [exact H1 | apply H6].
Defined.

(** *** [generateWithValidation] *)

Section Validation.

Variable env : Env.
Variable rms_below : list f32 -> Q -> bool.
Variable native_message : exn -> string.

Lemma isSilent_result (result : SpeechResult) (threshold : Q) :
  isSilent rms_below (Some result) threshold = true.
Proof. reflexivity. Qed.

Lemma validation_loop_throws (text : text_arg) (options : SynthOptions)
    (maxRetries : Z) (remaining : nat) :
  forall (attempt : Z) (s : PiperIntegration) (tr : list event),
  exists msg s' tr',
    validation_loop env rms_below native_message remaining text options maxRetries
      attempt s tr = (Throw (Error msg), s', tr')
    /\ (msg = "Failed to generate valid audio (all attempts produced silence)"%string
        \/ exists e,
             msg = ("Failed to generate valid audio after " ++ pretty maxRetries
                    ++ " attempts: " ++ error_message native_message e)%string).
Proof.
  induction remaining as [|k IH]; intros attempt s tr; cbn [validation_loop].
  - eexists _, _, _. split; [reflexivity|]. now left.
  - rewrite run_bind, run_try, run_bind.
    destruct (Integration_generateSpeech env text options s tr) as [[[result|e] s1] t1].
    + rewrite isSilent_result, run_ret. apply IH.
    + destruct (attempt + 1 >=? maxRetries).
      * rewrite run_throw. eexists _, _, _. split; [reflexivity|]. right. now exists e.
      * rewrite run_ret. apply IH.
Qed.

(** X13: [generateWithValidation] never returns audio.  The
    silence check [isSilent] looks for an [audioBuffer] property, which
    the result object of [VoiceForgeEngine] does not have (its audio is
    under [rawAudio]), so every generated result counts as silent.
    Hence, for every text, every options and every retry count, the call
    throws: "Failed to generate valid audio (all attempts produced
    silence)" or, when the last attempt threw, "Failed to generate valid
    audio after N attempts: ..." with that attempt's message. *)
Theorem generateWithValidation_never_returns (text : text_arg)
    (options : SynthOptions) (maxRetries : Z) (s : PiperIntegration)
    (tr : list event) :
  (forall result threshold, isSilent rms_below (Some result) threshold = true)
  /\ exists msg,
       outcome (generateWithValidation env rms_below native_message text options
                  maxRetries s tr) = Throw (Error msg)
       /\ (msg = "Failed to generate valid audio (all attempts produced silence)"%string
           \/ exists e,
                msg = ("Failed to generate valid audio after " ++ pretty maxRetries
                       ++ " attempts: " ++ error_message native_message e)%string).
Proof.
  split; [apply isSilent_result|].
  unfold generateWithValidation.
  destruct (validation_loop_throws text options maxRetries (Z.to_nat maxRetries) 0 s tr)
    as (msg & s' & tr' & H & Hmsg).
  exists msg. rewrite H. split; [reflexivity | exact Hmsg].
Qed.

End Validation.

(** ** The service worker over time *)

Module SWLifeFacts.
Import SW SWLife.

Lemma caches_match_put_other caches name u u' r :
  u' <> u -> caches_match (caches_put caches name u' r) u = caches_match caches u.
Proof.
  intros Hne. induction caches as [|[n cache] rest IH]; cbn [caches_put caches_match].
  - rewrite lookup_singleton_ne by exact Hne. reflexivity.
  - destruct (String.eqb n name); cbn [caches_match].
    + rewrite lookup_insert_ne by exact Hne. reflexivity.
    + now rewrite IH.
Qed.

Lemma caches_match_put_miss caches name u r :
  caches_match caches u = None ->
  caches_match (caches_put caches name u r) u = Some r.
Proof.
  induction caches as [|[n cache] rest IH]; cbn [caches_put caches_match]; intros Hm.
  - now rewrite lookup_singleton_eq.
  - destruct (cache !! u) eqn:Hc; [discriminate|].
    destruct (String.eqb n name); cbn [caches_match].
    + now rewrite lookup_insert_eq.
    + rewrite Hc. now apply IH.
Qed.



(** A fetch event never changes what an already cached URL resolves to. *)
Lemma onFetch_keeps network caches request u r :
  caches_match caches u = Some r ->
  caches_match (caches_after (onFetch network caches request)) u = Some r.
Proof.
  intros Hm. unfold onFetch.
  destruct (negb (String.eqb (method request) "GET")); [exact Hm|].
  destruct (caches_match caches (url request)) eqn:Hreq; [exact Hm|].
  destruct (network request) as [response|]; [|exact Hm].
  destruct (negb (cacheable response)); [exact Hm|].
  cbn [caches_after]. rewrite caches_match_put_other; [exact Hm|].
  intros E. rewrite E in Hreq. congruence.
Qed.

Lemma fetch_run_keeps events : forall caches u r,
  caches_match caches u = Some r ->
  caches_match (fetch_run events caches) u = Some r.
Proof.
  induction events as [|[nw rq] events IH]; intros caches u r Hm; [exact Hm|].
  unfold fetch_run. cbn [fold_left fst snd]. apply IH. now apply onFetch_keeps.
Qed.

(** X14: the fetch handler's cache is write-once.  Once
    [caches.match] finds a response for a URL, no sequence of fetch
    events changes that: whatever is requested afterwards and whatever
    the network answers, the same response stays cached under that URL
    and every later GET request for it is answered with it, without a
    network request and without touching the caches.  A cached response
    is never refreshed. *)
Theorem fetch_cache_is_write_once
    (events : list ((Request -> option Response) * Request))
    (caches : CacheStorage) (u : string) (r : Response)
    (network : Request -> option Response) :
  caches_match caches u = Some r ->
  let later := fetch_run events caches in
  caches_match later u = Some r
  /\ onFetch network later (mkRequest "GET" u)
     = mkFetchOutcome (RespondWith (Some r)) later [].
Proof.
  intros Hm later.
  assert (caches_match later u = Some r) as H by (now apply fetch_run_keeps).
  split; [exact H|].
  unfold onFetch. cbn [method url]. change (String.eqb "GET" "GET") with true.
  cbn [negb]. now rewrite H.
Qed.

Lemma fetch_cache_is_write_once_witness :
  let cached := caches_after (onFetch network_demo [] (mkRequest "GET" "/a.css")) in
  let later :=
    fetch_run [(network_up, mkRequest "GET" "/b.css");
               (network_up, mkRequest "GET" "/a.css")] cached in
  caches_match later "/a.css" = Some (mkResponse 200 "basic" [1; 2])
  /\ onFetch network_up later (mkRequest "GET" "/a.css")
     = mkFetchOutcome (RespondWith (Some (mkResponse 200 "basic" [1; 2]))) later [].
Proof.
  intros cached later.
  apply (fetch_cache_is_write_once
           [(network_up, mkRequest "GET" "/b.css");
            (network_up, mkRequest "GET" "/a.css")] cached "/a.css"
           (mkResponse 200 "basic" [1; 2]) network_up).
  vm_compute. reflexivity.
Defined.

(** *** Install *)

Section InstallFacts.

Variable addAll_accepts : Response -> bool.
Variable network : Request -> option Response.




Lemma caches_match_open caches name u :
  caches_match (caches_open caches name) u = caches_match caches u.
Proof.
  induction caches as [|[n cache] rest IH]; cbn [caches_open caches_match].
  - now rewrite lookup_empty.
  - destruct (String.eqb n name); cbn [caches_match]; [reflexivity|]. now rewrite IH.
Qed.




End InstallFacts.



(** *** The cache write of the fetch listener *)

(** Where every write goes through, [onFetch_put] is [onFetch]. *)
Lemma onFetch_put_always network caches request :
  onFetch_put put_always network caches request = onFetch network caches request.
Proof. reflexivity. Qed.

(** However its write ends, a fetch event never changes what an already
    cached URL resolves to. *)
Lemma onFetch_put_keeps cache_put network caches request u r :
  caches_match caches u = Some r ->
  caches_match (caches_after (onFetch_put cache_put network caches request)) u = Some r.
Proof.
  intros Hm. unfold onFetch_put.
  destruct (negb (String.eqb (method request) "GET")); [exact Hm|].
  destruct (caches_match caches (url request)) eqn:Hreq; [exact Hm|].
  destruct (network request) as [response|]; [|exact Hm].
  destruct (negb (cacheable response)); [exact Hm|].
  cbn [caches_after]. destruct (cache_put request response).
  - rewrite caches_match_put_other; [exact Hm|].
    intros E. rewrite E in Hreq. congruence.
  - now rewrite caches_match_open.
  - exact Hm.
Qed.

Lemma fetch_run_put_keeps events : forall caches u r,
  caches_match caches u = Some r ->
  caches_match (fetch_run_put events caches) u = Some r.
Proof.
  induction events as [|[[cache_put nw] rq] events IH]; intros caches u r Hm; [exact Hm|].
  unfold fetch_run_put. cbn [fold_left fst snd]. apply IH. now apply onFetch_put_keeps.
Qed.

(** X15: a response fetched once is served from the cache
    from then on if, and only if, the cache write the listener does not
    wait for goes through.  When a GET request misses every cache and
    the network answers with a response of status 200 whose type is not
    "error", the listener answers with that response after one network
    request, however the write ends.  If the write goes through, then
    after any further fetch events, whatever their writes and networks
    do, the same request is answered with the stored response and causes
    no network request.  If [cache.put] rejects or the worker is stopped
    before the write, [caches.match] still finds nothing for the URL and
    the same request goes to the network again. *)
Theorem fetched_once_served_from_cache
    (cache_put : Request -> Response -> put_outcome)
    (network : Request -> option Response) (caches : CacheStorage)
    (request : Request) (r : Response)
    (events : list ((Request -> Response -> put_outcome)
                    * (Request -> option Response) * Request))
    (cache_put2 : Request -> Response -> put_outcome)
    (network2 : Request -> option Response) :
  method request = "GET"%string ->
  caches_match caches (url request) = None ->
  network request = Some r ->
  cacheable r = true ->
  let first := onFetch_put cache_put network caches request in
  let later := fetch_run_put events (caches_after first) in
  reply first = RespondWith (Some r)
  /\ network_requests first = [request]
  /\ match cache_put request r with
     | Stored =>
         onFetch_put cache_put2 network2 later request
         = mkFetchOutcome (RespondWith (Some r)) later []
     | _ =>
         caches_match (caches_after first) (url request) = None
         /\ network_requests (onFetch_put cache_put2 network2 (caches_after first) request)
            = [request]
     end.
Proof.
  intros Hget Hmiss Hnet Hc first later.
  assert (first = mkFetchOutcome (RespondWith (Some r))
                    (match cache_put request r with
                     | Stored => caches_put caches CACHE_NAME (url request) r
                     | Rejected => caches_open caches CACHE_NAME
                     | NotRun => caches
                     end) [request]) as Hf.
  { subst first. unfold onFetch_put. rewrite Hget.
    change (String.eqb "GET" "GET") with true.
    cbn [negb]. rewrite Hmiss, Hnet, Hc. reflexivity. }
  assert (forall c, caches_match c (url request) = None ->
           network_requests (onFetch_put cache_put2 network2 c request) = [request]) as Hagain.
  { intros c Hnone. unfold onFetch_put. rewrite Hget.
    change (String.eqb "GET" "GET") with true. cbn [negb]. rewrite Hnone.
    destruct (network2 request) as [r2|]; [|reflexivity].
    destruct (negb (cacheable r2)); reflexivity. }
  subst later. rewrite Hf. cbn [reply network_requests caches_after].
  split; [reflexivity|]. split; [reflexivity|].
  destruct (cache_put request r).
  - set (later := fetch_run_put events _).
    assert (caches_match later (url request) = Some r) as H.
    { subst later. apply fetch_run_put_keeps. now apply caches_match_put_miss. }
    unfold onFetch_put. rewrite Hget. change (String.eqb "GET" "GET") with true.
    cbn [negb]. now rewrite H.
  - assert (caches_match (caches_open caches CACHE_NAME) (url request) = None) as H
      by (now rewrite caches_match_open).
    split; [exact H|now apply Hagain].
  - split; [exact Hmiss|now apply Hagain].
Qed.

(** The style sheet fetched once is served while offline when the write
    went through, and requested again when [cache.put] rejected. *)
Lemma fetched_once_served_from_cache_witness :
  (let first := onFetch_put put_always network_demo [] (mkRequest "GET" "/a.css") in
   let later :=
     fetch_run_put [(put_never, network_up, mkRequest "GET" "/b.css")]
       (caches_after first) in
   onFetch_put put_never offline later (mkRequest "GET" "/a.css")
   = mkFetchOutcome (RespondWith (Some (mkResponse 200 "basic" [1; 2]))) later [])
  /\ (let first := onFetch_put put_never network_demo [] (mkRequest "GET" "/a.css") in
      network_requests
        (onFetch_put put_always network_demo (caches_after first)
           (mkRequest "GET" "/a.css"))
      = [mkRequest "GET" "/a.css"]).
Proof.
  split.
  - exact (proj2 (proj2 (fetched_once_served_from_cache put_always network_demo []
                           (mkRequest "GET" "/a.css") (mkResponse 200 "basic" [1; 2])
                           [(put_never, network_up, mkRequest "GET" "/b.css")]
                           put_never offline eq_refl eq_refl eq_refl eq_refl))).
  - exact (proj2 (proj2 (proj2 (fetched_once_served_from_cache put_never network_demo []
                                  (mkRequest "GET" "/a.css")
                                  (mkResponse 200 "basic" [1; 2]) []
                                  put_always network_demo
                                  eq_refl eq_refl eq_refl eq_refl)))).
Defined.

(** *** Activate *)

Lemma caches_match_from (caches : CacheStorage) (u : string) (r : Response) :
  caches_match caches u = Some r ->
  exists name cache, In (name, cache) caches /\ cache !! u = Some r.
Proof.
  induction caches as [|[n cache] rest IH]; cbn [caches_match]; [discriminate|].
  destruct (cache !! u) as [r0|] eqn:Hc.
  - intros [= <-]. exists n, cache. split; [now left|exact Hc].
  - intros H. destruct (IH H) as (name & c & Hin & Hl). exists name, c.
    split; [now right|exact Hl].
Qed.

(** X17: after activation only the current cache answers.
    The activate handler deletes every cache whose name is not
    "voiceforge-v1" and keeps that cache with all its entries: what the
    current cache stores it still stores, and whatever [caches.match]
    finds afterwards is an entry of the current cache, so a response
    left behind in the cache of another version is never served again. *)
Theorem activate_keeps_only_current_cache (caches : CacheStorage) (u : string)
    (r : Response) :
  (stored caches u r <-> stored (onActivate caches) u r)
  /\ (caches_match (onActivate caches) u = Some r -> stored caches u r)
  /\ (forall name cache, In (name, cache) (onActivate caches) -> name = CACHE_NAME).
Proof.
  assert (forall name cache,
            In (name, cache) (onActivate caches)
            <-> In (name, cache) caches /\ name = CACHE_NAME) as Hin.
  { intros name cache. unfold onActivate. rewrite List.filter_In. cbn [fst].
    rewrite String.eqb_eq. reflexivity. }
  split; [|split].
  - unfold stored. split; intros (cache & Hc & Hl); exists cache; split; auto.
    + apply Hin. auto.
    + now apply Hin in Hc.
  - intros Hm. destruct (caches_match_from _ _ _ Hm) as (name & cache & Hc & Hl).
    apply Hin in Hc as [Hc ->]. exists cache. auto.
  - intros name cache Hc. now apply Hin in Hc.
Qed.

End SWLifeFacts.

(** ** Local storage: the history and the language side by side *)

Section StorageMore.

Variable JSON_stringify : jsval -> result jsstring.
Variable JSON_parse : jsstring -> result jsval.
Variable quota : gmap string jsstring -> string -> jsstring -> bool.
Variable inherited : jsval -> jsstring -> option jsval.

Lemma saveToStorage_other (ls : gmap string jsstring) (key key' : string) (v : jsval) :
  key' <> key ->
  (saveToStorage JSON_stringify quota ls key v).2 !! key' = ls !! key'.
Proof.
  intros Hne. unfold saveToStorage, localStorage_setItem.
  destruct (JSON_stringify v) as [s|e]; cbn [mbind result_bind]; [|reflexivity].
  destruct (quota ls key s); cbn [snd]; [|reflexivity].
  apply lookup_insert_ne. congruence.
Qed.

Lemma saveToStorage_failed (ls : gmap string jsstring) (key : string) (v : jsval) :
  (saveToStorage JSON_stringify quota ls key v).1 = false ->
  (saveToStorage JSON_stringify quota ls key v).2 = ls.
Proof.
  unfold saveToStorage, localStorage_setItem.
  destruct (JSON_stringify v) as [s|e]; cbn [mbind result_bind]; [|reflexivity].
  destruct (quota ls key s); cbn [fst snd]; [discriminate|reflexivity].
Qed.

Lemma getFromStorage_lookup (ls ls' : gmap string jsstring) (key : string) (d : jsval) :
  ls' !! key = ls !! key ->
  getFromStorage JSON_parse ls' key d = getFromStorage JSON_parse ls key d.
Proof. intros H. unfold getFromStorage, jsstring in *. now rewrite H. Qed.

Lemma step_keeps_other_keys (op : history_op) (s : UIController * gmap string jsstring)
    (key : string) :
  key <> HISTORY_STORAGE_KEY ->
  (step JSON_stringify quota op s).2 !! key = s.2 !! key.
Proof.
  intros Hne. destruct op; cbn [step]; unfold addToHistory, deleteHistoryItem;
    cbn [snd]; now apply saveToStorage_other.
Qed.

Lemma run_keeps_other_keys (ops : list history_op) (key : string) :
  key <> HISTORY_STORAGE_KEY ->
  forall s, (run JSON_stringify quota ops s).2 !! key = s.2 !! key.
Proof.
  intros Hne. induction ops as [|op ops IH]; intros s; [reflexivity|].
  change (run JSON_stringify quota (op :: ops) s)
    with (run JSON_stringify quota ops (step JSON_stringify quota op s)).
  rewrite IH. now apply step_keeps_other_keys.
Qed.

(** X18: the history and the language do not disturb each
    other in local storage.  Whatever sequence of history additions and
    deletions runs, the stored language keeps its value; [setLanguage],
    whether it succeeds, refuses or throws, leaves what [getFromStorage]
    reads under every other key, the history among them, as it was; a
    [saveToStorage] that returns [false] has left the storage untouched;
    and after [removeFromStorage] of a key other than the language key
    that key reads as its default while the language reads as before. *)
Theorem storage_keys_are_independent (ops : list history_op) (ui : UIController)
    (ls : gmap string jsstring) (self : I18n) (lang : jsstring) (key : string)
    (v d : jsval) :
  key <> LANGUAGE_KEY ->
  getStoredLanguage (run JSON_stringify quota ops (ui, ls)).2 = getStoredLanguage ls
  /\ getFromStorage JSON_parse (setLanguage inherited quota self ls lang).2 key d
     = getFromStorage JSON_parse ls key d
  /\ ((saveToStorage JSON_stringify quota ls key v).1 = false ->
      (saveToStorage JSON_stringify quota ls key v).2 = ls)
  /\ getFromStorage JSON_parse (removeFromStorage ls key).2 key d = d
  /\ getFromStorage JSON_parse (removeFromStorage ls key).2 LANGUAGE_KEY d
     = getFromStorage JSON_parse ls LANGUAGE_KEY d.
Proof.
  intros Hne. split; [|split; [|split; [|split]]].
  - unfold getStoredLanguage.
    apply (run_keeps_other_keys ops LANGUAGE_KEY ltac:(discriminate) (ui, ls)).
  - apply getFromStorage_lookup. unfold setLanguage, localStorage_setItem.
    destruct (negb (truthy (translations_of inherited self lang))); [reflexivity|].
    destruct (quota ls LANGUAGE_KEY lang); cbn [snd]; [|reflexivity].
    apply lookup_insert_ne. congruence.
  - apply saveToStorage_failed.
  - apply getFromStorage_missing. cbn [removeFromStorage snd]. apply lookup_delete_eq.
  - apply getFromStorage_lookup. cbn [removeFromStorage snd].
    apply lookup_delete_ne. congruence.
Qed.

(** X19: the language survives a reload, and only a usable
    language is accepted.  [setLanguage] returns [false] and changes
    nothing, neither the object nor the storage, when
    [translations[lang]] is missing or falsy.  Otherwise it makes [lang]
    the current language; when the storage accepts the write it returns
    [true], the language is stored under "voiceforge-language", and an
    [I18n] object constructed from that storage (the next page load)
    starts with [lang] as its current language, provided [lang] is not
    the empty string.  When the storage refuses the write the exception
    escapes, with the current language already switched and nothing
    stored. *)
Theorem setLanguage_persists (self : I18n) (ls : gmap string jsstring)
    (lang : jsstring) :
  let res := setLanguage inherited quota self ls lang in
  if negb (truthy (translations_of inherited self lang)) then
    res = (Ok false, self, ls)
  else
    currentLanguage res.1.2 = lang
    /\ translations res.1.2 = translations self
    /\ (if quota ls LANGUAGE_KEY lang then
          res.1.1 = Ok true
          /\ getStoredLanguage res.2 = Some lang
          /\ (lang <> [] -> getLanguage (I18n_new res.2) = lang)
        else
          res.1.1 = Throw QuotaExceededError /\ res.2 = ls).
Proof.
  cbv zeta. unfold setLanguage, localStorage_setItem.
  destruct (negb (truthy (translations_of inherited self lang))); [reflexivity|].
  destruct (quota ls LANGUAGE_KEY lang); cbn [fst snd currentLanguage translations].
  - split; [reflexivity|]. split; [reflexivity|]. split; [reflexivity|].
    assert (getStoredLanguage (<[LANGUAGE_KEY:=lang]> ls) = Some lang) as Hs
      by (unfold getStoredLanguage; apply lookup_insert_eq).
    split; [exact Hs|]. intros Hne.
    unfold getLanguage, I18n_new. rewrite Hs. cbn [currentLanguage].
    destruct lang; [contradiction|reflexivity].
  - repeat split.
Qed.

End StorageMore.

Lemma storage_keys_are_independent_witness :
  getStoredLanguage
    (run demo_stringify quota_unlimited
       [OpAdd 1 (js "10:00") (js "hello") "en_US-lessac-high" (JFin 2)]
       (mkUIController [] true, {[ LANGUAGE_KEY := js "sw" ]})).2
  = Some (js "sw").
Proof.
  destruct (storage_keys_are_independent demo_stringify demo_parse quota_unlimited
              inherited_methods
              [OpAdd 1 (js "10:00") (js "hello") "en_US-lessac-high" (JFin 2)]
              (mkUIController [] true) {[ LANGUAGE_KEY := js "sw" ]}
              i18n_demo (js "sw") HISTORY_STORAGE_KEY VNull VNull
              ltac:(discriminate)) as (H & _).
  rewrite H. reflexivity.
Defined.

(** ** The voice panel and the generate button *)

Lemma existsb_fst_In (voiceId : string) (l : list (string * jsstring)) :
  existsb (fun v => String.eqb (fst v) voiceId) l = true <-> In voiceId (map fst l).
Proof.
  rewrite existsb_exists, in_map_iff. split.
  - intros (v & Hin & Heq). apply String.eqb_eq in Heq. eauto.
  - intros (v & Heq & Hin). exists v. split; [exact Hin|]. now apply String.eqb_eq.
Qed.

Lemma setVoices_listed (voiceEntries : list (string * jsstring)) (ui : VoicePanel) :
  panel_voiceList (setVoices voiceEntries ui)
  = (if Nat.ltb 0 (length voiceEntries) then voiceEntries else VOICES)
  /\ panel_voiceList (setVoices voiceEntries ui) <> []
  /\ In (selectedVoiceId (setVoices voiceEntries ui))
        (map fst (panel_voiceList (setVoices voiceEntries ui))).
Proof.
  unfold setVoices. cbn [panel_voiceList selectedVoiceId].
  set (shown := if Nat.ltb 0 (length voiceEntries) then voiceEntries else VOICES).
  assert (shown <> []) as Hne.
  { subst shown. destruct voiceEntries; cbn; discriminate. }
  split; [reflexivity|]. split; [exact Hne|].
  destruct (existsb (fun v => String.eqb (fst v) (selectedVoiceId ui)) shown) eqn:E;
    cbn [negb].
  - now apply existsb_fst_In.
  - destruct shown as [|v rest]; [contradiction|]. now left.
Qed.

(** X20: the selected voice is always one of the voices
    shown.  After [setVoices], whatever list it was given and whatever
    was selected before, the panel shows a list that is not empty (the
    given one, or [VOICES] when the given one is empty) and the selected
    voice id is the id of one of its entries: the previous selection when
    that is still listed, otherwise the first entry. *)
Theorem selected_voice_is_always_listed (voiceEntries : list (string * jsstring))
    (ui : VoicePanel) :
  let ui' := setVoices voiceEntries ui in
  panel_voiceList ui' <> []
  /\ In (selectedVoiceId ui') (map fst (panel_voiceList ui'))
  /\ (In (selectedVoiceId ui) (map fst (panel_voiceList ui')) ->
      selectedVoiceId ui' = selectedVoiceId ui)
  /\ (~ In (selectedVoiceId ui) (map fst (panel_voiceList ui')) ->
      Some (selectedVoiceId ui') = head (map fst (panel_voiceList ui'))).
Proof.
  cbv zeta. destruct (setVoices_listed voiceEntries ui) as (Hl & Hne & Hin).
  split; [exact Hne|]. split; [exact Hin|].
  rewrite Hl. unfold setVoices. cbn [selectedVoiceId].
  set (shown := if Nat.ltb 0 (length voiceEntries) then voiceEntries else VOICES) in *.
  split.
  - intros H. apply existsb_fst_In in H. now rewrite H.
  - intros H.
    destruct (existsb (fun v => String.eqb (fst v) (selectedVoiceId ui)) shown) eqn:E.
    + apply existsb_fst_In in E. contradiction.
    + cbn [negb]. rewrite Hl in Hne. destruct shown as [|v rest]; [contradiction|].
      reflexivity.
Qed.

Lemma buildVoiceList_ids (piperList : list Voice) :
  piperList <> [] -> map fst (buildVoiceList piperList) = map v_id piperList.
Proof.
  intros Hne. unfold buildVoiceList. rewrite length_map.
  destruct piperList as [|v rest]; [contradiction|].
  cbn [length Nat.ltb Nat.leb]. rewrite map_map. reflexivity.
Qed.

Lemma find_voice_In (voiceId : string) (vs : list Voice) :
  In voiceId (map v_id vs) -> exists v, find_voice voiceId vs = Some v.
Proof.
  intros Hin. unfold find_voice.
  destruct (find (fun v => String.eqb (v_id v) voiceId) vs) as [v|] eqn:E; [eauto|].
  apply in_map_iff in Hin as (v & Hv & Hin).
  pose proof (find_none _ _ E v Hin) as Hn. cbn in Hn.
  rewrite Hv, String.eqb_refl in Hn. discriminate.
Qed.

(** X21: with Piper ready, the voice the panel has
    selected is a voice Piper discovered.  When the application fills
    the panel from the engine ([getVoices], [buildVoiceList],
    [setVoices]) while Piper is ready and lists at least one voice, the
    panel shows exactly the ids of Piper's voices, and the selected id,
    which the generate button sends as [voiceId], is found in Piper's
    voice list: [loadVoiceModel] has a voice record for it and [setVoice]
    accepts it. *)
Theorem offered_voice_is_discovered (vf : VoiceForgeEngine) (ui : VoicePanel)
    (tr : list event) :
  piperReady vf = true ->
  voices (piperEngine vf) <> [] ->
  let ui' := setVoices (buildVoiceList (VoiceForge_getPiperVoices vf)) ui in
  map fst (panel_voiceList ui') = map v_id (voices (piperEngine vf))
  /\ (exists v, find_voice (selectedVoiceId ui') (voices (piperEngine vf)) = Some v)
  /\ outcome (Piper_setVoice (selectedVoiceId ui') (piperEngine vf) tr) = Ok tt.
Proof.
  intros Hr Hne ui'.
  assert (VoiceForge_getPiperVoices vf = voices (piperEngine vf)) as Hg
    by (unfold VoiceForge_getPiperVoices, Piper_getVoices; now rewrite Hr).
  destruct (setVoices_listed (buildVoiceList (VoiceForge_getPiperVoices vf)) ui)
    as (Hl & _ & Hin).
  fold ui' in Hl, Hin.
  assert (map fst (panel_voiceList ui') = map v_id (voices (piperEngine vf))) as Hids.
  { rewrite Hl, Hg.
    assert (buildVoiceList (voices (piperEngine vf)) <> []) as Hb.
    { intros E. apply (f_equal (map fst)) in E.
      rewrite buildVoiceList_ids in E by exact Hne.
      destruct (voices (piperEngine vf)); [contradiction|discriminate]. }
    destruct (buildVoiceList (voices (piperEngine vf))) eqn:E; [contradiction|].
    cbn [length Nat.ltb Nat.leb]. rewrite <- E. now apply buildVoiceList_ids. }
  split; [exact Hids|].
  rewrite Hids in Hin. destruct (find_voice_In _ _ Hin) as [v Hv].
  split; [now exists v|].
  unfold Piper_setVoice, outcome. run_m. now rewrite Hv.
Qed.

Lemma offered_voice_is_discovered_witness :
  let ui' := setVoices (buildVoiceList (VoiceForge_getPiperVoices voiceforge_ready))
               (selectVoice "zh_CN-huayan-medium" VoicePanel_new) in
  map fst (panel_voiceList ui') = map v_id (voices (piperEngine voiceforge_ready))
  /\ (exists v,
        find_voice (selectedVoiceId ui') (voices (piperEngine voiceforge_ready)) = Some v)
  /\ outcome (Piper_setVoice (selectedVoiceId ui') (piperEngine voiceforge_ready) [])
     = Ok tt.
Proof.
  exact (offered_voice_is_discovered voiceforge_ready
           (selectVoice "zh_CN-huayan-medium" VoicePanel_new) []
           eq_refl ltac:(discriminate)).
Defined.

(** *** Trimming *)

Lemma drop_ws_suffix (s : jsstring) : exists pre, s = pre ++ drop_ws s.
Proof.
  induction s as [|c s IH]; [now exists []|]. cbn [drop_ws].
  destruct (is_whitespace c).
  - destruct IH as [pre Hp]. exists (c :: pre). cbn [app]. now f_equal.
  - now exists [].
Qed.

Lemma drop_ws_fixed (s : jsstring) :
  match s with [] => True | c :: _ => is_whitespace c = false end -> drop_ws s = s.
Proof. destruct s as [|c s]; [reflexivity|]. cbn [drop_ws]. now intros ->. Qed.

Lemma drop_ws_starts (s : jsstring) :
  match drop_ws s with [] => True | c :: _ => is_whitespace c = false end.
Proof.
  destruct (drop_ws s) as [|c r] eqn:E; [exact I|]. now apply (drop_ws_head s c r).
Qed.

(** The trimmed string neither starts nor ends with white space. *)
Lemma trim_ends (s : jsstring) :
  match trim s with [] => True | c :: _ => is_whitespace c = false end
  /\ match rev (trim s) with [] => True | c :: _ => is_whitespace c = false end.
Proof.
  unfold trim. rewrite rev_involutive. split; [|apply drop_ws_starts].
  set (a := drop_ws s). pose proof (drop_ws_starts s) as Ha. fold a in Ha.
  destruct (drop_ws_suffix (rev a)) as [pre Hp].
  set (b := drop_ws (rev a)) in *.
  assert (a = rev b ++ rev pre) as Hab.
  { rewrite <- (rev_involutive a), Hp, rev_app_distr. reflexivity. }
  destruct (rev b) as [|c r] eqn:Hb; [exact I|].
  rewrite Hab in Ha. exact Ha.
Qed.

Lemma trim_idempotent (s : jsstring) : trim (trim s) = trim s.
Proof.
  destruct (trim_ends s) as (Hfirst & Hlast).
  unfold trim at 1. rewrite (drop_ws_fixed (trim s) Hfirst).
  rewrite (drop_ws_fixed (rev (trim s)) Hlast). apply rev_involutive.
Qed.

(** X22: what the generate button sends is never
    rejected as empty.  [onGenerateClick] warns and sends nothing when
    the trimmed content of the text area has fewer than two code units.
    Otherwise it dispatches exactly the trimmed content, which has at
    least two code units, neither starts nor ends with white space
    (trimming it again changes nothing) and passes the emptiness test
    that [VoiceForgeEngine], [PiperEngine], [AudioEngine] and
    [PiperIntegration] apply to their text argument; it carries the
    voice selected in the panel, and the options the application derives
    from it force Piper.  The button applies no upper limit:
    [validateTextInput] accepts the dispatched text exactly when it has
    at most 2000 code units. *)
Theorem dispatched_text_is_not_empty (value : jsstring) (speed pitch : Q)
    (ui : VoicePanel) :
  match onGenerateClick value speed pitch ui with
  | Warned _ => (length (trim value) < 2)%nat
  | Dispatched detail =>
      gd_text detail = trim value
      /\ (2 <= length (gd_text detail))%nat
      /\ trim (gd_text detail) = gd_text detail
      /\ text_is_empty (TextString (gd_text detail)) = false
      /\ gd_voiceId detail = selectedVoiceId ui
      /\ opt_voiceId (generateAudio_options detail) = Some (selectedVoiceId ui)
      /\ opt_forcePiper (generateAudio_options detail) = true
      /\ (valid (validateTextInput (TextString (gd_text detail))) = true
          <-> (length (gd_text detail) <= 2000)%nat)
  end.
Proof.
  unfold onGenerateClick.
  destruct (Nat.eqb_spec (length (trim value)) 0) as [E|E]; [lia|].
  destruct (Nat.ltb_spec (length (trim value)) 2) as [L|L]; [exact L|].
  cbn [gd_text gd_voiceId generateAudio_options opt_voiceId opt_forcePiper].
  assert (text_is_empty (TextString (trim value)) = false) as Hte.
  { cbn [text_is_empty]. rewrite trim_idempotent.
    destruct (Nat.eqb_spec (length (trim value)) 0); [contradiction|reflexivity]. }
  repeat split; auto.
  - apply trim_idempotent.
  - unfold validateTextInput. rewrite Hte. cbn [text_string].
    destruct (Nat.ltb_spec 2000 (length (trim value))); cbn [valid];
      [discriminate|lia].
  - intros H. unfold validateTextInput. rewrite Hte. cbn [text_string].
    destruct (Nat.ltb_spec 2000 (length (trim value))); cbn [valid]; [lia|reflexivity].
Qed.

(** ** utils.clamp *)

Lemma js_lt_irrefl (a : jsnum) : js_lt a a = false.
Proof. destruct a as [| | |q]; try reflexivity. cbn [js_lt]. apply Qltb_ge. lia. Qed.

Lemma js_lt_asym (a b : jsnum) : js_lt a b = true -> js_lt b a = false.
Proof.
  destruct a as [| | |x], b as [| | |y]; cbn [js_lt]; try discriminate; try reflexivity.
  rewrite Qltb_lt, Qltb_ge. lia.
Qed.

(** [a < b] and [b <= c] give [a < c]. *)
Lemma js_lt_le_trans (a b c : jsnum) :
  is_nan c = false -> js_lt a b = true -> js_lt c b = false -> js_lt a c = true.
Proof.
  destruct a as [| | |x], b as [| | |y], c as [| | |z]; cbn [js_lt is_nan];
    try discriminate; try reflexivity.
  rewrite !Qltb_lt, Qltb_ge. destruct x as [xn xd], y as [yn yd], z as [zn zd].
  cbn [Qnum Qden]. intros _ H1 H2. nia.
Qed.

(** X23: [clamp] keeps a number inside its bounds.  For numbers
    that are not NaN and bounds with [min <= max], the result of
    [clamp(value, min, max)] lies between [min] and [max]; it is [min]
    when [value] is below [min], it equals [max] when [value] is above
    [max], and it equals [value] when [value] lies between the bounds.
    The clamping of samples in both WAV encoders is [clamp(sample, -1, 1)]. *)
Theorem clamp_within_bounds (value min max : jsnum) :
  is_nan value = false -> is_nan min = false -> is_nan max = false ->
  js_le min max = true ->
  js_le min (clamp value min max) = true
  /\ js_le (clamp value min max) max = true
  /\ (js_le min value = true -> js_le value max = true ->
      js_same (clamp value min max) value = true)
  /\ (js_lt value min = true -> clamp value min max = min)
  /\ (js_lt max value = true -> js_same (clamp value min max) max = true)
  /\ (forall x : f32, clamp_sample x = clamp (f32_value x) (JFin (-1)) (JFin 1)).
Proof.
  intros Hv Hmin Hmax Hle. unfold js_same, js_le in *.
  apply negb_true_iff in Hle.
  unfold clamp, Math_max, Math_min. rewrite Hmax, Hv. cbn [orb].
  set (m := if js_lt value max then value else max).
  assert (is_nan m = false) as Hm by (subst m; now destruct (js_lt value max)).
  rewrite Hmin, Hm. cbn [orb].
  split; [|split; [|split; [|split; [|split]]]].
  - destruct (js_lt min m) eqn:E.
    + now rewrite (js_lt_asym _ _ E).
    + now rewrite js_lt_irrefl.
  - destruct (js_lt min m) eqn:E.
    + subst m. destruct (js_lt value max) eqn:E2.
      * now rewrite (js_lt_asym _ _ E2).
      * now rewrite js_lt_irrefl.
    + now rewrite Hle.
  - intros H1 H2. apply negb_true_iff in H1, H2.
    subst m. destruct (js_lt value max) eqn:E2.
    + destruct (js_lt min value) eqn:E.
      * now rewrite js_lt_irrefl.
      * now rewrite E, H1.
    + destruct (js_lt min max) eqn:E.
      * now rewrite E2, H2.
      * destruct (js_lt min value) eqn:E3.
        -- rewrite (js_lt_le_trans min value max Hmax E3 H2) in E. discriminate.
        -- now rewrite H1.
  - intros H. subst m.
    rewrite (js_lt_le_trans value min max Hmax H Hle).
    now rewrite (js_lt_asym _ _ H).
  - intros H. subst m. rewrite (js_lt_asym _ _ H).
    destruct (js_lt min max) eqn:E.
    + now rewrite js_lt_irrefl.
    + now rewrite E, Hle.
  - reflexivity.
Qed.

Lemma clamp_within_bounds_witness :
  clamp (JFin (-3)) (JFin 0) (JFin 1) = JFin 0.
Proof.
  destruct (clamp_within_bounds (JFin (-3)) (JFin 0) (JFin 1) eq_refl eq_refl eq_refl
              eq_refl) as (_ & _ & _ & H & _).
  apply H. reflexivity.
Defined.

(** ** AudioEngine.getVoiceIndex *)

Lemma find_index_spec {A} (p : A -> bool) (l : list A) : forall (i : nat),
  find_index p l = Some i ->
  (i < length l)%nat
  /\ (forall d, p (nth i l d) = true)
  /\ (forall j d, (j < i)%nat -> p (nth j l d) = false).
Proof.
  induction l as [|x l IH]; intros i; cbn [find_index]; [discriminate|].
  destruct (p x) eqn:Hx.
  - intros [= <-]. cbn [length nth]. repeat split; [lia|auto|intros; lia].
  - destruct (find_index p l) as [k|]; [|discriminate]. cbn [option_map].
    intros [= <-]. destruct (IH k eq_refl) as (H1 & H2 & H3). cbn [length].
    repeat split; [lia|intros d; apply H2|].
    intros [|j] d Hj; cbn [nth]; [exact Hx|]. apply H3. lia.
Qed.

(** X24: [getVoiceIndex] always returns a valid index.
    Whenever the browser offers at least one voice, the index returned
    for any voice id (or none) and any [totalVoices] is smaller than the
    number of voices, so the assignment [voices[getVoiceIndex(...)]] in
    [previewVoiceSample] always picks an existing voice.  A voice whose
    URI or name equals the id wins, the first such voice being taken,
    and without such a voice an id that contains no hyphen yields index
    0. *)
Theorem getVoiceIndex_in_range (systemVoices : list SpeechVoice)
    (voiceId : option jsstring) (totalVoices : Z) :
  systemVoices <> [] ->
  (getVoiceIndex systemVoices voiceId totalVoices < length systemVoices)%nat
  /\ (forall wanted i,
        voiceId = Some wanted -> wanted <> [] -> totalVoices <> 0 ->
        find_index (fun v => jsstring_eqb (voiceURI v) wanted
                             || jsstring_eqb (sv_name v) wanted) systemVoices = Some i ->
        getVoiceIndex systemVoices voiceId totalVoices = i
        /\ (voiceURI (nth i systemVoices (mkSpeechVoice [] [] [])) = wanted
            \/ sv_name (nth i systemVoices (mkSpeechVoice [] [] [])) = wanted))
  /\ (forall wanted,
        voiceId = Some wanted -> existsb (N.eqb 45) wanted = false ->
        find_index (fun v => jsstring_eqb (voiceURI v) wanted
                             || jsstring_eqb (sv_name v) wanted) systemVoices = None ->
        getVoiceIndex systemVoices voiceId totalVoices = 0%nat).
Proof.
  intros Hne.
  assert (0 < length systemVoices)%nat as Hlen
    by (destruct systemVoices; [contradiction|cbn [length]; lia]).
  split; [|split].
  - unfold getVoiceIndex. destruct voiceId as [wanted|]; [|exact Hlen].
    destruct (Nat.eqb (length wanted) 0 || (totalVoices =? 0)); [exact Hlen|].
    destruct (find_index _ systemVoices) as [i|] eqn:E1.
    { now apply find_index_spec in E1. }
    destruct (existsb (N.eqb 45) wanted); [|exact Hlen].
    destruct (find_index _ systemVoices) as [i|] eqn:E2 in |- *; [|exact Hlen].
    now apply find_index_spec in E2.
  - intros wanted i -> Hw Ht Hfind. unfold getVoiceIndex.
    destruct (Nat.eqb_spec (length wanted) 0) as [E|_].
    { destruct wanted; [contradiction|discriminate]. }
    destruct (Z.eqb_spec totalVoices 0) as [E|_]; [contradiction|].
    cbn [orb]. rewrite Hfind. split; [reflexivity|].
    destruct (find_index_spec _ _ _ Hfind) as (_ & Hp & _).
    specialize (Hp (mkSpeechVoice [] [] [])). apply orb_true_iff in Hp.
    unfold jsstring_eqb in Hp.
    destruct Hp as [Hp|Hp]; apply bool_decide_eq_true in Hp; auto.
  - intros wanted -> Hdash Hfind. unfold getVoiceIndex.
    destruct (Nat.eqb (length wanted) 0 || (totalVoices =? 0)); [reflexivity|].
    now rewrite Hfind, Hdash.
Qed.

Lemma getVoiceIndex_in_range_witness :
  (getVoiceIndex voices_demo (Some (js "en_US-lessac-high")) 2 < length voices_demo)%nat.
Proof.
  apply (getVoiceIndex_in_range voices_demo (Some (js "en_US-lessac-high")) 2).
  discriminate.
Defined.

(** ** The history: deleting what was just added *)

Section HistoryMore.

Variable JSON_stringify : jsval -> result jsstring.
Variable quota : gmap string jsstring -> string -> jsstring -> bool.

Lemma filter_keeps_all {A} (f : A -> bool) (l : list A) :
  Forall (fun x => f x = true) l -> List.filter f l = l.
Proof.
  induction 1 as [|x l Hx _ IH]; [reflexivity|]. cbn [List.filter]. now rewrite Hx, IH.
Qed.

Lemma Forall_removelast {A} (P : A -> Prop) (l : list A) :
  Forall P l -> Forall P (removelast l).
Proof.
  induction 1 as [|x l Hx Hl IH]; [constructor|]. cbn [removelast].
  destruct l; [constructor|]. constructor; [exact Hx|exact IH].
Qed.

(** X25: deleting the entry just added restores the list.
    [addToHistory] puts the new entry first, with the first 100 code
    units of the text and [Date.now()] as its id.  If no older entry has
    that id, deleting it by its id leaves exactly the older entries in
    their order: all of them when there were fewer than ten, and all but
    the oldest when there were ten, because the cap had already dropped
    the oldest entry and deleting does not bring it back. *)
Theorem delete_undoes_add (now : Z) (clock text : jsstring) (voiceId : string)
    (duration : jsnum) (ui : UIController) (ls : gmap string jsstring) :
  (length (history ui) <= 10)%nat ->
  Forall (fun h => id h <> js (pretty now)) (history ui) ->
  let added := addToHistory JSON_stringify quota now clock text voiceId duration ui ls in
  let deleted :=
    deleteHistoryItem JSON_stringify quota (js (pretty now)) added.1 added.2 in
  head (history added.1)
  = Some (mkHistoryItem (js (pretty now)) (firstn 100 text) (voice_name voiceId)
            duration clock)
  /\ history deleted.1
     = (if Nat.ltb (length (history ui)) 10 then history ui
        else removelast (history ui)).
Proof.
  intros Hlen Hids added deleted.
  set (item := mkHistoryItem (js (pretty now)) (firstn 100 text) (voice_name voiceId)
                 duration clock).
  assert (history added.1
          = item :: (if Nat.ltb (length (history ui)) 10 then history ui
                     else removelast (history ui))) as Ha.
  { subst added. rewrite addToHistory_history. fold item. unfold unshift_capped.
    cbn [length].
    destruct (Nat.ltb_spec (length (history ui)) 10) as [L|L].
    - destruct (Nat.ltb_spec 10 (S (length (history ui)))); [lia|reflexivity].
    - destruct (Nat.ltb_spec 10 (S (length (history ui)))); [|lia].
      cbn [removelast]. destruct (history ui); [cbn in L; lia|reflexivity]. }
  split; [now rewrite Ha|].
  subst deleted. rewrite deleteHistoryItem_history, Ha. cbn [List.filter].
  change (id item) with (js (pretty now)). rewrite jsstring_eqb_refl. cbn [negb].
  apply filter_keeps_all.
  assert (Forall (fun h => id h <> js (pretty now))
            (if Nat.ltb (length (history ui)) 10 then history ui
             else removelast (history ui))) as Hk
    by (destruct (Nat.ltb (length (history ui)) 10);
        [exact Hids | now apply Forall_removelast]).
  eapply Forall_impl; [exact Hk|]. intros h Hh. apply negb_true_iff.
  unfold jsstring_eqb. now apply bool_decide_eq_false.
Qed.

End HistoryMore.

Lemma delete_undoes_add_witness :
  history
    (deleteHistoryItem demo_stringify quota_unlimited (js (pretty 7))
       (addToHistory demo_stringify quota_unlimited 7 (js "10:00") (js "hello")
          "en_US-lessac-high" (JFin 2)
          (mkUIController [history_item_demo 1; history_item_demo 2] false) ∅).1
       (addToHistory demo_stringify quota_unlimited 7 (js "10:00") (js "hello")
          "en_US-lessac-high" (JFin 2)
          (mkUIController [history_item_demo 1; history_item_demo 2] false) ∅).2).1
  = [history_item_demo 1; history_item_demo 2].
Proof.
  destruct (delete_undoes_add demo_stringify quota_unlimited 7 (js "10:00") (js "hello")
              "en_US-lessac-high" (JFin 2)
              (mkUIController [history_item_demo 1; history_item_demo 2] false) ∅)
    as (_ & H).
  - cbn. lia.
  - repeat constructor; vm_compute; discriminate.
  - exact H.
Defined.

(** ** PiperEngine.preloadConfiguredVoices *)

Section Preload.

Variable env : Env.

Lemma preload_loop_spec (vids : list string) :
  forall (pe : PiperEngine) (tr : list event),
  exists pe' new,
    preload_loop env vids pe tr = (Ok tt, pe', tr ++ new)
    /\ voices pe' = voices pe /\ piper pe' = piper pe
    /\ isInitialized pe' = isInitialized pe
    /\ audioContext pe' = audioContext pe
    /\ Forall (fun ev => exists v, In v (voices pe) /\ In (v_id v) vids
                         /\ (ev = EvFetch (v_modelPath v)
                             \/ ev = EvFetch (v_modelPath v ++ ".json"))) new
    /\ (selectedVoice pe' = selectedVoice pe
        \/ exists vid, In vid vids /\ selectedVoice pe' = Some vid)
    /\ (piper pe = None -> pe' = pe /\ new = []).
Proof.
  induction vids as [|vid rest IH]; intros pe tr.
  - exists pe, []. rewrite app_nil_r. cbn [preload_loop]. rewrite run_ret.
    repeat split; auto.
  - cbn [preload_loop]. rewrite run_bind, run_try, run_bind, run_get.
    assert (exists pe1 new1,
               (let '(r, s', t') :=
                  (if cached_for vid (currentModelData pe) then mret tt
                   else if negb (existsb (fun v => String.eqb (v_id v) vid) (voices pe))
                        then mret tt
                        else Piper_loadVoiceModel env vid;; mret tt) pe tr in
                match r with
                | Ok a => (Ok a, s', t')
                | Throw e => (mret tt : M PiperEngine unit) s' t'
                end) = (Ok tt, pe1, tr ++ new1)
               /\ voices pe1 = voices pe /\ piper pe1 = piper pe
               /\ isInitialized pe1 = isInitialized pe
               /\ audioContext pe1 = audioContext pe
               /\ Forall (fun ev => exists v, In v (voices pe) /\ v_id v = vid
                                    /\ (ev = EvFetch (v_modelPath v)
                                        \/ ev = EvFetch (v_modelPath v ++ ".json"))) new1
               /\ (selectedVoice pe1 = selectedVoice pe \/ selectedVoice pe1 = Some vid)
               /\ (piper pe = None -> pe1 = pe /\ new1 = []))
      as (pe1 & new1 & Hstep & Hv1 & Hp1 & Hi1 & Ha1 & Hnew1 & Hsel1 & Hnone1).
    { destruct (cached_for vid (currentModelData pe)).
      { exists pe, []. rewrite app_nil_r, run_ret. repeat split; auto. }
      destruct (negb (existsb (fun v => String.eqb (v_id v) vid) (voices pe))).
      { exists pe, []. rewrite app_nil_r, run_ret. repeat split; auto. }
      destruct (loadVoiceModel_spec env vid pe tr)
        as (rl & pe1 & tr1 & Hl & Htr & Hpe & Hfail & Hnone).
      rewrite run_bind, Hl.
      assert (exists new1, tr1 = tr ++ new1
                /\ Forall (fun ev => exists v, In v (voices pe) /\ v_id v = vid
                                     /\ (ev = EvFetch (v_modelPath v)
                                         \/ ev = EvFetch (v_modelPath v ++ ".json")))
                     new1) as (new1 & -> & Hnew1).
      { destruct Htr as [->|(v & Hv & ->)].
        - exists []. rewrite app_nil_r. split; [reflexivity|constructor].
        - apply find_voice_some in Hv as [Hin Hid].
          eexists. split; [reflexivity|]. repeat constructor; exists v; auto. }
      exists pe1, new1.
      split; [destruct rl; reflexivity|].
      assert (voices pe1 = voices pe /\ piper pe1 = piper pe
              /\ isInitialized pe1 = isInitialized pe
              /\ audioContext pe1 = audioContext pe
              /\ (selectedVoice pe1 = selectedVoice pe \/ selectedVoice pe1 = Some vid))
        as (A & B & C & D & E)
        by (destruct Hpe as [->|(m & c & _ & ->)]; repeat split; auto).
      split; [exact A|]. split; [exact B|]. split; [exact C|]. split; [exact D|].
      split; [exact Hnew1|]. split; [exact E|].
      intros Hn. destruct (Hnone Hn) as [Hf Ht]. split; [exact (Hfail Hf)|].
      apply (f_equal (fun l => length l)) in Ht. rewrite length_app in Ht.
      destruct new1; [reflexivity|cbn [length] in Ht; lia]. }
    rewrite Hstep.
    destruct (IH pe1 (tr ++ new1))
      as (pe2 & new2 & Hrest & Hv2 & Hp2 & Hi2 & Ha2 & Hnew2 & Hsel2 & Hnone2).
    rewrite Hrest. exists pe2, (new1 ++ new2). rewrite app_assoc.
    split; [reflexivity|]. split; [congruence|]. split; [congruence|].
    split; [congruence|]. split; [congruence|]. split; [|split].
    + apply Forall_app. split.
      * eapply Forall_impl; [exact Hnew1|].
        intros ev (v & Hin & Hid & Hev). exists v. split; [exact Hin|].
        split; [left; now rewrite Hid|exact Hev].
      * eapply Forall_impl; [exact Hnew2|].
        intros ev (v & Hin & Hid & Hev). exists v. rewrite Hv1 in Hin.
        split; [exact Hin|]. split; [now right|exact Hev].
    + destruct Hsel2 as [Hs|(v & Hin & Hs)].
      * destruct Hsel1 as [Hs1|Hs1]; [left; congruence|].
        right. exists vid. split; [now left|congruence].
      * right. exists v. split; [now right|exact Hs].
    + intros Hn. destruct (Hnone1 Hn) as [E1 ->]. subst pe1.
      destruct (Hnone2 Hn) as [-> ->]. split; reflexivity.
Qed.

(** X26: preloading never fails and only touches configured
    voices.  [preloadConfiguredVoices] always returns, whatever the
    network does; it leaves the voice list, the library instance and the
    initialisation flag as they are; every request it makes is for the
    model file or the config file of a voice that is both discovered and
    configured for preloading; and the selected voice afterwards is
    either the one selected before or one of the configured voices (each
    successful preload selects the voice it loaded).  Without a library
    instance it does nothing at all. *)
Theorem preload_never_throws (pe : PiperEngine) (tr : list event) :
  let res := Piper_preloadConfiguredVoices env pe tr in
  outcome res = Ok tt
  /\ voices (final res) = voices pe
  /\ piper (final res) = piper pe
  /\ isInitialized (final res) = isInitialized pe
  /\ (exists new, effects res = tr ++ new
                  /\ Forall (preload_fetch (voices pe)) new)
  /\ (selectedVoice (final res) = selectedVoice pe
      \/ exists vid, In vid preloadVoices /\ selectedVoice (final res) = Some vid)
  /\ (piper pe = None -> final res = pe /\ effects res = tr).
Proof.
  cbv zeta. unfold Piper_preloadConfiguredVoices.
  change (Nat.eqb (length preloadVoices) 0) with false. cbv iota.
  destruct (preload_loop_spec preloadVoices pe tr)
    as (pe' & new & H & Hv & Hp & Hi & _ & Hnew & Hsel & Hnone).
  rewrite H. unfold outcome, final, effects. cbn [fst snd].
  split; [reflexivity|]. split; [exact Hv|]. split; [exact Hp|]. split; [exact Hi|].
  split; [|split].
  - exists new. split; [reflexivity|exact Hnew].
  - exact Hsel.
  - intros Hn. destruct (Hnone Hn) as [-> ->]. split; [reflexivity|apply app_nil_r].
Qed.

End Preload.
